(** * Qt-Calculator: the expression engine (calculator/core)

    A shallow embedding of [calculator/core]: the tokenizer and the parser of
    [parser.py], the node and token classes of [nodes.py] and [tokens.py], the
    exceptions of [exception.py] and the evaluator of [evaluator.py], followed
    by the properties of the engine.

    Python strings are lists of Unicode code points, Python [int] is [Z],
    Python [float] is the kernel's binary64 type, a raised exception is the
    [Raise] outcome of the [result] monad. *)

From Stdlib Require Import ZArith NArith List Floats Lia Bool.
From stdpp Require Import base option list strings gmap.
Import ListNotations.

Set Default Proof Using "Type".
Local Open Scope Z_scope.

(** ** Strings *)

(** A character is its code point, a string the list of its characters. *)
Abbreviation char := N (only parsing).
Abbreviation str := (list N) (only parsing).

(** Decoding of the UTF-8 bytes of a literal into code points, so that the
    expressions below can be written as they are typed. *)
Fixpoint utf8_decode (fuel : nat) (bs : list N) : str :=
  match fuel with
  | O => []
  | S fuel =>
    match bs with
    | [] => []
    | b0 :: bs1 =>
      if (b0 <? 128)%N then b0 :: utf8_decode fuel bs1
      else if (b0 <? 224)%N then
        match bs1 with
        | b1 :: bs2 => ((b0 - 192) * 64 + (b1 - 128))%N :: utf8_decode fuel bs2
        | _ => []
        end
      else if (b0 <? 240)%N then
        match bs1 with
        | b1 :: b2 :: bs3 =>
          ((b0 - 224) * 4096 + (b1 - 128) * 64 + (b2 - 128))%N :: utf8_decode fuel bs3
        | _ => []
        end
      else
        match bs1 with
        | b1 :: b2 :: b3 :: bs4 =>
          ((b0 - 240) * 262144 + (b1 - 128) * 4096 + (b2 - 128) * 64 + (b3 - 128))%N
            :: utf8_decode fuel bs4
        | _ => []
        end
    end
  end.

Definition py (s : string) : str :=
  let bs := map Ascii.N_of_ascii (String.list_ascii_of_string s) in
  utf8_decode (length bs) bs.

(** ** Exceptions and outcomes *)

(** The builtin exception classes that the engine raises itself or that the
    interpreter raises under it. *)
Inductive builtin : Set :=
| ValueError | TypeError | ZeroDivisionError | OverflowError
| IndexError | AttributeError.

(** [Builtin k msg]: a builtin exception; [msg] is the message when the engine
    raised it and [None] when the interpreter did (its texts are not
    modelled).  [ParsingException msg pos] holds the constructor's arguments;
    the attribute [pos] of the object is [ParsingException_pos].  The [inner]
    of an [EvaluationException] is the builtin exception that was caught.
    exception.py:3-22 *)
Inductive exn : Type :=
| ParsingException (msg : str) (pos : Z)
| EvaluationException (msg : str) (inner : option (builtin * option str))
| Builtin (kind : builtin) (msg : option str).

(** [self.pos = pos + 1] *)
Definition ParsingException_pos (e : exn) : option Z :=
  match e with
  | ParsingException _ pos => Some (pos + 1)
  | _ => None
  end.

(** The outcome of a call: a value, a raised exception, or [OutOfFuel] when
    the bound on the recursion given to a model function was too small. *)
Inductive result (A : Type) : Type :=
| Ok (a : A)
| Raise (e : exn)
| OutOfFuel.
Arguments Ok {A} a.
Arguments Raise {A} e.
Arguments OutOfFuel {A}.

Global Instance result_ret : MRet result := @Ok.
Global Instance result_bind : MBind result := fun A B k r =>
  match r with
  | Ok a => k a
  | Raise e => Raise e
  | OutOfFuel => OutOfFuel
  end.
Global Instance result_fmap : FMap result := fun A B f r =>
  match r with
  | Ok a => Ok (f a)
  | Raise e => Raise e
  | OutOfFuel => OutOfFuel
  end.

(** [seq[i]] of a Python list or string for an index that may be negative. *)
Definition py_index {A} (seq : list A) (i : Z) : result A :=
  let j := if i <? 0 then Z.of_nat (length seq) + i else i in
  if j <? 0 then Raise (Builtin IndexError None)
  else match seq !! Z.to_nat j with
       | Some a => Ok a
       | None => Raise (Builtin IndexError None)
       end.

(** [seq[start : stop]] for [0 <= start]. *)
Definition slice {A} (seq : list A) (start stop : nat) : list A :=
  take (stop - start) (drop start seq).

(** ** Numbers *)

(** The numbers of the interpreter: [int], [float] and [complex]. *)
Inductive value : Set :=
| PyInt (n : Z)
| PyFloat (x : float)
| PyComplex (re im : float).

(** [isinstance(v, complex)] *)
Definition isinstance_complex (v : value) : bool :=
  match v with
  | PyComplex _ _ => true
  | _ => false
  end.

(** What the interpreter takes from the Unicode database: [str.isalpha],
    [str.isnumeric], and the value of a decimal digit, which [int] and
    [float] accept in a literal. *)
Record Unicode : Type := {
  isalpha : char -> bool;
  isnumeric : char -> bool;
  decimal : char -> option Z
}.

Inductive arith : Set := Add | Sub | Mul | TrueDiv | Mod | Pow.

(** What the interpreter computes with the C library: the real power of two
    floats (the result of C [pow], or [OverflowError]), the remainder of two
    floats for a divisor that is not zero, and the arithmetic of [complex],
    whose result, when there is one, is a complex number. *)
Record Libm : Type := {
  float_pow_real : float -> float -> result float;
  float_rem : float -> float -> float;
  complex_arith : arith -> float * float -> float * float -> result (float * float)
}.

Definition raise_builtin {A} (k : builtin) : result A := Raise (Builtin k None).

(** An integer as a float: rounded to nearest, ties to even, [OverflowError]
    beyond the range of binary64. *)
Definition int_to_float (n : Z) : result float :=
  let x := SF2Prim (binary_normalize prec emax n 0 false) in
  if PrimFloat.is_infinity x then raise_builtin OverflowError else Ok x.

Definition Z2SF (n : Z) : spec_float :=
  match n with
  | Z0 => S754_zero false
  | Zpos p => S754_finite false p 0
  | Zneg p => S754_finite true p 0
  end.

(** [a / b] of two integers: the quotient rounded once to binary64. *)
Definition int_true_divide (a b : Z) : result float :=
  if b =? 0 then raise_builtin ZeroDivisionError
  else
    let x := SF2Prim (SFdiv prec emax (Z2SF a) (Z2SF b)) in
    if PrimFloat.is_infinity x then raise_builtin OverflowError else Ok x.

(** The integer a float denotes, when it is finite and has no fraction. *)
Definition float_to_integer (x : float) : option Z :=
  match Prim2SF x with
  | S754_zero _ => Some 0
  | S754_finite s m e =>
    let mag :=
      if 0 <=? e then Some (Zpos m * 2 ^ e)
      else if Zpos m mod 2 ^ (- e) =? 0 then Some (Zpos m / 2 ^ (- e))
      else None in
    (fun n : Z => if s then - n else n) <$> mag
  | _ => None
  end.

Definition float_is_finite (x : float) : bool :=
  negb (PrimFloat.is_nan x) && negb (PrimFloat.is_infinity x).

Definition to_float (v : value) : result float :=
  match v with
  | PyInt n => int_to_float n
  | PyFloat x => Ok x
  | PyComplex _ _ => raise_builtin TypeError
  end.

Definition to_complex (v : value) : result (float * float) :=
  match v with
  | PyInt n => x ← int_to_float n; Ok (x, 0%float)
  | PyFloat x => Ok (x, 0%float)
  | PyComplex re im => Ok (re, im)
  end.

Section Arithmetic.
Variable L : Libm.

Definition complex_op (o : arith) (a b : value) : result value :=
  x ← to_complex a;
  y ← to_complex b;
  z ← complex_arith L o x y;
  Ok (PyComplex z.1 z.2).

(** The operators on two numbers of which none is complex and not both are
    integers: both become floats. *)
Definition float_op (f : float -> float -> result value) (a b : value) : result value :=
  x ← to_float a;
  y ← to_float b;
  f x y.

(** [a + b], [a - b], [a * b] *)
Definition py_add (a b : value) : result value :=
  match a, b with
  | PyInt m, PyInt n => Ok (PyInt (m + n))
  | PyComplex _ _, _ | _, PyComplex _ _ => complex_op Add a b
  | _, _ => float_op (fun x y => Ok (PyFloat (x + y))) a b
  end.

Definition py_sub (a b : value) : result value :=
  match a, b with
  | PyInt m, PyInt n => Ok (PyInt (m - n))
  | PyComplex _ _, _ | _, PyComplex _ _ => complex_op Sub a b
  | _, _ => float_op (fun x y => Ok (PyFloat (x - y))) a b
  end.

Definition py_mul (a b : value) : result value :=
  match a, b with
  | PyInt m, PyInt n => Ok (PyInt (m * n))
  | PyComplex _ _, _ | _, PyComplex _ _ => complex_op Mul a b
  | _, _ => float_op (fun x y => Ok (PyFloat (x * y))) a b
  end.

(** [a / b]: true division, a float also for two integers. *)
Definition py_truediv (a b : value) : result value :=
  match a, b with
  | PyInt m, PyInt n => PyFloat <$> int_true_divide m n
  | PyComplex _ _, _ | _, PyComplex _ _ => complex_op TrueDiv a b
  | _, _ =>
    float_op (fun x y =>
      if (y =? 0)%float then raise_builtin ZeroDivisionError
      else Ok (PyFloat (x / y))) a b
  end.

(** [a % b]: the remainder has the sign of the divisor; [complex] has no
    remainder. *)
Definition py_mod (a b : value) : result value :=
  match a, b with
  | PyInt m, PyInt n =>
    if n =? 0 then raise_builtin ZeroDivisionError else Ok (PyInt (m mod n))
  | PyComplex _ _, _ | _, PyComplex _ _ => raise_builtin TypeError
  | _, _ =>
    float_op (fun x y =>
      if (y =? 0)%float then raise_builtin ZeroDivisionError
      else Ok (PyFloat (float_rem L x y))) a b
  end.

(** [x ** y] of two floats: 1.0 for a zero exponent, [ZeroDivisionError] for
    zero to a negative power that is finite (an infinite exponent is looked
    at before the base, and zero to minus infinity is infinity), a complex
    number for a negative base and an exponent with a fraction, and the real
    power otherwise. *)
Definition float_pow (x y : float) : result value :=
  if (y =? 0)%float then Ok (PyFloat 1)
  else if (x =? 0)%float && (y <? 0)%float && negb (PrimFloat.is_infinity y)
  then raise_builtin ZeroDivisionError
  else if float_is_finite x && (x <? 0)%float && float_is_finite y
          && negb (bool_decide (is_Some (float_to_integer y)))
  then z ← complex_arith L Pow (x, 0%float) (y, 0%float); Ok (PyComplex z.1 z.2)
  else PyFloat <$> float_pow_real L x y.

(** [a ** b]: exact for an integer to a power that is a natural number, a
    float power for an integer to a negative integer. *)
Definition py_pow (a b : value) : result value :=
  match a, b with
  | PyInt m, PyInt n =>
    if 0 <=? n then Ok (PyInt (m ^ n)) else float_op float_pow a b
  | PyComplex _ _, _ | _, PyComplex _ _ => complex_op Pow a b
  | _, _ => float_op float_pow a b
  end.
End Arithmetic.

(** [-a] and [+a] *)
Definition py_neg (a : value) : result value :=
  Ok match a with
     | PyInt n => PyInt (- n)
     | PyFloat x => PyFloat (- x)
     | PyComplex re im => PyComplex (- re) (- im)
     end.

Definition py_pos (a : value) : result value := Ok a.

Definition Z_factorial (n : Z) : Z :=
  fold_left Z.mul (map Z.of_nat (seq 1 (Z.to_nat n))) 1.

(** The greatest [long] of C, where it has 64 bits. *)
Definition LONG_MAX : Z := 9223372036854775807.

(** [math.factorial] as the interpreters from 3.10 on have it: the argument
    is an [int], and a [float], with a fraction or without, is a [TypeError];
    a negative number is a [ValueError], and a number above [LONG_MAX] an
    [OverflowError]. *)
Definition math_factorial (a : value) : result value :=
  match a with
  | PyInt n =>
    if n <? 0 then raise_builtin ValueError
    else if LONG_MAX <? n then raise_builtin OverflowError
    else Ok (PyInt (Z_factorial n))
  | PyFloat _ | PyComplex _ _ => raise_builtin TypeError
  end.

(** ** Literals: [int(content)] and [float(content)] *)

Section Literals.
Variable U : Unicode.

(** The longest prefix of decimal digits, as their values, and the rest. *)
Fixpoint span_digits (s : str) : list Z * str :=
  match s with
  | [] => ([], [])
  | ch :: s' =>
    match decimal U ch with
    | Some d => let '(ds, rest) := span_digits s' in (d :: ds, rest)
    | None => ([], s)
    end
  end.

Definition digits_value (ds : list Z) : Z :=
  fold_left (fun acc d => acc * 10 + d) ds 0.

(** The digits that [int] converts from a string at most, as the
    interpreters from 3.11 on are set when nothing changes it
    ([sys.get_int_max_str_digits()]). *)
Definition int_max_str_digits : Z := 4300.

(** [int(content)] for a content without sign, blank or underscore (there
    is none in what [read_number] scans): the digits must be decimal, and
    there must not be more of them than [int_max_str_digits]. *)
Definition py_int (content : str) : result Z :=
  match span_digits content with
  | (d :: ds, []) =>
    if int_max_str_digits <? Z.of_nat (length (d :: ds)) then raise_builtin ValueError
    else Ok (digits_value (d :: ds))
  | _ => raise_builtin ValueError
  end.

(** The binary64 nearest to [m * 10 ^ e], ties to even. *)
Definition decimal_to_float (m e : Z) : float :=
  if 0 <=? e then SF2Prim (binary_normalize prec emax (m * 10 ^ e) 0 false)
  else SF2Prim (SFdiv prec emax (Z2SF m) (Z2SF (10 ^ (- e)))).

(** The exponent part of a float literal: empty, or [e] or [E], a sign or
    none, and at least one digit. *)
Definition float_exponent (s : str) : option Z :=
  match s with
  | [] => Some 0
  | ch :: s1 =>
    if bool_decide (ch = 101%N \/ ch = 69%N) then
      let '(sign, s2) :=
        match s1 with
        | 43%N :: s2 => (1, s2)
        | 45%N :: s2 => (-1, s2)
        | _ => (1, s1)
        end in
      match span_digits s2 with
      | (d :: ds, []) => Some (sign * digits_value (d :: ds))
      | _ => None
      end
    else None
  end.

(** [float(content)] for a content without sign or blank: digits, a dot and
    digits, with a digit on one side of the dot at least, and an exponent
    part; the value is rounded once. *)
Definition py_float (content : str) : result float :=
  let '(ip, s1) := span_digits content in
  let '(fp, s2) :=
    match s1 with
    | 46%N :: s1' => span_digits s1'
    | _ => ([], s1)
    end in
  match ip ++ fp, float_exponent s2 with
  | d :: ds, Some e =>
    Ok (decimal_to_float (digits_value (d :: ds)) (e - Z.of_nat (length fp)))
  | _, _ => raise_builtin ValueError
  end.
End Literals.

(** ** constants.py, structs.py *)

Module BinaryOperators.
Definition OP_ADD : str := [43%N].        (* + *)
Definition OP_MINUS : str := [45%N].      (* - *)
Definition OP_MULTIPLY : str := [215%N].  (* U+00D7 *)
Definition OP_DIVIDE : str := [247%N].    (* U+00F7 *)
Definition OP_POWER : str := [94%N].      (* ^ *)
Definition OP_MOD : str := [37%N].        (* % *)
End BinaryOperators.

Module UnaryOperators.
Definition OP_NEGATIVE : str := [45%N].   (* - *)
Definition OP_POSITIVE : str := [43%N].   (* + *)
Definition OP_FACTORIAL : str := [33%N].  (* ! *)
End UnaryOperators.

Inductive OperatorAffix : Set := INFIX | PREFIX | POSTFIX.

Global Instance OperatorAffix_eq_dec : EqDecision OperatorAffix.
Proof. solve_decision. Defined.

Module Separators.
Definition SEP_COMMA : str := [44%N].          (* , *)
Definition SEP_LEFT_BRACKET : str := [40%N].   (* ( *)
Definition SEP_RIGHT_BRACKET : str := [41%N].  (* ) *)
Definition SEP_DOT : str := [46%N].            (* . *)
End Separators.

(** [math.pi] and [math.e] *)
Definition MATH_CONSTANTS : gmap str value :=
  list_to_map [ ([960%N], PyFloat 0x1.921fb54442d18p+1);
                ([101%N], PyFloat 0x1.5bf0a8b145769p+1) ].

Record OperatorInfo : Set := {
  op : str;
  priority : Z;
  affix : OperatorAffix
}.

(** ** tokens.py *)

(** The token classes; [TokenOpenBracket] and [TokenCloseBracket] are
    subclasses of [TokenSymbol]. *)
Inductive Token : Set :=
| TokenName (name : str) (pos : nat)
| TokenNumber (num : value) (pos : nat)
| TokenSymbol (symbol : str) (pos : nat)
| TokenOpenBracket (pos : nat)
| TokenCloseBracket (pos : nat).

(** The constructors' checks: tokens.py:28-29 and 63-64. *)
Definition new_TokenName (name : str) (pos : nat) : result Token :=
  if bool_decide (name = []) then Raise (Builtin ValueError (Some (py "name is empty")))
  else Ok (TokenName name pos).

Definition new_TokenSymbol (symbol : str) (pos : nat) : result Token :=
  if bool_decide (symbol = []) then Raise (Builtin ValueError (Some (py "symbol is empty")))
  else Ok (TokenSymbol symbol pos).

Definition token_pos (t : Token) : nat :=
  match t with
  | TokenName _ pos | TokenNumber _ pos | TokenSymbol _ pos
  | TokenOpenBracket pos | TokenCloseBracket pos => pos
  end.

(** [isinstance(token, tokens.TokenSymbol)] *)
Definition isinstance_TokenSymbol (t : Token) : bool :=
  match t with
  | TokenSymbol _ _ | TokenOpenBracket _ | TokenCloseBracket _ => true
  | _ => false
  end.

(** [token.symbol]; the other classes have no such attribute. *)
Definition token_symbol (t : Token) : result str :=
  match t with
  | TokenSymbol symbol _ => Ok symbol
  | TokenOpenBracket _ => Ok Separators.SEP_LEFT_BRACKET
  | TokenCloseBracket _ => Ok Separators.SEP_RIGHT_BRACKET
  | _ => raise_builtin AttributeError
  end.

(** ** nodes.py *)

#[warnings="-register-all"]
Inductive ExpNode : Set :=
| BinaryOpNode (op : str) (left right : ExpNode) (pos : nat)
| UnaryOpNode (op : str) (child : ExpNode) (pos : nat)
| NumberNode (num : value) (pos : nat)
| NameConstantNode (name : str) (pos : nat)
| FuncCallNode (id : str) (args : list ExpNode) (pos : nat).

(** ** parser.py: the tables *)

(** The first element is the two characters U+00CF U+20AC that the source
    file holds. parser.py:11 *)
Definition NAME_CHAR_SPECIALS : gset str := {[ [207%N; 8364%N]; [95%N] ]}.
Definition VALID_SEPARATORS : gset str := {[ Separators.SEP_COMMA ]}.

Definition BINOP_TABLE : gmap str OperatorInfo :=
  list_to_map
    [ (BinaryOperators.OP_ADD, Build_OperatorInfo BinaryOperators.OP_ADD 5 INFIX);
      (BinaryOperators.OP_MINUS, Build_OperatorInfo BinaryOperators.OP_MINUS 5 INFIX);
      (BinaryOperators.OP_MULTIPLY, Build_OperatorInfo BinaryOperators.OP_MULTIPLY 6 INFIX);
      (BinaryOperators.OP_DIVIDE, Build_OperatorInfo BinaryOperators.OP_DIVIDE 6 INFIX);
      (BinaryOperators.OP_MOD, Build_OperatorInfo BinaryOperators.OP_MOD 6 INFIX);
      (BinaryOperators.OP_POWER, Build_OperatorInfo BinaryOperators.OP_POWER 7 INFIX) ].

Definition UNARYOP_TABLE : gmap str OperatorInfo :=
  list_to_map
    [ (UnaryOperators.OP_NEGATIVE, Build_OperatorInfo UnaryOperators.OP_NEGATIVE 5 PREFIX);
      (UnaryOperators.OP_POSITIVE, Build_OperatorInfo UnaryOperators.OP_POSITIVE 5 PREFIX);
      (UnaryOperators.OP_FACTORIAL, Build_OperatorInfo UnaryOperators.OP_FACTORIAL 6 POSTFIX) ].

(** [key in table] *)
Definition contains {V} (table : gmap str V) (key : str) : bool :=
  bool_decide (is_Some (table !! key)).

(** ** parser.py: [tokenize] *)

(** The states of [read_number]; ['end'] is no key of [state_map]. *)
Inductive nstate : Set :=
| st_start | st_int | st_fraction | st_exponent | st_exponent_value | st_end.

Global Instance nstate_eq_dec : EqDecision nstate.
Proof. solve_decision. Defined.

Definition state_map (state : nstate) : list nstate :=
  match state with
  | st_start => [st_int; st_fraction]
  | st_int => [st_fraction; st_exponent; st_end]
  | st_fraction => [st_exponent; st_end]
  | st_exponent => [st_exponent_value]
  | st_exponent_value => [st_end]
  | st_end => []
  end.

(** [target in state_map[state]] *)
Definition allows (state target : nstate) : bool :=
  bool_decide (target ∈ state_map state).

(** f"invalid character '{char}'" *)
Definition invalid_character (ch : char) : str :=
  py "invalid character '" ++ [ch] ++ py "'".

Section Tokenizer.
Variable U : Unicode.
Variable exp : str.

(** parser.py:35-40 *)
Definition is_name_char (ch : char) : bool :=
  isalpha U ch || isnumeric U ch || bool_decide ([ch] ∈ NAME_CHAR_SPECIALS).

Definition is_op (ch : char) : bool :=
  contains BINOP_TABLE [ch] || contains UNARYOP_TABLE [ch].

(** The loop of [read_number] from index [i], where [rest] is [exp[i:]]:
    the state, [is_end] and the index with which it is left.
    parser.py:55-86 *)
Fixpoint read_number_loop (rest : str) (state : nstate) (i : nat)
  : result (nstate * bool * nat) :=
  match rest with
  | [] => Ok (state, false, i)
  | ch :: rest' =>
    if isnumeric U ch then
      let state :=
        if decide (state = st_start) then st_int
        else if decide (state = st_exponent) then st_exponent_value
        else state in
      read_number_loop rest' state (i + 1)
    else if bool_decide ([ch] = Separators.SEP_DOT) then
      if allows state st_fraction then read_number_loop rest' st_fraction (i + 1)
      else Raise (ParsingException (py "invalid '.'") (Z.of_nat i))
    else if isalpha U ch then
      if bool_decide (ch = 101%N \/ ch = 69%N) then
        if allows state st_exponent then read_number_loop rest' st_exponent (i + 1)
        else Raise (ParsingException (py "invalid 'e'") (Z.of_nat i))
      else Raise (ParsingException (invalid_character ch) (Z.of_nat i))
    else if bool_decide ([ch] = UnaryOperators.OP_NEGATIVE
                         \/ [ch] = UnaryOperators.OP_POSITIVE) then
      if allows state st_exponent_value
      then read_number_loop rest' st_exponent_value (i + 1)
      else Ok (state, true, i)
    else Ok (state, true, i)
  end.

(** parser.py:42-101 *)
Definition read_number (start : nat) (token_list : list Token)
  : result (nat * list Token) :=
  '(state, is_end, i) ← read_number_loop (drop start exp) st_start start;
  if allows state st_end then
    let content := slice exp start i in
    num ← (if decide (state = st_int) then PyInt <$> py_int U content
           else PyFloat <$> py_float U content);
    Ok (i, token_list ++ [TokenNumber num start])
  else if is_end : bool then
    ch ← py_index exp (Z.of_nat i - 1);
    Raise (ParsingException (invalid_character ch) (Z.of_nat i - 1))
  else
    ch ← py_index exp (Z.of_nat i);
    Raise (ParsingException (invalid_character ch) (Z.of_nat i)).

(** parser.py:103-111 *)
Fixpoint read_name_loop (rest : str) (i : nat) : nat :=
  match rest with
  | [] => i
  | ch :: rest' => if is_name_char ch then read_name_loop rest' (i + 1) else i
  end.

Definition read_name (start : nat) (token_list : list Token)
  : result (nat * list Token) :=
  let i := read_name_loop (drop start exp) start in
  token ← new_TokenName (slice exp start i) start;
  Ok (i, token_list ++ [token]).

(** The loop of [tokenize]; every pass moves [i] forward, so that
    [length exp] passes are enough.  parser.py:121-143 *)
Fixpoint tokenize_loop (fuel : nat) (i : nat) (token_list : list Token)
  : result (list Token) :=
  match exp !! i with
  | None => Ok token_list
  | Some ch =>
    match fuel with
    | O => OutOfFuel
    | S fuel =>
      if is_op ch || bool_decide ([ch] ∈ VALID_SEPARATORS) then
        tokenize_loop fuel (i + 1) (token_list ++ [TokenSymbol [ch] i])
      else if bool_decide ([ch] = Separators.SEP_LEFT_BRACKET) then
        tokenize_loop fuel (i + 1) (token_list ++ [TokenOpenBracket i])
      else if bool_decide ([ch] = Separators.SEP_RIGHT_BRACKET) then
        tokenize_loop fuel (i + 1) (token_list ++ [TokenCloseBracket i])
      else if bool_decide ([ch] = Separators.SEP_DOT) || isnumeric U ch then
        '(i, token_list) ← read_number i token_list;
        tokenize_loop fuel i token_list
      else if bool_decide (ch = 32%N) then
        tokenize_loop fuel (i + 1) token_list
      else if is_name_char ch then
        '(i, token_list) ← read_name i token_list;
        tokenize_loop fuel i token_list
      else Raise (ParsingException (invalid_character ch) (Z.of_nat i))
    end
  end.

(** parser.py:30-143; the argument is a [str], so that the [TypeError] of
    line 114 is not raised. *)
Definition tokenize : result (list Token) :=
  if bool_decide (exp = []) then Raise (Builtin ValueError (Some (py "exp is empty")))
  else tokenize_loop (length exp) 0 [].
End Tokenizer.

(** [str.isalpha], [str.isnumeric] and the decimal digits on Basic Latin, the
    Latin-1 Supplement and the Greek letters.  Beyond these blocks the table
    answers [false]: it is for inputs written in them. *)
Definition latin_greek : Unicode := {|
  isalpha ch :=
    ((65 <=? ch) && (ch <=? 90) || (97 <=? ch) && (ch <=? 122)
     || (ch =? 170) || (ch =? 181) || (ch =? 186)
     || (192 <=? ch) && (ch <=? 214) || (216 <=? ch) && (ch <=? 246)
     || (248 <=? ch) && (ch <=? 255)
     || (913 <=? ch) && (ch <=? 929) || (931 <=? ch) && (ch <=? 937)
     || (945 <=? ch) && (ch <=? 969))%N;
  isnumeric ch :=
    ((48 <=? ch) && (ch <=? 57)
     || (ch =? 178) || (ch =? 179) || (ch =? 185)
     || (188 <=? ch) && (ch <=? 190))%N;
  decimal ch :=
    if ((48 <=? ch) && (ch <=? 57))%N then Some (Z.of_N ch - 48) else None
|}.


(** ** parser.py: [build_expression_tree] *)

(** [seq[i]] for an index that is not negative. *)
Definition getitem {A} (seq : list A) (i : nat) : result A :=
  match seq !! i with
  | Some a => Ok a
  | None => raise_builtin IndexError
  end.

Definition is_unary_op (op : str) : bool := contains UNARYOP_TABLE op.

Definition is_open_bracket (token : Token) : bool :=
  match token with
  | TokenOpenBracket _ => true
  | _ => false
  end.

Definition is_close_bracket (token : Token) : bool :=
  match token with
  | TokenCloseBracket _ => true
  | _ => false
  end.

Definition is_comma (token : Token) : bool :=
  match token with
  | TokenSymbol symbol _ => bool_decide (symbol = Separators.SEP_COMMA)
  | _ => false
  end.

(** parser.py:162-169 *)
Definition is_higher_or_equal_op_priority
    (op1 op2 : str) (table : gmap str OperatorInfo) : bool :=
  let p1 := match table !! op1 with None => 0 | Some oi1 => priority oi1 end in
  let p2 := match table !! op2 with None => 0 | Some oi2 => priority oi2 end in
  p2 <=? p1.

(** [UNARYOP_TABLE[symbol].affix == a], for a symbol of the table. *)
Definition unary_affix_is (symbol : str) (a : OperatorAffix) : bool :=
  bool_decide (affix <$> UNARYOP_TABLE !! symbol = Some a).

Definition unexpected_symbol (symbol : str) : str :=
  py "unexpected symbol '" ++ symbol ++ py "'".

Definition not_a_prefix_operator (symbol : str) : str :=
  py "unary operator '" ++ symbol ++ py "' is not a prefix operator".

Section Parser.
Variable token_list : list Token.

(** parser.py:244-257.  The assignment [child.child = node] changes the
    node that [child] names, which the caller has just built and nothing
    else refers to; the result is that node with its new child. *)
Definition read_postfix_unary_exp (index : nat) (child : ExpNode)
  : result (ExpNode * nat) :=
  token ← getitem token_list index;
  symbol ← token_symbol token;
  let node :=
    match child with
    | UnaryOpNode child_op child_child child_pos =>
      if is_higher_or_equal_op_priority symbol child_op UNARYOP_TABLE then
        let node := UnaryOpNode symbol child_child (token_pos token) in
        UnaryOpNode child_op node child_pos
      else UnaryOpNode symbol child (token_pos token)
    | _ => UnaryOpNode symbol child (token_pos token)
    end in
  Ok (node, index + 1)%nat.

(** The functions of [build_expression_tree] that call each other, with a
    bound [fuel] on the depth of the calls.  The loop of [read_func_call]
    is [read_func_call_loop]. *)
Fixpoint read_exp_chain (fuel : nat) (index : nat) {struct fuel}
  : result (ExpNode * nat) :=
  match fuel with
  | O => OutOfFuel
  | S fuel =>
    (* parser.py:171-210 *)
    token ← getitem token_list index;
    '(node, i) ←
      (if isinstance_TokenSymbol token then
         symbol ← token_symbol token;
         if is_open_bracket token then read_exp fuel index
         else if is_unary_op symbol then
           if unary_affix_is symbol PREFIX then read_prefix_unary_exp fuel index
           else Raise (ParsingException (not_a_prefix_operator symbol)
                                        (Z.of_nat (token_pos token)))
         else Raise (ParsingException (unexpected_symbol symbol)
                                      (Z.of_nat (token_pos token)))
       else read_exp fuel index);
    if (i <? length token_list)%nat then
      (* look ahead for 1 token *)
      next_token ← getitem token_list i;
      '(node, i) ←
        (if isinstance_TokenSymbol next_token then
           symbol ← token_symbol next_token;
           if is_unary_op symbol && unary_affix_is symbol POSTFIX
           then read_postfix_unary_exp i node
           else Ok (node, i)
         else Ok (node, i));
      if (i <? length token_list)%nat then
        (* look ahead for 1 token *)
        next_token ← getitem token_list i;
        if is_close_bracket next_token then Ok (node, i)
        else if isinstance_TokenSymbol next_token then
          symbol ← token_symbol next_token;
          if bool_decide (symbol = Separators.SEP_COMMA) then Ok (node, i)
          else if contains BINOP_TABLE symbol then read_binary_exp fuel i node
          else Raise (ParsingException (unexpected_symbol symbol)
                                       (Z.of_nat (token_pos next_token)))
        else Raise (ParsingException (py "unexpected token")
                                     (Z.of_nat (token_pos next_token)))
      else Ok (node, i)
    else Ok (node, i)
  end

with read_exp (fuel : nat) (index : nat) {struct fuel}
  : result (ExpNode * nat) :=
  match fuel with
  | O => OutOfFuel
  | S fuel =>
    (* parser.py:212-229 *)
    if (length token_list <=? index)%nat then
      last ← py_index token_list (-1);
      Raise (ParsingException (py "unexpected token") (Z.of_nat (token_pos last)))
    else
      token ← getitem token_list index;
      match token with
      | TokenOpenBracket _ => read_bracket_exp fuel index
      | TokenNumber num pos => Ok (NumberNode num pos, index + 1)%nat
      | TokenName name pos =>
        if (index + 1 <? length token_list)%nat then
          next_token ← getitem token_list (index + 1);
          if is_open_bracket next_token then read_func_call fuel index
          else Ok (NameConstantNode name pos, index + 1)%nat
        else Ok (NameConstantNode name pos, index + 1)%nat
      | TokenSymbol symbol pos =>
        Raise (ParsingException (unexpected_symbol symbol) (Z.of_nat pos))
      | TokenCloseBracket pos =>
        Raise (ParsingException (unexpected_symbol Separators.SEP_RIGHT_BRACKET)
                                (Z.of_nat pos))
      end
  end

with read_bracket_exp (fuel : nat) (index : nat) {struct fuel}
  : result (ExpNode * nat) :=
  match fuel with
  | O => OutOfFuel
  | S fuel =>
    (* parser.py:231-237 *)
    '(node, i) ← read_exp_chain fuel (index + 1);
    match token_list !! i with
    | Some (TokenCloseBracket _) => Ok (node, i + 1)%nat
    | _ =>
      token ← getitem token_list index;
      Raise (ParsingException (py "unmatch '('") (Z.of_nat (token_pos token)))
    end
  end

with read_prefix_unary_exp (fuel : nat) (index : nat) {struct fuel}
  : result (ExpNode * nat) :=
  match fuel with
  | O => OutOfFuel
  | S fuel =>
    (* parser.py:239-242 *)
    '(node, i) ← read_exp fuel (index + 1);
    token ← getitem token_list index;
    symbol ← token_symbol token;
    Ok (UnaryOpNode symbol node (token_pos token), i)
  end

with read_binary_exp (fuel : nat) (index : nat) (left : ExpNode) {struct fuel}
  : result (ExpNode * nat) :=
  match fuel with
  | O => OutOfFuel
  | S fuel =>
    (* parser.py:259-276.  [right.left = node] changes the node that
       [right] names, which nothing else refers to. *)
    '(right_, i) ← read_exp_chain fuel (index + 1);
    token ← getitem token_list index;
    symbol ← token_symbol token;
    match right_ with
    | BinaryOpNode right_op right_left right_right right_pos =>
      after ← getitem token_list (index + 1);
      if negb (is_open_bracket after) then
        (* check operator priority and rotate the expression tree *)
        if is_higher_or_equal_op_priority symbol right_op BINOP_TABLE then
          let node := BinaryOpNode symbol left right_left (token_pos token) in
          Ok (BinaryOpNode right_op node right_right right_pos, i)
        else Ok (BinaryOpNode symbol left right_ (token_pos token), i)
      else Ok (BinaryOpNode symbol left right_ (token_pos token), i)
    | _ => Ok (BinaryOpNode symbol left right_ (token_pos token), i)
    end
  end

with read_func_call (fuel : nat) (index : nat) {struct fuel}
  : result (ExpNode * nat) :=
  match fuel with
  | O => OutOfFuel
  | S fuel =>
    (* parser.py:278-300 *)
    name_token ← getitem token_list index;
    '(i, args) ← read_func_call_loop fuel (index + 2) [];
    match token_list !! i with
    | Some (TokenCloseBracket _) =>
      match name_token with
      | TokenName name pos => Ok (FuncCallNode name args pos, i + 1)%nat
      | _ => raise_builtin AttributeError
      end
    | _ =>
      Raise (ParsingException (py "unclose func call")
                              (Z.of_nat (token_pos name_token)))
    end
  end

with read_func_call_loop (fuel : nat) (i : nat) (args : list ExpNode) {struct fuel}
  : result (nat * list ExpNode) :=
  match fuel with
  | O => OutOfFuel
  | S fuel =>
    (* parser.py:288-294 *)
    match token_list !! i with
    | None | Some (TokenCloseBracket _) => Ok (i, args)
    | Some _ =>
      '(node, i) ← read_exp_chain fuel i;
      let args := args ++ [node] in
      match token_list !! i with
      | Some token =>
        if is_comma token then read_func_call_loop fuel (i + 1) args
        else Ok (i, args)
      | None => Ok (i, args)
      end
    end
  end.

(** A depth of calls that the token list cannot exceed. *)
Definition parse_fuel : nat := 4 * length token_list + 4.

(** parser.py:145-312 *)
Definition build_expression_tree : result ExpNode :=
  '(node, i) ← read_exp_chain parse_fuel 0;
  match token_list !! i with
  | Some last_token =>
    if is_close_bracket last_token
    then Raise (ParsingException (py "unmatch ')'") (Z.of_nat (token_pos last_token)))
    else Raise (ParsingException (py "unexpected token")
                                 (Z.of_nat (token_pos last_token)))
  | None => Ok node
  end.
End Parser.

(** parser.py:314-322 *)
Definition parse_expression (U : Unicode) (expression : str) : result ExpNode :=
  tokens ← tokenize U expression;
  build_expression_tree tokens.

(** ** evaluator.py *)

(** A callable of the context: what [inspect.getfullargspec] reports of it
    (the number of its positional parameters, and of their defaults or [None])
    and what a call of it with the given values does. *)
Record PyFunction : Type := {
  spec_args : nat;
  spec_defaults : option nat;
  call : list value -> result value
}.

(** evaluator.py:34-52 *)
Record EvaluatorContext : Type := {
  constants : gmap str value;
  functions : gmap str PyFunction
}.

(** [EvaluatorContext(constants=..., functions=...)]: [dict.update] lets the
    given entries replace the defaults. *)
Definition new_EvaluatorContext
    (constants : option (gmap str value)) (functions : option (gmap str PyFunction))
  : EvaluatorContext :=
  {| constants := default ∅ constants ∪ MATH_CONSTANTS;
     functions := default ∅ functions ∪ ∅ |}.

(** The [for] of a list comprehension over calls that may raise: from left
    to right, up to the first exception. *)
Definition for_each {A B} (f : A -> result B) : list A -> result (list B) :=
  fix go (l : list A) : result (list B) :=
    match l with
    | [] => Ok []
    | x :: l => y ← f x; ys ← go l; Ok (y :: ys)
    end.

Section Evaluator.
Variable L : Libm.

(** evaluator.py:18-31 *)
Definition OP_FUNCTIONS_BINARY : gmap str (value -> value -> result value) :=
  list_to_map
    [ (BinaryOperators.OP_ADD, py_add L);
      (BinaryOperators.OP_MINUS, py_sub L);
      (BinaryOperators.OP_MULTIPLY, py_mul L);
      (BinaryOperators.OP_DIVIDE, py_truediv L);
      (BinaryOperators.OP_POWER, py_pow L);
      (BinaryOperators.OP_MOD, py_mod L) ].

Definition OP_FUNCTIONS_UNARY : gmap str (value -> result value) :=
  list_to_map
    [ (UnaryOperators.OP_POSITIVE, py_pos);
      (UnaryOperators.OP_NEGATIVE, py_neg);
      (UnaryOperators.OP_FACTORIAL, math_factorial) ].

Variable context : EvaluatorContext.

Definition evaluation_error {A} (msg : str) : result A :=
  Raise (EvaluationException msg None).

(** evaluator.py:73-74 *)
Definition _eval_number (num : value) : result value := Ok num.

(** evaluator.py:76-80 *)
Definition _eval_const (name : str) : result value :=
  match constants context !! name with
  | Some v => Ok v
  | None => evaluation_error (py "unknown constant '" ++ name ++ py "'")
  end.

(** evaluator.py:82-88, over the evaluator [self_eval_node] of the
    children. *)
Definition _eval_unary (self_eval_node : ExpNode -> result value)
    (op : str) (child : ExpNode) : result value :=
  match OP_FUNCTIONS_UNARY !! op with
  | Some fun_ =>
    value ← self_eval_node child;
    fun_ value
  | None => evaluation_error (py "unsupported unary operator '" ++ op ++ py "'")
  end.

(** evaluator.py:90-102 *)
Definition _eval_binary (self_eval_node : ExpNode -> result value)
    (op : str) (left right : ExpNode) : result value :=
  match OP_FUNCTIONS_BINARY !! op with
  | Some fun_ =>
    v_left ← self_eval_node left;
    v_right ← self_eval_node right;
    result ← fun_ v_left v_right;
    if isinstance_complex result then evaluation_error (py "invalid expression")
    else Ok result
  | None => evaluation_error (py "unsupported binary operator '" ++ op ++ py "'")
  end.

(** evaluator.py:104-117 *)
Definition _eval_func_call (self_eval_node : ExpNode -> result value)
    (id : str) (args : list ExpNode) : result value :=
  match functions context !! id with
  | Some fun_ =>
    (* spec validation *)
    let max_argc := Z.of_nat (spec_args fun_) in
    let min_argc :=
      max_argc - match spec_defaults fun_ with
                 | None => 0
                 | Some defaults => Z.of_nat defaults
                 end in
    if (min_argc <=? Z.of_nat (length args)) && (Z.of_nat (length args) <=? max_argc)
    then
      values ← for_each self_eval_node args;   (* resolve arguments *)
      call fun_ values
    else evaluation_error
           (py "incorrect number of arguments passed into function '" ++ id ++ py "'")
  | None => evaluation_error (py "unsupported function '" ++ id ++ py "'")
  end.

(** The [except] clauses of [_eval_node]. evaluator.py:124-127 *)
Definition except_arithmetic (r : result value) : result value :=
  match r with
  | Raise (Builtin ZeroDivisionError msg) =>
    Raise (EvaluationException (py "zero division") (Some (ZeroDivisionError, msg)))
  | Raise (Builtin ValueError msg) =>
    Raise (EvaluationException (py "value error") (Some (ValueError, msg)))
  | _ => r
  end.

(** evaluator.py:119-129; the five classes are all the nodes there are, so
    that the [else] of the [for] is not reached. *)
Fixpoint _eval_node (node : ExpNode) : result value :=
  except_arithmetic
    match node with
    | NumberNode num _ => _eval_number num
    | NameConstantNode name _ => _eval_const name
    | BinaryOpNode op left_ right_ _ => _eval_binary _eval_node op left_ right_
    | UnaryOpNode op child _ => _eval_unary _eval_node op child
    | FuncCallNode id args _ => _eval_func_call _eval_node id args
    end.

(** evaluator.py:131-141 *)
Definition evaluate (U : Unicode) (exp_or_node : str + ExpNode) : result value :=
  exp_tree ← match exp_or_node with
             | inr node => Ok node
             | inl exp => parse_expression U exp
             end;
  _eval_node exp_tree.
End Evaluator.

(** A C library for the closed examples below.  It is right on the one
    argument they pass to it, the complex power of -1.0 to 0.5, and answers
    [OverflowError] to every other call. *)
Definition libm_examples : Libm := {|
  float_pow_real _ _ := raise_builtin OverflowError;
  float_rem _ _ := nan;
  complex_arith o a b :=
    match o with
    | Pow =>
      if ((a.1 =? -1) && (a.2 =? 0) && (b.1 =? 0.5) && (b.2 =? 0))%float
      then Ok (0x1.1a62633145c07p-54%float, 1%float)
      else raise_builtin OverflowError
    | _ => raise_builtin OverflowError
    end
|}.

(** The function [lambda a, m=2: a * m] of the tests. test_evaluator.py:14 *)
Definition mult (L : Libm) : PyFunction := {|
  spec_args := 2;
  spec_defaults := Some 1%nat;
  call values :=
    match values with
    | [a] => py_mul L a (PyInt 2)
    | [a; m] => py_mul L a m
    | _ => raise_builtin TypeError
    end
|}.

(** The function [lambda: 1j], which a caller may register. *)
Definition imaginary_unit : PyFunction := {|
  spec_args := 0;
  spec_defaults := None;
  call _ := Ok (PyComplex 0 1)
|}.

(** A C library whose functions return, and a context whose functions
    return: a call of them ends, with a value or with an exception. *)
Definition libm_returns (L : Libm) : Prop :=
  (∀ x y, float_pow_real L x y ≠ OutOfFuel)
  ∧ (∀ o a b, complex_arith L o a b ≠ OutOfFuel).

Definition context_returns (context : EvaluatorContext) : Prop :=
  ∀ id fun_ values, functions context !! id = Some fun_ → call fun_ values ≠ OutOfFuel.

(** The number literals of a tree. *)
Fixpoint numbers_of (node : ExpNode) : list value :=
  match node with
  | NumberNode num _ => [num]
  | NameConstantNode _ _ => []
  | BinaryOpNode _ left_ right_ _ => numbers_of left_ ++ numbers_of right_
  | UnaryOpNode _ child _ => numbers_of child
  | FuncCallNode _ args _ => flat_map numbers_of args
  end.

(** A context without complex numbers: none among its constants, none
    returned by its functions for arguments that are not complex. *)
Definition real_context (context : EvaluatorContext) : Prop :=
  (∀ name v, constants context !! name = Some v → isinstance_complex v = false)
  ∧ (∀ id fun_ values v,
        functions context !! id = Some fun_ →
        Forall (λ a, isinstance_complex a = false) values →
        call fun_ values = Ok v → isinstance_complex v = false).

(** The characters at which the loop of [tokenize] raises: those that none
    of its branches takes.  parser.py:125-141 *)
Definition is_invalid_character (U : Unicode) (ch : char) : bool :=
  negb (is_op ch || bool_decide ([ch] ∈ VALID_SEPARATORS))
  && negb (bool_decide ([ch] = Separators.SEP_LEFT_BRACKET))
  && negb (bool_decide ([ch] = Separators.SEP_RIGHT_BRACKET))
  && negb (bool_decide ([ch] = Separators.SEP_DOT) || isnumeric U ch)
  && negb (bool_decide (ch = 32%N))
  && negb (is_name_char U ch).

(** The slips of [read_number] at an index where a number starts: the call
    ends with a builtin exception, the [IndexError] of [exp[i]] past the end
    after an exponent mark or the [ValueError] of [int] or [float]. *)
Definition number_scan_slips (U : Unicode) (exp : str) (start : nat) : Prop :=
  (∃ ch, exp !! start = Some ch
         ∧ ([ch] = Separators.SEP_DOT ∨ isnumeric U ch = true))
  ∧ ∃ token_list kind msg,
      read_number U exp start token_list = Raise (Builtin kind msg).

(** The indices at which the loop of [tokenize] calls [read_number], in
    their order, up to the call or the character at which the loop stops:
    the passes of [tokenize_loop] without the token list, which decides
    nothing.  parser.py:121-143 *)
Fixpoint number_scans_loop (U : Unicode) (exp : str) (fuel : nat) (i : nat) : list nat :=
  match exp !! i with
  | None => []
  | Some ch =>
    match fuel with
    | O => []
    | S fuel =>
      if is_op ch || bool_decide ([ch] ∈ VALID_SEPARATORS) then
        number_scans_loop U exp fuel (i + 1)
      else if bool_decide ([ch] = Separators.SEP_LEFT_BRACKET) then
        number_scans_loop U exp fuel (i + 1)
      else if bool_decide ([ch] = Separators.SEP_RIGHT_BRACKET) then
        number_scans_loop U exp fuel (i + 1)
      else if bool_decide ([ch] = Separators.SEP_DOT) || isnumeric U ch then
        i :: match read_number U exp i [] with
             | Ok (j, _) => number_scans_loop U exp fuel j
             | _ => []
             end
      else if bool_decide (ch = 32%N) then
        number_scans_loop U exp fuel (i + 1)
      else if is_name_char U ch then
        match read_name U exp i [] with
        | Ok (j, _) => number_scans_loop U exp fuel j
        | _ => []
        end
      else []
    end
  end.

Definition number_scans (U : Unicode) (exp : str) : list nat :=
  number_scans_loop U exp (length exp) 0.

(** The priority that [is_higher_or_equal_op_priority] gives an operator:
    that of its entry in the table, and 0 without one. *)
Definition priority_in (table : gmap str OperatorInfo) (op : str) : Z :=
  match table !! op with
  | None => 0
  | Some oi => priority oi
  end.

(** The place of a token in the string: its position is the index of its
    first character. *)
Definition token_starts_at (U : Unicode) (exp : str) (token : Token) : Prop :=
  match token with
  | TokenSymbol symbol pos => ∃ ch, exp !! pos = Some ch ∧ symbol = [ch]
  | TokenOpenBracket pos => exp !! pos = Some 40%N
  | TokenCloseBracket pos => exp !! pos = Some 41%N
  | TokenNumber _ pos =>
    ∃ ch, exp !! pos = Some ch ∧ ([ch] = Separators.SEP_DOT ∨ isnumeric U ch = true)
  | TokenName name pos =>
    ∃ j, name = slice exp pos j ∧ (pos < j ≤ length exp)%nat
  end.

(** What [build_expression_tree] raises: a builtin exception, or a
    [ParsingException] with the position of a token of the list, which is an
    open bracket for the message "unmatch '('" and a name for the message
    "unclose func call". *)
Definition error_at_token (token_list : list Token) (e : exn) : Prop :=
  match e with
  | ParsingException msg pos =>
    ∃ token, token ∈ token_list
             ∧ pos = Z.of_nat (token_pos token)
             ∧ (msg = py "unmatch '('" → is_open_bracket token = true)
             ∧ (msg = py "unclose func call" → ∃ name p, token = TokenName name p)
  | Builtin _ _ => True
  | EvaluationException _ _ => False
  end.

Definition raises_at_token {A} (token_list : list Token) (r : result A) : Prop :=
  ∀ e, r = Raise e → error_at_token token_list e.

(** A result of a parsing function called at [index]: the bound on the
    recursion was enough, and the index that is returned is not before
    [index]. *)
Definition advances {A} (proj : A → nat) (index : nat) (r : result A) : Prop :=
  r ≠ OutOfFuel ∧ ∀ a, r = Ok a → (index ≤ proj a)%nat.

(** ** What the properties are stated with *)

(** What a token list and a tree say, without positions, brackets and
    commas: the numbers, the names and the operator symbols. *)
Inductive item : Set :=
| ItemNumber (num : value)
| ItemName (name : str)
| ItemSymbol (symbol : str).

Definition token_items (token : Token) : list item :=
  match token with
  | TokenNumber num _ => [ItemNumber num]
  | TokenName name _ => [ItemName name]
  | TokenSymbol symbol _ =>
    if bool_decide (symbol = Separators.SEP_COMMA) then [] else [ItemSymbol symbol]
  | TokenOpenBracket _ | TokenCloseBracket _ => []
  end.

(** The items of a tree from left to right: a postfix operator after its
    operand, any other unary operator before it, the name of a call before
    its arguments. *)
Fixpoint node_items (node : ExpNode) : list item :=
  match node with
  | NumberNode num _ => [ItemNumber num]
  | NameConstantNode name _ => [ItemName name]
  | BinaryOpNode op left_ right_ _ =>
    node_items left_ ++ ItemSymbol op :: node_items right_
  | UnaryOpNode op child _ =>
    if unary_affix_is op POSTFIX then node_items child ++ [ItemSymbol op]
    else ItemSymbol op :: node_items child
  | FuncCallNode id args _ => ItemName id :: flat_map node_items args
  end.

(** The operators of the tree are those of the tables. *)
Fixpoint operators_known (node : ExpNode) : bool :=
  match node with
  | NumberNode _ _ | NameConstantNode _ _ => true
  | BinaryOpNode op left_ right_ _ =>
    contains BINOP_TABLE op && operators_known left_ && operators_known right_
  | UnaryOpNode op child _ => is_unary_op op && operators_known child
  | FuncCallNode _ args _ => forallb operators_known args
  end.

(** The items of the tokens from [index] up to [i]. *)
Definition span (token_list : list Token) (index i : nat) : list item :=
  flat_map token_items (slice token_list index i).

Definition shape (token_list : list Token) (index : nat) (r : result (ExpNode * nat))
  : Prop :=
  ∀ node i, r = Ok (node, i) →
    (index ≤ i)%nat
    ∧ node_items node = span token_list index i
    ∧ operators_known node = true.

(** The operators of the tree have a function in the tables of the
    evaluator. *)
Fixpoint operators_supported (L : Libm) (node : ExpNode) : bool :=
  match node with
  | NumberNode _ _ | NameConstantNode _ _ => true
  | BinaryOpNode op left_ right_ _ =>
    bool_decide (is_Some (OP_FUNCTIONS_BINARY L !! op))
    && operators_supported L left_ && operators_supported L right_
  | UnaryOpNode op child _ =>
    bool_decide (is_Some (OP_FUNCTIONS_UNARY !! op)) && operators_supported L child
  | FuncCallNode _ args _ => forallb (operators_supported L) args
  end.

(** The tokens of a list in the order of the string: a token that comes
    later has a greater position. *)
Definition in_source_order (tokens : list Token) : Prop :=
  ∀ a b ta tb,
    tokens !! a = Some ta → tokens !! b = Some tb → (a < b)%nat →
    (token_pos ta < token_pos tb)%nat.

(** A name token as [read_name] cuts it out of the string: the longest run
    of name characters from its position, which starts with a character that
    is not numeric. *)
Definition name_run (U : Unicode) (exp : str) (token : Token) : Prop :=
  match token with
  | TokenName name pos =>
    ∃ j, name = slice exp pos j ∧ (pos < j ≤ length exp)%nat
         ∧ Forall (λ ch, is_name_char U ch = true) name
         ∧ (∀ ch, exp !! j = Some ch → is_name_char U ch = false)
         ∧ (∀ ch, exp !! pos = Some ch → isnumeric U ch = false)
  | _ => True
  end.

(** A token after which an operand has to follow: an open bracket or the
    symbol of a binary operator. *)
Definition expects_operand (token : Token) : bool :=
  match token with
  | TokenOpenBracket _ => true
  | TokenSymbol symbol _ => contains BINOP_TABLE symbol
  | _ => false
  end.

(** A token list that is empty or ends where an operand has to follow. *)
Definition ends_early (token_list : list Token) : bool :=
  match last token_list with
  | None => true
  | Some token => expects_operand token
  end.

(** The builtin exceptions of a parsing function are [IndexError]s, and
    there is none unless the token list ends early. *)
Definition index_error_only {A} (token_list : list Token) (r : result A) : Prop :=
  ∀ kind msg, r = Raise (Builtin kind msg) →
    kind = IndexError ∧ msg = None ∧ ends_early token_list = true.

(** [r'] is the outcome [r], when [r] is one: what a call with more fuel
    gives after a call that had enough. *)
Definition settled {A} (r r' : result A) : Prop := r ≠ OutOfFuel → r' = r.

(** A token at which [read_exp_chain] ends an expression: a close bracket
    or a comma. *)
Definition stop_token (token : Token) : bool :=
  is_close_bracket token || is_comma token.

(** The index that a parsing function returns is within the token list. *)
Definition upper (token_list : list Token) (r : result (ExpNode * nat)) : Prop :=
  ∀ node i, r = Ok (node, i) → (i ≤ length token_list)%nat.

(** [r'] is the result [r] with its index moved by [k]: what a parsing
    function returns for a token list that stands behind [k] other tokens. *)
Definition in_context (k : nat) (r r' : result (ExpNode * nat)) : Prop :=
  ∀ node i, r = Ok (node, i) → r' = Ok (node, (k + i)%nat).

(** The tokens of the arguments of a call after the first: each behind its
    comma. *)
Definition more_arguments (rest : list (nat * list Token)) : list Token :=
  flat_map (λ arg, TokenSymbol Separators.SEP_COMMA arg.1 :: arg.2) rest.

(** The characters of the ASCII digits [ds]. *)
Definition ascii_digits (ds : list Z) : str := map (λ d, Z.to_N (48 + d)) ds.

(** The value of a tree of integers in exact arithmetic: integer literals
    under [+], [-], [×], [%] with a divisor that is not zero, [^] with an
    exponent that is not negative, the unary [+] and [-], and the factorial
    of a number that is not negative and not above [LONG_MAX].  Any other
    tree has none. *)
Fixpoint integer_value (node : ExpNode) : option Z :=
  match node with
  | NumberNode (PyInt n) _ => Some n
  | BinaryOpNode op left_ right_ _ =>
    m ← integer_value left_;
    n ← integer_value right_;
    if bool_decide (op = BinaryOperators.OP_ADD) then Some (m + n)
    else if bool_decide (op = BinaryOperators.OP_MINUS) then Some (m - n)
    else if bool_decide (op = BinaryOperators.OP_MULTIPLY) then Some (m * n)
    else if bool_decide (op = BinaryOperators.OP_MOD) then
      if n =? 0 then None else Some (m mod n)
    else if bool_decide (op = BinaryOperators.OP_POWER) then
      if 0 <=? n then Some (m ^ n) else None
    else None
  | UnaryOpNode op child _ =>
    n ← integer_value child;
    if bool_decide (op = UnaryOperators.OP_POSITIVE) then Some n
    else if bool_decide (op = UnaryOperators.OP_NEGATIVE) then Some (- n)
    else if bool_decide (op = UnaryOperators.OP_FACTORIAL) then
      if (n <? 0) || (LONG_MAX <? n) then None else Some (Z_factorial n)
    else None
  | _ => None
  end.

(** * The runtime of the calculator (calculator/ui/runtime.py)

    The state machine behind the keys: the model with the two lines of the
    display, the stack of states of the input and the count of the open
    brackets, and the handlers of the keys.  A handler is a function from the
    object before the call to the object after it.  The widgets, the tables
    of the keys and [formatNumber], which prints a float, are not part of
    it. *)

Definition ZERO : str := [48%N].   (* '0' *)
Definition DOT : str := [46%N].    (* '.' *)

(** [seq[start:stop]] with the bounds of the interpreter: a bound that is
    negative counts from the end, both are cut to the length, and without a
    bound the slice starts at 0 or stops at the end. *)
Definition py_slice {A} (seq : list A) (start stop : option Z) : list A :=
  let len := Z.of_nat (length seq) in
  let bound (b : Z) : Z :=
    let b := if b <? 0 then len + b else b in
    Z.max 0 (Z.min len b) in
  let a := match start with None => 0 | Some b => bound b end in
  let b := match stop with None => len | Some b => bound b end in
  take (Z.to_nat (b - a)) (drop (Z.to_nat a) seq).

(** [s.isnumeric()]: every character is numeric and there is one at least. *)
Definition str_isnumeric (U : Unicode) (s : str) : bool :=
  negb (bool_decide (s = [])) && forallb (isnumeric U) s.

(** The word characters of a pattern on [str]: the alphanumeric characters
    and the underscore.  (A decimal or a digit character is numeric.) *)
Definition re_word (U : Unicode) (ch : char) : bool :=
  isalpha U ch || isnumeric U ch || (ch =? 95)%N.

(** [.+\)] at the start of [s], after [n] characters taken by [.+]: one
    character or more that are no line feeds, and a close bracket. *)
Fixpoint re_dots_bracket (s : str) (n : nat) : bool :=
  match s with
  | [] => false
  | ch :: s' =>
    negb (ch =? 10)%N && re_dots_bracket s' (S n)
    || (0 <? n)%nat && (ch =? 41)%N
  end.

(** [(\w+)\(.+\)] at the start of [s], after [n] characters taken by the
    group: the length of the group of the match, the longest first. *)
Fixpoint re_word_bracket (U : Unicode) (s : str) (n : nat) : option nat :=
  match s with
  | [] => None
  | ch :: s' =>
    let here :=
      if (0 <? n)%nat && (ch =? 40)%N && re_dots_bracket s' 0 then Some n else None in
    if re_word U ch then
      match re_word_bracket U s' (S n) with
      | Some m => Some m
      | None => here
      end
    else here
  end.

(** runtime.py:42-51 *)
Definition checkFunc (U : Unicode) (content : str) : str :=
  match re_word_bracket U content 0 with
  | Some m => take m content
  | None => []
  end.

(** runtime.py:226-240 *)
Inductive StdRTStates : Set :=
| ANY | BINOP | PREOP | POSTOP | FUNC | L_BRACKET | R_BRACKET | CONST | EVAL | ERROR.

Global Instance StdRTStates_eq_dec : EqDecision StdRTStates.
Proof. solve_decision. Defined.

(** runtime.py:135-223.  [modelChange] counts the calls of
    [_triggerChangeSignal], which emits the two signals of the model. *)
Module CalculatorRuntimeModel.

Record t : Set := {
  hint : str;
  input : str;
  modelChange : nat
}.

Definition new : t := {| hint := []; input := ZERO; modelChange := 0 |}.

Definition _triggerChangeSignal (self : t) : t :=
  {| hint := hint self; input := input self; modelChange := S (modelChange self) |}.

Definition set_hint (value : str) (self : t) : t :=
  if bool_decide (value ≠ hint self) then
    _triggerChangeSignal
      {| hint := value; input := input self; modelChange := modelChange self |}
  else self.

Definition set_input (value : str) (self : t) : t :=
  if bool_decide (value ≠ input self) then
    _triggerChangeSignal
      {| hint := hint self; input := value; modelChange := modelChange self |}
  else self.

Definition reset (noSignal : bool) (self : t) : t :=
  let hasChange := false in
  let '(input_, hasChange) :=
    if bool_decide (input self ≠ ZERO) then (ZERO, true) else (input self, hasChange) in
  let '(hint_, hasChange) :=
    if bool_decide (hint self ≠ []) then ([], true) else (hint self, hasChange) in
  let self := {| hint := hint_; input := input_; modelChange := modelChange self |} in
  if negb noSignal && hasChange then _triggerChangeSignal self else self.

Definition update (input_ hint_ : str) (self : t) : t :=
  let hasChange := false in
  let '(input', hasChange) :=
    if bool_decide (input self ≠ input_) then (input_, true) else (input self, hasChange) in
  let '(hint', hasChange) :=
    if bool_decide (hint self ≠ hint_) then (hint_, true) else (hint self, hasChange) in
  let self := {| hint := hint'; input := input'; modelChange := modelChange self |} in
  if hasChange then _triggerChangeSignal self else self.

(** A call that emits the signal of the model once when it changes a line
    of the display, and not at all when it changes none. *)
Definition emits_on_change (f : t → t) : Prop :=
  ∀ self,
    modelChange (f self)
    = if bool_decide (hint (f self) = hint self ∧ input (f self) = input self)
      then modelChange self else S (modelChange self).

End CalculatorRuntimeModel.

(** runtime.py:242-609 *)
Module CalculatorRuntimeStandard.

Record t : Set := {
  model : CalculatorRuntimeModel.t;
  _stateStack : list StdRTStates;
  _uncloseBrackets : Z
}.

(** runtime.py:247-258 and 79-80 *)
Definition new : t :=
  {| model := CalculatorRuntimeModel.new; _stateStack := [ANY]; _uncloseBrackets := 0 |}.

Definition with_model (f : CalculatorRuntimeModel.t → CalculatorRuntimeModel.t) (self : t)
  : t :=
  {| model := f (model self);
     _stateStack := _stateStack self;
     _uncloseBrackets := _uncloseBrackets self |}.

Definition with_stateStack (stack : list StdRTStates) (self : t) : t :=
  {| model := model self; _stateStack := stack;
     _uncloseBrackets := _uncloseBrackets self |}.

Definition with_uncloseBrackets (n : Z) (self : t) : t :=
  {| model := model self; _stateStack := _stateStack self; _uncloseBrackets := n |}.

Definition hint (self : t) : str := CalculatorRuntimeModel.hint (model self).
Definition input (self : t) : str := CalculatorRuntimeModel.input (model self).

(** *** state management *)

(** runtime.py:280-284 *)
Definition _peekState (self : t) : result StdRTStates :=
  py_index (_stateStack self) (-1).

(** runtime.py:323-327 *)
Definition _resetState (self : t) : t := with_stateStack [ANY] self.

(** runtime.py:262-278 *)
Definition _setState (code : StdRTStates) (self : t) : result t :=
  let self :=
    if bool_decide (code ∈ [EVAL; ERROR; BINOP]) then _resetState self else self in
  differs ← (if bool_decide (code ≠ ANY) then Ok true
             else top ← _peekState self; Ok (bool_decide (code ≠ top)));
  if differs : bool then
    if bool_decide (code = BINOP) then
      Ok (with_stateStack (_stateStack self ++ [code]) self)
    else
      top ← _peekState self;
      let self :=
        if bool_decide (top = BINOP)
        then with_stateStack (_stateStack self ++ [ANY]) self
        else self in
      Ok (with_stateStack (_stateStack self ++ [code]) self)
  else Ok self.

(** runtime.py:286-290 *)
Definition _matchState (codes : list StdRTStates) (self : t) : result bool :=
  top ← _peekState self;
  Ok (bool_decide (top ∈ codes)).

(** runtime.py:292-300 *)
Definition _popState (self : t) : result (StdRTStates * t) :=
  if (1 <? length (_stateStack self))%nat then
    top ← py_index (_stateStack self) (-1);
    Ok (top, with_stateStack (removelast (_stateStack self)) self)
  else
    top ← _peekState self;
    Ok (top, self).

(** The loop of [_popTopMostState], which leaves [i] as it is: [fuel] bounds
    its passes.  runtime.py:310-319 *)
Fixpoint _popTopMostState_loop (fuel : nat) (code : StdRTStates)
    (stack : list StdRTStates) (i : nat) : result (bool * list StdRTStates) :=
  if (1 <? i)%nat then
    match fuel with
    | O => OutOfFuel
    | S fuel =>
      state ← getitem stack i;
      if bool_decide (state = code) then
        let stack := delete i stack in
        stack ←
          (if (i <? length stack)%nat then
             (* merge neighbour ANYOPs *)
             here ← getitem stack i;
             both ← (if bool_decide (here = ANY) then
                       before ← getitem stack (i - 1); Ok (bool_decide (before = ANY))
                     else Ok false);
             if both : bool then Ok (delete i stack) else Ok stack
           else Ok stack);
        Ok (true, stack)
      else _popTopMostState_loop fuel code stack i
    end
  else Ok (false, stack).

(** runtime.py:302-321 *)
Definition _popTopMostState (fuel : nat) (code : StdRTStates) (self : t)
  : result (bool * t) :=
  let stack := _stateStack self in
  if (1 <? length stack)%nat then
    '(found, stack) ← _popTopMostState_loop fuel code stack (length stack - 1);
    Ok (found, with_stateStack stack self)
  else Ok (false, self).

(** *** state query *)

(** runtime.py:376-380 *)
Definition justEvaluated (self : t) : result bool :=
  top ← _peekState self; Ok (bool_decide (top = EVAL)).

Definition isError (self : t) : result bool :=
  top ← _peekState self; Ok (bool_decide (top = ERROR)).

(** runtime.py:329-338 *)
Definition _clearEval (self : t) : result t :=
  evaluated ← justEvaluated self;
  if evaluated : bool then
    let self := with_model (CalculatorRuntimeModel.set_hint []) self in
    '(_, self) ← _popState self;
    Ok self
  else Ok self.

(** runtime.py:340-350 *)
Definition _clearInput (self : t) : t :=
  let self :=
    fold_left
      (λ self s,
         if bool_decide (s = R_BRACKET)
         then with_uncloseBrackets (_uncloseBrackets self + 1) self
         else self)
      (_stateStack self) self in
  let self := with_model (CalculatorRuntimeModel.set_input ZERO) self in
  _resetState self.

(** runtime.py:352-355 *)
Definition reset (self : t) : t :=
  let self := with_model (CalculatorRuntimeModel.reset false) self in
  let self := _resetState self in
  with_uncloseBrackets 0 self.

(** runtime.py:359-362 *)
Definition _canChangeNumber (self : t) : result bool :=
  negb <$> _matchState [POSTOP; FUNC; CONST; R_BRACKET; POSTOP] self.

(** runtime.py:364-374 *)
Definition _canEvaluate (self : t) : result bool :=
  closed ← _matchState [EVAL; ERROR] self;
  if closed : bool then Ok false
  else if bool_decide (hint self ≠ []) then Ok true
  else
    Ok (existsb (λ s, bool_decide (s ≠ ANY) && bool_decide (s ≠ PREOP))
          (reverse (_stateStack self))).

(** *** handles *)

Section Handles.
Variable U : Unicode.

(** runtime.py:384-385 *)
Definition _clearHandle (self : t) : result t := Ok (reset self).

(** runtime.py:387-391 *)
Definition _inputClearHandle (self : t) : result t :=
  evaluated ← justEvaluated self;
  if evaluated : bool then Ok (reset self) else Ok (_clearInput self).

(** runtime.py:393-428 *)
Definition _eraseHandle (self : t) : result t :=
  let current := input self in
  state ← _peekState self;
  error ← isError self;
  if error : bool then Ok (reset self)
  else if bool_decide (state = FUNC) then
    (* remove the outest function call *)
    let funcName := checkFunc U current in
    let current := py_slice current (Some (Z.of_nat (length funcName) + 1)) (Some (-1)) in
    let self := with_model (CalculatorRuntimeModel.set_input current) self in
    '(_, self) ← _popState self; Ok self
  else if bool_decide (state = PREOP) then
    let self :=
      with_model (CalculatorRuntimeModel.set_input (py_slice current (Some 1) None)) self in
    '(_, self) ← _popState self; Ok self
  else if bool_decide (state = POSTOP) then
    let self :=
      with_model (CalculatorRuntimeModel.set_input (py_slice current None (Some (-1)))) self in
    '(_, self) ← _popState self; Ok self
  else if bool_decide (state = R_BRACKET) then
    let self :=
      with_model (CalculatorRuntimeModel.set_input (py_slice current None (Some (-1)))) self in
    '(_, self) ← _popState self;
    Ok (with_uncloseBrackets (_uncloseBrackets self + 1) self)
  else
    self ← _clearEval self;
    if (1 <? length current)%nat then
      let current := py_slice current None (Some (-1)) in
      (* if the only lefted char is not number, clear anyway *)
      let current :=
        if bool_decide (length current = 1%nat) && negb (str_isnumeric U current)
        then ZERO else current in
      let self := with_model (CalculatorRuntimeModel.set_input current) self in
      _setState ANY self
    else
      let self := with_model (CalculatorRuntimeModel.set_input ZERO) self in
      _setState ANY self.

(** runtime.py:430-446 *)
Definition _numberHandle (number : str) (self : t) : result t :=
  can ← _canChangeNumber self;
  if can : bool then
    evaluated ← justEvaluated self;
    fresh ← (if evaluated : bool then Ok true else isError self);
    let self :=
      if fresh : bool then with_model (CalculatorRuntimeModel.update number []) self
      else if bool_decide (number = ZERO) then
        if bool_decide (input self ≠ ZERO)
        then with_model (CalculatorRuntimeModel.set_input (input self ++ ZERO)) self
        else self
      else if bool_decide (input self = ZERO)
      then with_model (CalculatorRuntimeModel.set_input number) self
      else with_model (CalculatorRuntimeModel.set_input (input self ++ number)) self in
    _setState ANY self
  else Ok self.

(** runtime.py:457-465 *)
Definition _dotHandle (self : t) : result t :=
  error ← isError self;
  can ← (if error : bool then Ok false else _canChangeNumber self);
  if can : bool then
    evaluated ← justEvaluated self;
    self ← (if evaluated : bool then
              _setState ANY
                (with_model (CalculatorRuntimeModel.update (py "0.") []) self)
            else Ok self);
    if negb (bool_decide (46%N ∈ input self)) then
      _setState ANY
        (with_model (CalculatorRuntimeModel.set_input (input self ++ DOT)) self)
    else Ok self
  else Ok self.

(** runtime.py:467-475 *)
Definition _constantHandle (name : str) (self : t) : result t :=
  (* constant will replace current input *)
  error ← isError self;
  clear ← (if error : bool then Ok true else justEvaluated self);
  let self := if clear : bool then reset self else _clearInput self in
  _setState CONST (with_model (CalculatorRuntimeModel.set_input name) self).

(** runtime.py:484-497 *)
Definition _binaryOpHandle (op : str) (self : t) : result t :=
  error ← isError self;
  if error : bool then Ok self
  else
    top ← _peekState self;
    if bool_decide (top = BINOP) then
      (* if the immediate previous operation is also BINOP, replace it *)
      Ok (with_model
            (CalculatorRuntimeModel.set_hint (py_slice (hint self) None (Some (-1)) ++ op))
            self)
    else
      evaluated ← justEvaluated self;
      let self :=
        if evaluated : bool then
          with_model (CalculatorRuntimeModel.update ZERO (input self ++ py " " ++ op)) self
        else
          (* perform simple formatting *)
          let hint_ :=
            if bool_decide (last (hint self) = Some 40%N) then hint self
            else hint self ++ py " " in
          with_model
            (CalculatorRuntimeModel.update ZERO (hint_ ++ input self ++ py " " ++ op)) self in
      _setState BINOP self.

(** runtime.py:510-523; [fuel] bounds the loop of [_popTopMostState]. *)
Definition _negetHandle (fuel : nat) (self : t) : result t :=
  error ← isError self;
  if error : bool then Ok self
  else
    self ← _clearEval self;
    if bool_decide (input self ≠ ZERO) then
      (* toggle '-' operator on/off *)
      first ← py_index (input self) 0;
      if bool_decide (first = 45%N) then
        let self :=
          with_model
            (CalculatorRuntimeModel.set_input (py_slice (input self) (Some 1) None)) self in
        '(_, self) ← _popTopMostState fuel PREOP self;
        Ok self
      else
        _setState PREOP
          (with_model (CalculatorRuntimeModel.set_input (py "-" ++ input self)) self)
    else Ok self.

(** runtime.py:525-530 *)
Definition _factorialHandle (self : t) : result t :=
  error ← isError self;
  go ← (if error : bool then Ok false
        else top ← _peekState self; Ok (bool_decide (top ≠ POSTOP)));
  if go : bool then
    self ← _clearEval self;
    _setState POSTOP
      (with_model (CalculatorRuntimeModel.set_input (input self ++ py "!")) self)
  else Ok self.

(** runtime.py:532-539 *)
Definition _unaryFuncHandle (func : str) (self : t) : result t :=
  error ← isError self;
  go ← (if error : bool then Ok false
        else top ← _peekState self; Ok (bool_decide (top ≠ R_BRACKET)));
  if go : bool then
    self ← _clearEval self;
    _setState FUNC
      (with_model
         (CalculatorRuntimeModel.set_input (func ++ py "(" ++ input self ++ py ")")) self)
  else Ok self.

(** runtime.py:551-564 *)
Definition _leftBracketHandle (self : t) : result t :=
  error ← isError self;
  if error : bool then Ok self
  else
    self ← _clearEval self;
    (* left bracket won't appear in input, append it to hint directly *)
    self ← (if bool_decide (hint self = []) then
              Ok (with_model (CalculatorRuntimeModel.set_hint (py "(")) self)
            else
              let self :=
                with_model (CalculatorRuntimeModel.set_hint (hint self ++ py " (")) self in
              top ← _peekState self;
              if bool_decide (top = BINOP) then '(_, self) ← _popState self; Ok self
              else Ok self);
    Ok (with_uncloseBrackets (_uncloseBrackets self + 1) self).

(** runtime.py:566-571 *)
Definition _rightBracketHandle (self : t) : result t :=
  if 0 <? _uncloseBrackets self then
    let self := with_model (CalculatorRuntimeModel.set_input (input self ++ py ")")) self in
    let self := with_uncloseBrackets (_uncloseBrackets self - 1) self in
    _setState R_BRACKET self
  else Ok self.

(** The evaluator of the runtime and [formatNumber], which is given the
    value and the two precisions and may raise. *)
Variable L : Libm.
Variable context : EvaluatorContext.
Variable formatNumber : value → Z → Z → result str.

(** The [except] clause of [evaluate]: the line of the error.
    runtime.py:596-604 *)
Definition error_line (err : exn) : str :=
  match err with
  | EvaluationException _ (Some (ZeroDivisionError, _)) => py "ERROR: Zero Division"
  | EvaluationException _ (Some (ValueError, _)) => py "ERROR: Invalid Input"
  | _ => py "ERROR"
  end.

(** runtime.py:573-608.  What the [try] block changes, it changes after the
    calls of the evaluator and of [formatNumber], and the message that is
    written to the standard output is left out. *)
Definition evaluate (self : t) : result t :=
  can ← _canEvaluate self;
  if can : bool then
    let expr :=
      if bool_decide (hint self = []) then input self
      else hint self ++ py " " ++ input self in
    (* complement unmatched left brackets *)
    let expr :=
      if 0 <? _uncloseBrackets self
      then expr ++ replicate (Z.to_nat (_uncloseBrackets self)) 41%N
      else expr in
    let attempt :=
      output ← evaluate L context U (inl expr);
      line ← formatNumber output 16 12;
      _setState EVAL
        (with_model (CalculatorRuntimeModel.update line (expr ++ py " =")) self) in
    self ← match attempt with
           | Ok self => Ok self
           | Raise err =>
             _setState ERROR
               (with_model (CalculatorRuntimeModel.update (error_line err) []) self)
           | OutOfFuel => OutOfFuel
           end;
    Ok (with_uncloseBrackets 0 self)
  else Ok self.

End Handles.

(** The stack of states has [ANY] at its bottom, and no more brackets are
    closed than were opened. *)
Definition well_formed (self : t) : Prop :=
  (∃ rest, _stateStack self = ANY :: rest) ∧ 0 ≤ _uncloseBrackets self.

(** The keys of the two keyboards, as the callbacks of [getKeyboard] and the
    key map have them.  runtime.py:646-697 and 706-803 *)
Inductive key : Set :=
| KeyClear                     (* AC *)
| KeyInputClear                (* C *)
| KeyErase                     (* DEL *)
| KeyNumber (number : str)
| KeyDot
| KeyConstant (name : str)
| KeyBinaryOp (op : str)
| KeyNeget                     (* +/- *)
| KeyFactorial
| KeyUnaryFunc (func : str)
| KeyLeftBracket
| KeyRightBracket
| KeyEvaluate.                 (* = *)

(** The call of the callback of a key. *)
Definition press (U : Unicode) (L : Libm) (context : EvaluatorContext)
    (formatNumber : value → Z → Z → result str) (fuel : nat) (k : key) (self : t)
  : result t :=
  match k with
  | KeyClear => _clearHandle self
  | KeyInputClear => _inputClearHandle self
  | KeyErase => _eraseHandle U self
  | KeyNumber number => _numberHandle number self
  | KeyDot => _dotHandle self
  | KeyConstant name => _constantHandle name self
  | KeyBinaryOp op => _binaryOpHandle op self
  | KeyNeget => _negetHandle fuel self
  | KeyFactorial => _factorialHandle self
  | KeyUnaryFunc func => _unaryFuncHandle func self
  | KeyLeftBracket => _leftBracketHandle self
  | KeyRightBracket => _rightBracketHandle self
  | KeyEvaluate => evaluate U L context formatNumber self
  end.

(** An input without a zero before its digits: ['0'] itself, or a string
    that does not start with the character ['0']. *)
Definition no_leading_zero (s : str) : Prop := s = ZERO ∨ head s ≠ Some 48%N.

(** Two objects that differ by the count of the signals at most. *)
Definition same_display (self self' : t) : Prop :=
  hint self = hint self' ∧ input self = input self'
  ∧ _stateStack self = _stateStack self'
  ∧ _uncloseBrackets self = _uncloseBrackets self'.

End CalculatorRuntimeStandard.

(** * Properties *)

Example py_literal : py "1 ÷ 2 × π" = [49; 32; 247; 32; 50; 32; 215; 32; 960]%N.
Proof. reflexivity. Qed.

(** ** Prefix operators *)

(** C10: a prefix operator takes the atom that follows it, not the binary
    expression that follows: whatever [read_exp] reads after the operator is
    its operand.  So "-2 ^ 2" is the power of (-2) and 2, and its value is 4,
    although the priority of the unary minus (5) is below that of the power
    (7). *)
Theorem prefix_operator_takes_next_atom :
  (∀ (token_list : list Token) (fuel index : nat) symbol pos node i,
      token_list !! index = Some (TokenSymbol symbol pos) →
      read_exp token_list fuel (index + 1) = Ok (node, i) →
      read_prefix_unary_exp token_list (S fuel) index
      = Ok (UnaryOpNode symbol node pos, i))
  ∧ parse_expression latin_greek (py "-2 ^ 2")
    = Ok (BinaryOpNode (py "^")
            (UnaryOpNode (py "-") (NumberNode (PyInt 2) 1) 0)
            (NumberNode (PyInt 2) 5) 3)
  ∧ (∀ L context, evaluate L context latin_greek (inl (py "-2 ^ 2")) = Ok (PyInt 4))
  ∧ priority <$> UNARYOP_TABLE !! py "-" = Some 5
  ∧ priority <$> BINOP_TABLE !! py "^" = Some 7.
Proof.
  split; [|repeat split; intros; vm_compute; reflexivity].
  intros token_list fuel index symbol pos node i Htok Hexp.
  cbn [read_prefix_unary_exp]. rewrite Hexp.
  unfold getitem. cbn. rewrite Htok. reflexivity.
Qed.

(** The operand of the minus of "- 2 ^ 2" is the number that [read_exp] reads
    at index 1. *)
Lemma prefix_operator_takes_next_atom_witness :
  read_prefix_unary_exp
    [TokenSymbol (py "-") 0; TokenNumber (PyInt 2) 1;
     TokenSymbol (py "^") 3; TokenNumber (PyInt 2) 5] 2 0
  = Ok (UnaryOpNode (py "-") (NumberNode (PyInt 2) 1) 0, 2%nat).
Proof.
  apply (proj1 prefix_operator_takes_next_atom); reflexivity.
Defined.

(** ** Postfix operators *)

(** C6: when a postfix operator follows an operand that is a unary node and
    its priority is not below that node's, the new unary node is put between
    the node and its operand and the node stays the root.  So "-3!" is
    -(3!), not (-3)!, and "2 + -3!" is -4. *)
Theorem postfix_operator_splices_below_unary :
  (∀ (token_list : list Token) index token symbol child_op child_child child_pos,
      token_list !! index = Some token →
      token_symbol token = Ok symbol →
      priority_in UNARYOP_TABLE child_op ≤ priority_in UNARYOP_TABLE symbol →
      read_postfix_unary_exp token_list index (UnaryOpNode child_op child_child child_pos)
      = Ok (UnaryOpNode child_op
              (UnaryOpNode symbol child_child (token_pos token)) child_pos,
            (index + 1)%nat))
  ∧ parse_expression latin_greek (py "-3!")
    = Ok (UnaryOpNode (py "-") (UnaryOpNode (py "!") (NumberNode (PyInt 3) 1) 2) 0)
  ∧ (∀ L context, evaluate L context latin_greek (inl (py "2 + -3!")) = Ok (PyInt (-4))).
Proof.
  split; [|split; intros; vm_compute; reflexivity].
  intros token_list index token symbol child_op child_child child_pos Htok Hsym Hprio.
  assert (Hprio' : is_higher_or_equal_op_priority symbol child_op UNARYOP_TABLE = true)
    by (apply Z.leb_le; exact Hprio).
  unfold read_postfix_unary_exp, getitem. rewrite Htok. cbn [mbind result_bind].
  rewrite Hsym. cbn [mbind result_bind]. rewrite Hprio'. reflexivity.
Qed.

(** The factorial of "-3!" (priority 6) against the node of the minus
    (priority 5). *)
Lemma postfix_operator_splices_below_unary_witness :
  read_postfix_unary_exp
    [TokenSymbol (py "-") 0; TokenNumber (PyInt 3) 1; TokenSymbol (py "!") 2] 2
    (UnaryOpNode (py "-") (NumberNode (PyInt 3) 1) 0)
  = Ok (UnaryOpNode (py "-") (UnaryOpNode (py "!") (NumberNode (PyInt 3) 1) 2) 0, 3%nat).
Proof.
  apply (proj1 postfix_operator_splices_below_unary
           [TokenSymbol (py "-") 0; TokenNumber (PyInt 3) 1; TokenSymbol (py "!") 2]
           2%nat (TokenSymbol (py "!") 2) (py "!") (py "-") (NumberNode (PyInt 3) 1) 0%nat);
    [reflexivity|reflexivity|vm_compute; discriminate].
Defined.

(** ** Chains of operators of one priority *)

Lemma binary_operators (op : str) (prio : Z) :
  priority <$> BINOP_TABLE !! op = Some prio →
  (op = BinaryOperators.OP_ADD ∨ op = BinaryOperators.OP_MINUS) ∧ prio = 5
  ∨ (op = BinaryOperators.OP_MULTIPLY ∨ op = BinaryOperators.OP_DIVIDE
     ∨ op = BinaryOperators.OP_MOD) ∧ prio = 6
  ∨ op = BinaryOperators.OP_POWER ∧ prio = 7.
Proof.
  destruct (BINOP_TABLE !! op) as [oi|] eqn:H; [|discriminate].
  cbn [fmap option_fmap option_map]. intros [= <-].
  unfold BINOP_TABLE in H. apply elem_of_list_to_map_2 in H.
  repeat (apply elem_of_cons in H as [H|H]; [injection H as -> ->; cbn [priority]; tauto|]).
  inversion H.
Qed.

(** A chain of three numbers with two operators of one priority is nested
    to the left. *)
Lemma chain_of_three_is_left_nested
    (a1 a2 a3 : value) (op1 op2 : str) (p1 q1 p2 q2 p3 : nat) (prio : Z) :
  priority <$> BINOP_TABLE !! op1 = Some prio →
  priority <$> BINOP_TABLE !! op2 = Some prio →
  build_expression_tree
    [TokenNumber a1 p1; TokenSymbol op1 q1; TokenNumber a2 p2;
     TokenSymbol op2 q2; TokenNumber a3 p3]
  = Ok (BinaryOpNode op2
          (BinaryOpNode op1 (NumberNode a1 p1) (NumberNode a2 p2) q1)
          (NumberNode a3 p3) q2).
Proof.
  intros H1 H2. apply binary_operators in H1, H2.
  destruct H1 as [[H1 ->]|[[H1 ->]|[H1 ->]]];
    destruct H2 as [[H2 ?]|[[H2 ?]|[H2 ?]]]; try discriminate;
    repeat match goal with H : _ ∨ _ |- _ => destruct H as [H|H] end; subst;
    vm_compute; reflexivity.
Qed.

(** C1 fails from four operands on: the rotation of [read_binary_exp] moves
    one operator only, so that of a chain of four numbers with three
    operators of one priority the last operator is the root and the two
    before it stay nested to the right, (a1 op1 (a2 op2 a3)) op3 a4, which is
    not the tree ((a1 op1 a2) op2 a3) op3 a4 of the claim.  "1 - 2 + 3 + 4"
    is read as (1 - (2 + 3)) + 4, which is 0 and not 6, and "1 ÷ 2 × 4 × 5"
    as (1 ÷ (2 × 4)) × 5, which is 0.625 and not 10.0. *)
Theorem chain_of_four_is_not_left_nested :
  (∀ (a1 a2 a3 a4 : value) (op1 op2 op3 : str) (p1 q1 p2 q2 p3 q3 p4 : nat) (prio : Z),
      priority <$> BINOP_TABLE !! op1 = Some prio →
      priority <$> BINOP_TABLE !! op2 = Some prio →
      priority <$> BINOP_TABLE !! op3 = Some prio →
      build_expression_tree
        [TokenNumber a1 p1; TokenSymbol op1 q1; TokenNumber a2 p2;
         TokenSymbol op2 q2; TokenNumber a3 p3; TokenSymbol op3 q3; TokenNumber a4 p4]
      = Ok (BinaryOpNode op3
              (BinaryOpNode op1 (NumberNode a1 p1)
                 (BinaryOpNode op2 (NumberNode a2 p2) (NumberNode a3 p3) q2) q1)
              (NumberNode a4 p4) q3)
      ∧ build_expression_tree
          [TokenNumber a1 p1; TokenSymbol op1 q1; TokenNumber a2 p2;
           TokenSymbol op2 q2; TokenNumber a3 p3; TokenSymbol op3 q3; TokenNumber a4 p4]
        ≠ Ok (BinaryOpNode op3
                (BinaryOpNode op2
                   (BinaryOpNode op1 (NumberNode a1 p1) (NumberNode a2 p2) q1)
                   (NumberNode a3 p3) q2)
                (NumberNode a4 p4) q3))
  ∧ parse_expression latin_greek (py "1 - 2 + 3 + 4")
    = Ok (BinaryOpNode (py "+")
            (BinaryOpNode (py "-") (NumberNode (PyInt 1) 0)
               (BinaryOpNode (py "+") (NumberNode (PyInt 2) 4) (NumberNode (PyInt 3) 8) 6)
               2)
            (NumberNode (PyInt 4) 12) 10)
  ∧ parse_expression latin_greek (py "1 ÷ 2 × 4 × 5")
    = Ok (BinaryOpNode (py "×")
            (BinaryOpNode (py "÷") (NumberNode (PyInt 1) 0)
               (BinaryOpNode (py "×") (NumberNode (PyInt 2) 4) (NumberNode (PyInt 4) 8) 6)
               2)
            (NumberNode (PyInt 5) 12) 10)
  ∧ (∀ L context,
        evaluate L context latin_greek (inl (py "1 - 2 + 3 + 4")) = Ok (PyInt 0)
        ∧ evaluate L context latin_greek (inl (py "1 ÷ 2 × 4 × 5")) = Ok (PyFloat 0.625)).
Proof.
  split; [|repeat split; intros; vm_compute; reflexivity].
  intros a1 a2 a3 a4 op1 op2 op3 p1 q1 p2 q2 p3 q3 p4 prio H1 H2 H3.
  assert (Htree : build_expression_tree
      [TokenNumber a1 p1; TokenSymbol op1 q1; TokenNumber a2 p2;
       TokenSymbol op2 q2; TokenNumber a3 p3; TokenSymbol op3 q3; TokenNumber a4 p4]
    = Ok (BinaryOpNode op3
            (BinaryOpNode op1 (NumberNode a1 p1)
               (BinaryOpNode op2 (NumberNode a2 p2) (NumberNode a3 p3) q2) q1)
            (NumberNode a4 p4) q3)).
  { apply binary_operators in H1, H2, H3.
    destruct H1 as [[H1 ->]|[[H1 ->]|[H1 ->]]];
      destruct H2 as [[H2 ?]|[[H2 ?]|[H2 ?]]]; try discriminate;
      destruct H3 as [[H3 ?]|[[H3 ?]|[H3 ?]]]; try discriminate;
      repeat match goal with H : _ ∨ _ |- _ => destruct H as [H|H] end; subst;
      vm_compute; reflexivity. }
  split; [exact Htree|]. rewrite Htree. discriminate.
Qed.

(** "1 - 2 + 3 + 4" as its tokens. *)
Lemma chain_of_four_is_not_left_nested_witness :
  build_expression_tree
    [TokenNumber (PyInt 1) 0; TokenSymbol (py "-") 2; TokenNumber (PyInt 2) 4;
     TokenSymbol (py "+") 6; TokenNumber (PyInt 3) 8; TokenSymbol (py "+") 10;
     TokenNumber (PyInt 4) 12]
  ≠ Ok (BinaryOpNode (py "+")
          (BinaryOpNode (py "+")
             (BinaryOpNode (py "-") (NumberNode (PyInt 1) 0) (NumberNode (PyInt 2) 4) 2)
             (NumberNode (PyInt 3) 8) 6)
          (NumberNode (PyInt 4) 12) 10).
Proof.
  apply (proj1 chain_of_four_is_not_left_nested
           (PyInt 1) (PyInt 2) (PyInt 3) (PyInt 4) (py "-") (py "+") (py "+")
           0%nat 2%nat 4%nat 6%nat 8%nat 10%nat 12%nat 5);
    vm_compute; reflexivity.
Defined.

(** ** Chains of operators of several priorities *)

(** C7 holds at the three inputs it names and fails as a rule: priority and
    brackets do not govern the trees of longer expressions.
    [read_binary_exp] compares an operator with the root of the chain to its
    right only, and rotates once.  So of three operators between four
    numbers, of which the last has no higher priority than the second and
    the second a lower priority than the first, the last is the root and the
    second stays below the first, (a1 op1 (a2 op2 a3)) op3 a4, which is not
    the tree ((a1 op1 a2) op2 a3) op3 a4 that the priorities ask for:
    "2 × 3 + 4 + 5" is read as (2 × (3 + 4)) + 5, which is 19 and not 15.
    And a right operand that starts with a bracket is never rotated, so that
    what follows the bracket goes below the operator before it, whatever the
    priorities are, a1 op1 ((a2 op2 a3) op3 a4): "3 × (1 + 2) + 4" is read
    as 3 × ((1 + 2) + 4), which is 21 and not 13. *)
Theorem priority_and_brackets_fail_in_longer_chains :
  (∀ L context,
      evaluate L context latin_greek (inl (py "1 + 2 × 3")) = Ok (PyInt 7)
      ∧ evaluate L context latin_greek (inl (py "(1 + 2) × 3")) = Ok (PyInt 9)
      ∧ evaluate L context latin_greek (inl (py "1 ÷ 2 × 4")) = Ok (PyFloat 2))
  ∧ (∀ (a1 a2 a3 a4 : value) (op1 op2 op3 : str) (p1 q1 p2 q2 p3 q3 p4 : nat)
       (prio1 prio2 prio3 : Z),
        priority <$> BINOP_TABLE !! op1 = Some prio1 →
        priority <$> BINOP_TABLE !! op2 = Some prio2 →
        priority <$> BINOP_TABLE !! op3 = Some prio3 →
        prio3 ≤ prio2 → prio2 < prio1 →
        build_expression_tree
          [TokenNumber a1 p1; TokenSymbol op1 q1; TokenNumber a2 p2;
           TokenSymbol op2 q2; TokenNumber a3 p3; TokenSymbol op3 q3; TokenNumber a4 p4]
        = Ok (BinaryOpNode op3
                (BinaryOpNode op1 (NumberNode a1 p1)
                   (BinaryOpNode op2 (NumberNode a2 p2) (NumberNode a3 p3) q2) q1)
                (NumberNode a4 p4) q3)
        ∧ build_expression_tree
            [TokenNumber a1 p1; TokenSymbol op1 q1; TokenNumber a2 p2;
             TokenSymbol op2 q2; TokenNumber a3 p3; TokenSymbol op3 q3; TokenNumber a4 p4]
          ≠ Ok (BinaryOpNode op3
                  (BinaryOpNode op2
                     (BinaryOpNode op1 (NumberNode a1 p1) (NumberNode a2 p2) q1)
                     (NumberNode a3 p3) q2)
                  (NumberNode a4 p4) q3))
  ∧ (∀ (a1 a2 a3 a4 : value) (op1 op2 op3 : str) (p1 q1 b1 p2 q2 p3 b2 q3 p4 : nat)
       (prio1 prio2 prio3 : Z),
        priority <$> BINOP_TABLE !! op1 = Some prio1 →
        priority <$> BINOP_TABLE !! op2 = Some prio2 →
        priority <$> BINOP_TABLE !! op3 = Some prio3 →
        build_expression_tree
          [TokenNumber a1 p1; TokenSymbol op1 q1; TokenOpenBracket b1;
           TokenNumber a2 p2; TokenSymbol op2 q2; TokenNumber a3 p3;
           TokenCloseBracket b2; TokenSymbol op3 q3; TokenNumber a4 p4]
        = Ok (BinaryOpNode op1 (NumberNode a1 p1)
                (BinaryOpNode op3
                   (BinaryOpNode op2 (NumberNode a2 p2) (NumberNode a3 p3) q2)
                   (NumberNode a4 p4) q3) q1))
  ∧ parse_expression latin_greek (py "2 × 3 + 4 + 5")
    = Ok (BinaryOpNode (py "+")
            (BinaryOpNode (py "×") (NumberNode (PyInt 2) 0)
               (BinaryOpNode (py "+") (NumberNode (PyInt 3) 4) (NumberNode (PyInt 4) 8) 6)
               2)
            (NumberNode (PyInt 5) 12) 10)
  ∧ parse_expression latin_greek (py "3 × (1 + 2) + 4")
    = Ok (BinaryOpNode (py "×") (NumberNode (PyInt 3) 0)
            (BinaryOpNode (py "+")
               (BinaryOpNode (py "+") (NumberNode (PyInt 1) 5) (NumberNode (PyInt 2) 9) 7)
               (NumberNode (PyInt 4) 14) 12) 2)
  ∧ (∀ L context,
        evaluate L context latin_greek (inl (py "2 × 3 + 4 + 5")) = Ok (PyInt 19)
        ∧ evaluate L context latin_greek (inl (py "3 × (1 + 2) + 4")) = Ok (PyInt 21)).
Proof.
  split; [intros; repeat split; vm_compute; reflexivity|].
  split; [|split; [|repeat split; intros; vm_compute; reflexivity]].
  - intros a1 a2 a3 a4 op1 op2 op3 p1 q1 p2 q2 p3 q3 p4 prio1 prio2 prio3
      H1 H2 H3 H32 H21.
    assert (Htree : build_expression_tree
        [TokenNumber a1 p1; TokenSymbol op1 q1; TokenNumber a2 p2;
         TokenSymbol op2 q2; TokenNumber a3 p3; TokenSymbol op3 q3; TokenNumber a4 p4]
      = Ok (BinaryOpNode op3
              (BinaryOpNode op1 (NumberNode a1 p1)
                 (BinaryOpNode op2 (NumberNode a2 p2) (NumberNode a3 p3) q2) q1)
              (NumberNode a4 p4) q3)).
    { apply binary_operators in H1, H2, H3.
      destruct H1 as [[H1 ->]|[[H1 ->]|[H1 ->]]];
        destruct H2 as [[H2 ->]|[[H2 ->]|[H2 ->]]]; try lia;
        destruct H3 as [[H3 ->]|[[H3 ->]|[H3 ->]]]; try lia;
        repeat match goal with H : _ ∨ _ |- _ => destruct H as [H|H] end; subst;
        vm_compute; reflexivity. }
    split; [exact Htree|]. rewrite Htree. discriminate.
  - intros a1 a2 a3 a4 op1 op2 op3 p1 q1 b1 p2 q2 p3 b2 q3 p4 prio1 prio2 prio3
      H1 H2 H3.
    apply binary_operators in H1, H2, H3.
    destruct H1 as [[H1 _]|[[H1 _]|[H1 _]]];
      destruct H2 as [[H2 _]|[[H2 _]|[H2 _]]];
      destruct H3 as [[H3 _]|[[H3 _]|[H3 _]]];
      repeat match goal with H : _ ∨ _ |- _ => destruct H as [H|H] end; subst;
      vm_compute; reflexivity.
Qed.

(** "2 × 3 + 4 + 5" and "3 × (1 + 2) + 4" as their tokens. *)
Lemma priority_and_brackets_fail_in_longer_chains_witness :
  build_expression_tree
    [TokenNumber (PyInt 2) 0; TokenSymbol (py "×") 2; TokenNumber (PyInt 3) 4;
     TokenSymbol (py "+") 6; TokenNumber (PyInt 4) 8; TokenSymbol (py "+") 10;
     TokenNumber (PyInt 5) 12]
  ≠ Ok (BinaryOpNode (py "+")
          (BinaryOpNode (py "+")
             (BinaryOpNode (py "×") (NumberNode (PyInt 2) 0) (NumberNode (PyInt 3) 4) 2)
             (NumberNode (PyInt 4) 8) 6)
          (NumberNode (PyInt 5) 12) 10)
  ∧ build_expression_tree
      [TokenNumber (PyInt 3) 0; TokenSymbol (py "×") 2; TokenOpenBracket 4;
       TokenNumber (PyInt 1) 5; TokenSymbol (py "+") 7; TokenNumber (PyInt 2) 9;
       TokenCloseBracket 10; TokenSymbol (py "+") 12; TokenNumber (PyInt 4) 14]
    = Ok (BinaryOpNode (py "×") (NumberNode (PyInt 3) 0)
            (BinaryOpNode (py "+")
               (BinaryOpNode (py "+") (NumberNode (PyInt 1) 5) (NumberNode (PyInt 2) 9) 7)
               (NumberNode (PyInt 4) 14) 12) 2).
Proof.
  destruct priority_and_brackets_fail_in_longer_chains as (_ & Hchain & Hbracket & _).
  split.
  - apply (Hchain (PyInt 2) (PyInt 3) (PyInt 4) (PyInt 5) (py "×") (py "+") (py "+")
             0%nat 2%nat 4%nat 6%nat 8%nat 10%nat 12%nat 6 5 5);
      first [vm_compute; reflexivity | lia].
  - apply (Hbracket (PyInt 3) (PyInt 1) (PyInt 2) (PyInt 4) (py "×") (py "+") (py "+")
             0%nat 2%nat 4%nat 5%nat 7%nat 9%nat 10%nat 12%nat 14%nat 6 5 5);
      vm_compute; reflexivity.
Defined.

(** ** The tables *)

(** Lookup of a key in a table that is written as a list of entries. *)
Ltac table_lookup :=
  unfold list_to_map; cbn [foldr fst snd];
  repeat (rewrite lookup_insert_ne by (intros [=]));
  first [ apply lookup_insert_eq | apply lookup_empty ].

Lemma factorial_function :
  OP_FUNCTIONS_UNARY !! UnaryOperators.OP_FACTORIAL = Some math_factorial.
Proof. unfold OP_FUNCTIONS_UNARY. table_lookup. Qed.

Lemma power_function (L : Libm) :
  OP_FUNCTIONS_BINARY L !! BinaryOperators.OP_POWER = Some (py_pow L).
Proof. unfold OP_FUNCTIONS_BINARY. table_lookup. Qed.

Lemma registered_function (id : str) (fun_ : PyFunction) :
  functions (new_EvaluatorContext None (Some {[ id := fun_ ]})) !! id = Some fun_.
Proof.
  unfold new_EvaluatorContext, functions, default.
  rewrite (right_id_L ∅ (∪)). apply lookup_singleton_eq.
Qed.

(** ** Function calls *)

Lemma except_arithmetic_Ok (r : result value) (v : value) :
  except_arithmetic r = Ok v → r = Ok v.
Proof.
  destruct r as [a|e|]; cbn; try congruence.
  destruct e as [| |[] ?]; congruence.
Qed.

(** C9: the arity check of a call.  With [max] the number of positional
    parameters of the registered function and [min] that number less the
    number of defaults, a call with a number of arguments in [min, max]
    evaluates the arguments and calls the function with their values, and
    any other call fails with "incorrect number of arguments passed into
    function" and the name; for a function of signature (a, m=2) these are
    the calls with 1 or 2 arguments and, on the other side, those with 0 or
    3. *)
Theorem func_call_arity_check (L : Libm) (context : EvaluatorContext)
    (id : str) (fun_ : PyFunction) (args : list ExpNode) (pos : nat) :
  functions context !! id = Some fun_ →
  let argc := Z.of_nat (length args) in
  let max_argc := Z.of_nat (spec_args fun_) in
  let min_argc :=
    max_argc - match spec_defaults fun_ with None => 0 | Some d => Z.of_nat d end in
  (min_argc ≤ argc ≤ max_argc →
   _eval_node L context (FuncCallNode id args pos)
   = except_arithmetic
       (values ← for_each (_eval_node L context) args; call fun_ values))
  ∧ (¬ (min_argc ≤ argc ≤ max_argc) →
     _eval_node L context (FuncCallNode id args pos)
     = Raise (EvaluationException
                (py "incorrect number of arguments passed into function '" ++ id ++ py "'")
                None))
  ∧ (spec_args fun_ = 2%nat → spec_defaults fun_ = Some 1%nat →
     (length args = 1%nat ∨ length args = 2%nat →
      ∀ values, for_each (_eval_node L context) args = Ok values →
        _eval_node L context (FuncCallNode id args pos)
        = except_arithmetic (call fun_ values))
     ∧ (length args = 0%nat ∨ length args = 3%nat →
        _eval_node L context (FuncCallNode id args pos)
        = Raise (EvaluationException
                   (py "incorrect number of arguments passed into function '"
                    ++ id ++ py "'")
                   None))).
Proof.
  intros Hfun argc max_argc min_argc.
  assert (Hin : min_argc ≤ argc ≤ max_argc →
    _eval_node L context (FuncCallNode id args pos)
    = except_arithmetic
        (values ← for_each (_eval_node L context) args; call fun_ values)).
  { intros [Hmin Hmax]. cbn [_eval_node]. unfold _eval_func_call. rewrite Hfun.
    cbv zeta. fold max_argc. fold min_argc. fold argc.
    apply Z.leb_le in Hmin, Hmax. rewrite Hmin, Hmax. reflexivity. }
  assert (Hout : ¬ (min_argc ≤ argc ≤ max_argc) →
    _eval_node L context (FuncCallNode id args pos)
    = Raise (EvaluationException
               (py "incorrect number of arguments passed into function '" ++ id ++ py "'")
               None)).
  { intros Hn. cbn [_eval_node]. unfold _eval_func_call. rewrite Hfun.
    cbv zeta. fold max_argc. fold min_argc. fold argc.
    destruct (min_argc <=? argc) eqn:Hmin; destruct (argc <=? max_argc) eqn:Hmax;
      try reflexivity.
    apply Z.leb_le in Hmin, Hmax. tauto. }
  split; [exact Hin|]. split; [exact Hout|].
  intros Hargs Hdef. subst min_argc max_argc argc. rewrite Hargs, Hdef in *.
  split.
  - intros Hlen values Hvalues. rewrite Hin by lia. rewrite Hvalues. reflexivity.
  - intros Hlen. apply Hout. lia.
Qed.

(** "mult(10, 3)" with [mult] registered: two arguments lie in [1, 2]. *)
Lemma func_call_arity_check_witness :
  _eval_node libm_examples
    (new_EvaluatorContext None (Some {[ py "mult" := mult libm_examples ]}))
    (FuncCallNode (py "mult") [NumberNode (PyInt 10) 5; NumberNode (PyInt 3) 9] 0)
  = Ok (PyInt 30).
Proof.
  pose proof (func_call_arity_check libm_examples _ _ _
                [NumberNode (PyInt 10) 5; NumberNode (PyInt 3) 9] 0%nat
                (registered_function (py "mult") (mult libm_examples))) as H.
  cbv zeta in H. destruct H as [H _]. rewrite H.
  - vm_compute. reflexivity.
  - split; apply Z.leb_le; vm_compute; reflexivity.
Defined.

(** ** Failures of the arithmetic *)

Lemma except_arithmetic_catches (r : result value) (k : builtin) (msg : option str) :
  k = ZeroDivisionError ∨ k = ValueError →
  except_arithmetic r ≠ Raise (Builtin k msg).
Proof.
  intros Hk. destruct r as [a|e|]; cbn [except_arithmetic]; try congruence.
  destruct e as [| |[] ?]; destruct Hk; subst; congruence.
Qed.

Lemma _eval_node_unfold (L : Libm) (context : EvaluatorContext) (node : ExpNode) :
  _eval_node L context node
  = except_arithmetic
      match node with
      | NumberNode num _ => _eval_number num
      | NameConstantNode name _ => _eval_const context name
      | BinaryOpNode op left_ right_ _ =>
        _eval_binary L (_eval_node L context) op left_ right_
      | UnaryOpNode op child _ => _eval_unary (_eval_node L context) op child
      | FuncCallNode id args _ => _eval_func_call context (_eval_node L context) id args
      end.
Proof. destruct node; reflexivity. Qed.

Lemma _eval_node_number (L : Libm) (context : EvaluatorContext) (num : value) (pos : nat) :
  _eval_node L context (NumberNode num pos) = Ok num.
Proof. reflexivity. Qed.

(** C4, as the code has it: a [ZeroDivisionError] or [ValueError] raised under
    [_eval_node] is caught and raised again as an evaluation error that holds
    it as [inner], so that neither escapes the evaluation of a tree.  "1 ÷ 0"
    fails with "zero division" and the inner [ZeroDivisionError];
    "(-1) ^ 0.5", whose power is complex, fails with "invalid expression";
    the factorial of a negative integer fails with "value error" and the
    inner [ValueError].  The factorial of a float, with a fraction or
    without, is the [TypeError] of [math.factorial], and that of an integer
    above [LONG_MAX] its [OverflowError]: no [except] clause is for them, and
    they leave [_eval_node] as they are. *)
Theorem arithmetic_failures_are_wrapped :
  (∀ L context node msg,
      _eval_node L context node ≠ Raise (Builtin ZeroDivisionError msg)
      ∧ _eval_node L context node ≠ Raise (Builtin ValueError msg))
  ∧ (∀ L context,
        evaluate L context latin_greek (inl (py "1 ÷ 0"))
        = Raise (EvaluationException (py "zero division")
                   (Some (ZeroDivisionError, None))))
  ∧ (∀ L context z,
        complex_arith L Pow ((-1)%float, 0%float) (0.5%float, 0%float) = Ok z →
        evaluate L context latin_greek (inl (py "(-1) ^ 0.5"))
        = Raise (EvaluationException (py "invalid expression") None))
  ∧ (∀ L context n pos pos',
        n < 0 →
        _eval_node L context
          (UnaryOpNode UnaryOperators.OP_FACTORIAL (NumberNode (PyInt n) pos) pos')
        = Raise (EvaluationException (py "value error") (Some (ValueError, None))))
  ∧ (∀ L context x pos pos',
        _eval_node L context
          (UnaryOpNode UnaryOperators.OP_FACTORIAL (NumberNode (PyFloat x) pos) pos')
        = Raise (Builtin TypeError None))
  ∧ (∀ L context n pos pos',
        LONG_MAX < n →
        _eval_node L context
          (UnaryOpNode UnaryOperators.OP_FACTORIAL (NumberNode (PyInt n) pos) pos')
        = Raise (Builtin OverflowError None)).
Proof.
  split; [|split; [|split; [|split; [|split]]]].
  - intros L context node msg. rewrite _eval_node_unfold.
    split; apply except_arithmetic_catches; auto.
  - intros. vm_compute. reflexivity.
  - intros L context z Hz.
    assert (Htree : parse_expression latin_greek (py "(-1) ^ 0.5")
      = Ok (BinaryOpNode BinaryOperators.OP_POWER
              (UnaryOpNode UnaryOperators.OP_NEGATIVE (NumberNode (PyInt 1) 2) 1)
              (NumberNode (PyFloat 0.5) 7) 5)) by (vm_compute; reflexivity).
    assert (Hleft : _eval_node L context
                      (UnaryOpNode UnaryOperators.OP_NEGATIVE (NumberNode (PyInt 1) 2) 1)
                    = Ok (PyInt (-1))) by (vm_compute; reflexivity).
    assert (Hpow : py_pow L (PyInt (-1)) (PyFloat 0.5)
                   = z ← complex_arith L Pow ((-1)%float, 0%float) (0.5%float, 0%float);
                     Ok (PyComplex z.1 z.2)) by (vm_compute; reflexivity).
    unfold evaluate. rewrite Htree. cbn [mbind result_bind].
    rewrite _eval_node_unfold. unfold _eval_binary.
    rewrite power_function, Hleft, _eval_node_number. cbn [mbind result_bind].
    rewrite Hpow, Hz. reflexivity.
  - intros L context n pos pos' Hn.
    rewrite _eval_node_unfold. unfold _eval_unary.
    rewrite factorial_function, _eval_node_number.
    cbn [mbind result_bind math_factorial].
    apply Z.ltb_lt in Hn. rewrite Hn. reflexivity.
  - intros L context x pos pos'.
    rewrite _eval_node_unfold. unfold _eval_unary.
    rewrite factorial_function, _eval_node_number. reflexivity.
  - intros L context n pos pos' Hn.
    rewrite _eval_node_unfold. unfold _eval_unary.
    rewrite factorial_function, _eval_node_number.
    cbn [mbind result_bind math_factorial].
    replace (n <? 0) with false by (symmetry; apply Z.ltb_ge; unfold LONG_MAX in Hn; lia).
    apply Z.ltb_lt in Hn. rewrite Hn. reflexivity.
Qed.

(** "(-1) ^ 0.5" with the complex power of the examples' C library, the
    factorial of -1 and the factorial of 2 ^ 64. *)
Lemma arithmetic_failures_are_wrapped_witness :
  evaluate libm_examples (new_EvaluatorContext None None) latin_greek
    (inl (py "(-1) ^ 0.5"))
  = Raise (EvaluationException (py "invalid expression") None)
  ∧ _eval_node libm_examples (new_EvaluatorContext None None)
      (UnaryOpNode UnaryOperators.OP_FACTORIAL (NumberNode (PyInt (-1)) 1) 0)
    = Raise (EvaluationException (py "value error") (Some (ValueError, None)))
  ∧ _eval_node libm_examples (new_EvaluatorContext None None)
      (UnaryOpNode UnaryOperators.OP_FACTORIAL (NumberNode (PyInt (2 ^ 64)) 1) 0)
    = Raise (Builtin OverflowError None).
Proof.
  destruct arithmetic_failures_are_wrapped as (_ & _ & Hpow & Hneg & _ & Hlong).
  split; [|split].
  - apply (Hpow libm_examples _ (0x1.1a62633145c07p-54%float, 1%float)).
    vm_compute. reflexivity.
  - apply Hneg. lia.
  - apply Hlong. reflexivity.
Defined.

(** The claim C4 fails for the factorial of a number that is no integer and
    for the overflow of the arithmetic: "2.5!" leaves [evaluate] with the
    [TypeError] of [math.factorial], and "10 ^ 400 ÷ 1" with the
    [OverflowError] of the division; no [except] clause catches either. *)
Lemma raw_errors_escape_evaluate :
  evaluate libm_examples (new_EvaluatorContext None None) latin_greek (inl (py "2.5!"))
  = Raise (Builtin TypeError None)
  ∧ evaluate libm_examples (new_EvaluatorContext None None) latin_greek
      (inl (py "10 ^ 400 ÷ 1"))
    = Raise (Builtin OverflowError None).
Proof. split; vm_compute; reflexivity. Qed.

(** ** Complex numbers *)

Lemma ExpNode_nested_ind (P : ExpNode → Prop) :
  (∀ op left_ right_ pos, P left_ → P right_ → P (BinaryOpNode op left_ right_ pos)) →
  (∀ op child pos, P child → P (UnaryOpNode op child pos)) →
  (∀ num pos, P (NumberNode num pos)) →
  (∀ name pos, P (NameConstantNode name pos)) →
  (∀ id args pos, Forall P args → P (FuncCallNode id args pos)) →
  ∀ node, P node.
Proof.
  intros Hbin Hun Hnum Hname Hcall.
  fix IH 1. intros [op l r pos|op child pos|num pos|name pos|id args pos].
  - apply Hbin; apply IH.
  - apply Hun; apply IH.
  - apply Hnum.
  - apply Hname.
  - apply Hcall. induction args as [|a args IHargs]; constructor; [apply IH|exact IHargs].
Qed.

Lemma unary_functions (op : str) (fun_ : value → result value) :
  OP_FUNCTIONS_UNARY !! op = Some fun_ →
  fun_ = py_pos ∨ fun_ = py_neg ∨ fun_ = math_factorial.
Proof.
  unfold OP_FUNCTIONS_UNARY. intros H. apply elem_of_list_to_map_2 in H.
  repeat (apply elem_of_cons in H as [H|H]; [injection H as _ ->; auto|]).
  inversion H.
Qed.

Lemma unary_function_real (fun_ : value → result value) (v w : value) :
  fun_ = py_pos ∨ fun_ = py_neg ∨ fun_ = math_factorial →
  isinstance_complex v = false → fun_ v = Ok w → isinstance_complex w = false.
Proof.
  unfold py_pos, py_neg, math_factorial, raise_builtin.
  intros [->|[->| ->]] Hv; destruct v as [n|x|re im]; try discriminate Hv;
    repeat case_match; intros ?; simplify_eq; reflexivity.
Qed.

Lemma for_each_Forall {A B} (f : A → result B) (P : B → Prop) (l : list A) (ys : list B) :
  Forall (λ x, ∀ y, f x = Ok y → P y) l →
  for_each f l = Ok ys → Forall P ys.
Proof.
  revert ys. induction l as [|x l IH]; intros ys Hl; cbn [for_each].
  - intros ?; simplify_eq. constructor.
  - inversion Hl as [|? ? Hx Hl']; subst.
    destruct (f x) as [y| |] eqn:Hfx; cbn [mbind result_bind]; try discriminate.
    fold (for_each f l).
    destruct (for_each f l) as [ys'| |] eqn:Hfl; cbn [mbind result_bind]; try discriminate.
    intros ?; simplify_eq. constructor; [apply Hx; reflexivity|apply IH; auto].
Qed.

(** C5, as the code has it: the check for a complex result is made on the
    result of a binary operator, and nowhere else.  For a tree whose number
    literals are not complex and a context whose constants are not complex
    and whose functions return no complex number for arguments that are not
    complex, [_eval_node] returns no complex number; for every tree and
    context, a binary node returns no complex number, and fails with
    "invalid expression" when the operator's result is complex. *)
Theorem complex_result_of_binary_operator_is_refused :
  (∀ L context node v,
      real_context context →
      Forall (λ num, isinstance_complex num = false) (numbers_of node) →
      _eval_node L context node = Ok v →
      isinstance_complex v = false)
  ∧ (∀ L context op left_ right_ pos v,
        _eval_node L context (BinaryOpNode op left_ right_ pos) = Ok v →
        isinstance_complex v = false)
  ∧ (∀ L context op left_ right_ pos fun_ v_left v_right re im,
        OP_FUNCTIONS_BINARY L !! op = Some fun_ →
        _eval_node L context left_ = Ok v_left →
        _eval_node L context right_ = Ok v_right →
        fun_ v_left v_right = Ok (PyComplex re im) →
        _eval_node L context (BinaryOpNode op left_ right_ pos)
        = Raise (EvaluationException (py "invalid expression") None)).
Proof.
  assert (Hbinary : ∀ L context op left_ right_ pos v,
    _eval_node L context (BinaryOpNode op left_ right_ pos) = Ok v →
    isinstance_complex v = false).
  { intros L context op l r pos v H. rewrite _eval_node_unfold in H.
    apply except_arithmetic_Ok in H. unfold _eval_binary, evaluation_error in H.
    destruct (OP_FUNCTIONS_BINARY L !! op) as [f|]; [|discriminate].
    destruct (_eval_node L context l) as [vl| |]; cbn [mbind result_bind] in H;
      try discriminate.
    destruct (_eval_node L context r) as [vr| |]; cbn [mbind result_bind] in H;
      try discriminate.
    destruct (f vl vr) as [w| |]; cbn [mbind result_bind] in H; try discriminate.
    destruct (isinstance_complex w) eqn:Hw; [discriminate|]. congruence. }
  split; [|split; [exact Hbinary|]].
  - intros L context node v [Hconst Hfun]. revert v.
    induction node as [op l r pos IHl IHr|op child pos IH|num pos|name pos|id args pos IH]
      using ExpNode_nested_ind; intros v Hnums Hv.
    + eapply Hbinary, Hv.
    + rewrite _eval_node_unfold in Hv. apply except_arithmetic_Ok in Hv.
      unfold _eval_unary, evaluation_error in Hv.
      destruct (OP_FUNCTIONS_UNARY !! op) as [f|] eqn:Hf; [|discriminate].
      destruct (_eval_node L context child) as [w| |]; cbn [mbind result_bind] in Hv;
        try discriminate.
      eapply unary_function_real; [eapply unary_functions, Hf| |exact Hv].
      apply IH; [exact Hnums|reflexivity].
    + rewrite _eval_node_number in Hv. injection Hv as <-.
      cbn [numbers_of] in Hnums. inversion Hnums; assumption.
    + rewrite _eval_node_unfold in Hv. apply except_arithmetic_Ok in Hv.
      unfold _eval_const, evaluation_error in Hv.
      destruct (constants context !! name) as [w|] eqn:Hw; [|discriminate].
      injection Hv as <-. eapply Hconst, Hw.
    + rewrite _eval_node_unfold in Hv. apply except_arithmetic_Ok in Hv.
      unfold _eval_func_call, evaluation_error in Hv.
      destruct (functions context !! id) as [f|] eqn:Hf; [|discriminate].
      cbv zeta in Hv.
      destruct (_ && _); [|discriminate].
      destruct (for_each (_eval_node L context) args) as [values| |] eqn:Hvalues;
        cbn [mbind result_bind] in Hv; try discriminate.
      eapply Hfun; [exact Hf| |exact Hv].
      eapply for_each_Forall; [|exact Hvalues].
      cbn [numbers_of] in Hnums. clear Hvalues Hv.
      induction IH as [|a args Ha _ IHargs]; constructor.
      * intros y Hy. apply Ha; [|exact Hy].
        cbn [flat_map] in Hnums. apply Forall_app in Hnums. tauto.
      * apply IHargs. cbn [flat_map] in Hnums. apply Forall_app in Hnums. tauto.
  - intros L context op l r pos f vl vr re im Hf Hl Hr Hres.
    rewrite _eval_node_unfold. unfold _eval_binary. rewrite Hf, Hl, Hr.
    cbn [mbind result_bind]. rewrite Hres. reflexivity.
Qed.

(** A context of constants and no functions has no complex number. *)
Lemma default_context_real : real_context (new_EvaluatorContext None None).
Proof.
  unfold real_context, new_EvaluatorContext, constants, functions, default.
  rewrite !(left_id_L ∅ (∪)). split.
  - intros name v H. unfold MATH_CONSTANTS in H.
    apply elem_of_list_to_map_2 in H.
    repeat (apply elem_of_cons in H as [H|H]; [injection H as _ ->; reflexivity|]).
    inversion H.
  - intros id f values v H. rewrite lookup_empty in H. discriminate.
Qed.

(** "2 × π" in the default context. *)
Lemma complex_result_of_binary_operator_is_refused_witness :
  ∃ v, _eval_node libm_examples (new_EvaluatorContext None None)
         (BinaryOpNode (py "×") (NumberNode (PyInt 2) 0) (NameConstantNode (py "π") 4) 2)
       = Ok v
       ∧ isinstance_complex v = false.
Proof.
  eexists. split; [vm_compute; reflexivity|].
  eapply (proj1 complex_result_of_binary_operator_is_refused libm_examples
            (new_EvaluatorContext None None)
            (BinaryOpNode (py "×") (NumberNode (PyInt 2) 0)
               (NameConstantNode (py "π") 4) 2)).
  - exact default_context_real.
  - vm_compute. repeat constructor.
  - vm_compute. reflexivity.
Defined.

(** The claim C5 fails for a context with a function that returns a complex
    number: "j()" with [lambda: 1j] registered as j evaluates to 1j, and so
    does the tree of the call given to [evaluate] as it is. *)
Lemma registered_function_returns_complex :
  evaluate libm_examples
    (new_EvaluatorContext None (Some {[ py "j" := imaginary_unit ]}))
    latin_greek (inl (py "j()"))
  = Ok (PyComplex 0 1)
  ∧ evaluate libm_examples
      (new_EvaluatorContext None (Some {[ py "j" := imaginary_unit ]}))
      latin_greek (inr (FuncCallNode (py "j") [] 0))
    = Ok (PyComplex 0 1).
Proof. split; vm_compute; reflexivity. Qed.

(** ** The tokenizer *)

Section TokenizerProperties.
Variable U : Unicode.

Lemma read_number_loop_cons (ch : char) (rest : str) (state : nstate) (i : nat) :
  read_number_loop U (ch :: rest) state i
  = if isnumeric U ch then
      let state :=
        if decide (state = st_start) then st_int
        else if decide (state = st_exponent) then st_exponent_value
        else state in
      read_number_loop U rest state (i + 1)
    else if bool_decide ([ch] = Separators.SEP_DOT) then
      if allows state st_fraction then read_number_loop U rest st_fraction (i + 1)
      else Raise (ParsingException (py "invalid '.'") (Z.of_nat i))
    else if isalpha U ch then
      if bool_decide (ch = 101%N \/ ch = 69%N) then
        if allows state st_exponent then read_number_loop U rest st_exponent (i + 1)
        else Raise (ParsingException (py "invalid 'e'") (Z.of_nat i))
      else Raise (ParsingException (invalid_character ch) (Z.of_nat i))
    else if bool_decide ([ch] = UnaryOperators.OP_NEGATIVE
                         \/ [ch] = UnaryOperators.OP_POSITIVE) then
      if allows state st_exponent_value
      then read_number_loop U rest st_exponent_value (i + 1)
      else Ok (state, true, i)
    else Ok (state, true, i).
Proof. reflexivity. Qed.

Lemma read_number_loop_range (rest : str) (state : nstate) (i : nat) state' is_end j :
  read_number_loop U rest state i = Ok (state', is_end, j) →
  (i ≤ j ≤ i + length rest)%nat
  ∧ (is_end = false → j = (i + length rest)%nat)
  ∧ (is_end = true → (j < i + length rest)%nat).
Proof.
  revert state i. induction rest as [|ch rest IH]; intros state i.
  - cbn [read_number_loop length]. intros ?; simplify_eq. repeat split; first [lia | intros; discriminate | intros; lia].
  - rewrite read_number_loop_cons. cbn [length]. cbv zeta.
    repeat case_match; try discriminate;
      try (intros Hloop; apply IH in Hloop as (? & Hf & Ht);
           repeat split; first [lia | intros E; specialize (Hf E); lia
                               | intros E; specialize (Ht E); lia]);
      intros ?; simplify_eq; repeat split; first [lia | intros; discriminate | intros; lia].
Qed.

Lemma read_number_loop_raise (rest : str) (state : nstate) (i : nat) e :
  read_number_loop U rest state i = Raise e →
  ∃ msg (p : nat), e = ParsingException msg (Z.of_nat p) ∧ (i ≤ p < i + length rest)%nat.
Proof.
  revert state i. induction rest as [|ch rest IH]; intros state i.
  - cbn [read_number_loop]. discriminate.
  - rewrite read_number_loop_cons. cbn [length]. cbv zeta.
    repeat case_match; try discriminate;
      try (intros Hloop; apply IH in Hloop as (msg & p & -> & Hp);
           exists msg, p; split; [reflexivity|lia]);
      intros ?; simplify_eq; eexists _, i; split; first [reflexivity | lia].
Qed.

Lemma read_number_loop_total (rest : str) (state : nstate) (i : nat) :
  read_number_loop U rest state i ≠ OutOfFuel.
Proof.
  revert state i. induction rest as [|ch rest IH]; intros state i.
  - cbn [read_number_loop]. discriminate.
  - rewrite read_number_loop_cons. cbv zeta.
    repeat case_match; try discriminate; apply IH.
Qed.

Lemma read_number_loop_not_start (rest : str) (state : nstate) (i : nat) state' is_end j :
  read_number_loop U rest state i = Ok (state', is_end, j) →
  state ≠ st_start → state' ≠ st_start.
Proof.
  revert state i. induction rest as [|ch rest IH]; intros state i.
  - cbn [read_number_loop]. intros ?; simplify_eq. auto.
  - rewrite read_number_loop_cons. cbv zeta.
    repeat case_match; try discriminate;
      try (intros Hloop ?; apply IH in Hloop; [exact Hloop|congruence]);
      intros ?; simplify_eq; auto.
Qed.

Lemma read_number_loop_not_int (rest : str) (state : nstate) (i : nat) state' is_end j :
  read_number_loop U rest state i = Ok (state', is_end, j) →
  state ≠ st_start → state ≠ st_int → state' ≠ st_int.
Proof.
  revert state i. induction rest as [|ch rest IH]; intros state i.
  - cbn [read_number_loop]. intros ?; simplify_eq. auto.
  - rewrite read_number_loop_cons. cbv zeta.
    repeat case_match; try discriminate;
      try (intros Hloop ? ?; apply IH in Hloop; [exact Hloop|congruence|congruence]);
      intros ?; simplify_eq; auto.
Qed.

Lemma read_number_loop_int (rest : str) (state : nstate) (i : nat) state' is_end j :
  read_number_loop U rest state i = Ok (state', is_end, j) →
  state = st_start ∨ state = st_int →
  state' = st_int
  ↔ state' ≠ st_start ∧ Forall (λ ch, isnumeric U ch = true) (take (j - i) rest).
Proof.
  assert (Hstop : ∀ rest, state = st_start ∨ state = st_int →
    state = st_int
    ↔ state ≠ st_start ∧ Forall (λ ch, isnumeric U ch = true) (take (i - i) rest)).
  { intros rest0 [->| ->]; rewrite Nat.sub_diag, take_0;
      (split; [try discriminate|try tauto]).
    intros _. split; [discriminate|constructor]. }
  revert state i Hstop. induction rest as [|ch rest IH]; intros state i Hstop.
  - cbn [read_number_loop]. intros ?; simplify_eq. apply Hstop.
  - rewrite read_number_loop_cons. cbv zeta.
    destruct (isnumeric U ch) eqn:Hnum.
    { intros Hloop Hstate.
      pose proof (read_number_loop_range _ _ _ _ _ _ Hloop) as (Hj & _ & _).
      apply IH in Hloop.
      - replace (j - i)%nat with (S (j - (i + 1))) by lia.
        rewrite firstn_cons, Forall_cons, Hloop. tauto.
      - intros rest0 [->| ->]; rewrite Nat.sub_diag, take_0;
          (split; [try discriminate|try tauto]).
        intros _. split; [discriminate|constructor].
      - right. destruct Hstate as [->| ->]; reflexivity. }
    assert (Hleft : ∀ state0, state0 ≠ st_start → state0 ≠ st_int →
      read_number_loop U rest state0 (i + 1) = Ok (state', is_end, j) →
      state' = st_int
      ↔ state' ≠ st_start
        ∧ Forall (λ ch0, isnumeric U ch0 = true) (take (j - i) (ch :: rest))).
    { intros state0 H1 H2 Hloop.
      pose proof (read_number_loop_range _ _ _ _ _ _ Hloop) as (Hj & _ & _).
      pose proof (read_number_loop_not_int _ _ _ _ _ _ Hloop H1 H2) as Hni.
      replace (j - i)%nat with (S (j - (i + 1))) by lia.
      rewrite firstn_cons, Forall_cons. split; [tauto|]. intros (_ & Hch & _). congruence. }
    repeat case_match; try discriminate;
      try (intros Hloop Hstate; apply Hleft in Hloop; [exact Hloop|discriminate|discriminate]);
      intros ? Hstate; simplify_eq; apply Hstop; exact Hstate.
Qed.

Lemma read_number_loop_progress (ch : char) (rest : str) (i : nat) state' is_end j :
  [ch] = Separators.SEP_DOT ∨ isnumeric U ch = true →
  read_number_loop U (ch :: rest) st_start i = Ok (state', is_end, j) →
  (i < j)%nat ∧ state' ≠ st_start.
Proof.
  intros Hch. rewrite read_number_loop_cons. cbv zeta.
  destruct (isnumeric U ch) eqn:Hnum.
  - intros Hloop. pose proof (read_number_loop_range _ _ _ _ _ _ Hloop) as (Hj & _ & _).
    apply read_number_loop_not_start in Hloop; [|discriminate]. split; [lia|exact Hloop].
  - destruct Hch as [Hch|]; [|discriminate].
    rewrite bool_decide_eq_true_2 by exact Hch.
    change (allows st_start st_fraction) with true. cbv iota.
    intros Hloop. pose proof (read_number_loop_range _ _ _ _ _ _ Hloop) as (Hj & _ & _).
    apply read_number_loop_not_start in Hloop; [|discriminate]. split; [lia|exact Hloop].
Qed.

(** The literal that [read_number] appends is an [int] when all the
    characters it has scanned are numeric, and a [float] otherwise. *)
Lemma read_number_typing (exp : str) (start : nat) (token_list : list Token) j token_list' :
  read_number U exp start token_list = Ok (j, token_list') →
  ∃ num, token_list' = token_list ++ [TokenNumber num start]
         ∧ ((∃ n, num = PyInt n)
            ↔ Forall (λ ch, isnumeric U ch = true) (slice exp start j))
         ∧ ((∃ x, num = PyFloat x)
            ↔ ¬ Forall (λ ch, isnumeric U ch = true) (slice exp start j)).
Proof.
  unfold read_number.
  destruct (read_number_loop U (drop start exp) st_start start)
    as [[[state is_end] i]| |] eqn:Hloop; cbn [mbind result_bind]; try discriminate.
  pose proof (read_number_loop_int _ _ _ _ _ _ Hloop (or_introl eq_refl)) as Hint.
  destruct (allows state st_end) eqn:Hend.
  - assert (Hns : state ≠ st_start) by (intros ->; discriminate Hend).
    destruct (decide (state = st_int)) as [->|Hstate].
    + destruct (py_int U (slice exp start i)) as [n| |];
        cbn [fmap result_fmap mbind result_bind]; try discriminate.
      intros ?; simplify_eq. exists (PyInt n). split; [reflexivity|].
      assert (HF : Forall (λ ch, isnumeric U ch = true) (slice exp start j))
        by (apply Hint; reflexivity).
      split; split; try (intros [? [=]]); eauto. intros Hn. destruct (Hn HF).
    + destruct (py_float U (slice exp start i)) as [x| |];
        cbn [fmap result_fmap mbind result_bind]; try discriminate.
      intros ?; simplify_eq. exists (PyFloat x). split; [reflexivity|].
      assert (HF : ¬ Forall (λ ch, isnumeric U ch = true) (slice exp start j))
        by (intros HF; apply Hstate, Hint; auto).
      split; split; try (intros [? [=]]); eauto. intros Hn. destruct (HF Hn).
  - destruct is_end.
    + destruct (py_index exp (Z.of_nat i - 1)); cbn [mbind result_bind]; discriminate.
    + destruct (py_index exp (Z.of_nat i)); cbn [mbind result_bind]; discriminate.
Qed.

Lemma py_index_nat {A} (seq : list A) (i : nat) (a : A) :
  seq !! i = Some a → py_index seq (Z.of_nat i) = Ok a.
Proof.
  intros H. unfold py_index.
  destruct (Z.of_nat i <? 0) eqn:Hneg; [apply Z.ltb_lt in Hneg; lia|].
  rewrite Hneg, Nat2Z.id, H. reflexivity.
Qed.

Lemma py_index_nat_Ok {A} (seq : list A) (i : nat) (a : A) :
  py_index seq (Z.of_nat i) = Ok a → seq !! i = Some a.
Proof.
  unfold py_index.
  destruct (Z.of_nat i <? 0) eqn:Hneg; [apply Z.ltb_lt in Hneg; lia|].
  rewrite Hneg, Nat2Z.id. destruct (seq !! i); congruence.
Qed.

Lemma py_index_builtin {A} (seq : list A) (i : Z) (e : exn) :
  py_index seq i = Raise e → e = Builtin IndexError None.
Proof.
  unfold py_index, raise_builtin. repeat case_match; congruence.
Qed.

Lemma py_index_total {A} (seq : list A) (i : Z) : py_index seq i ≠ OutOfFuel.
Proof. unfold py_index, raise_builtin. repeat case_match; congruence. Qed.

Lemma py_int_outcome (content : str) :
  (∃ n, py_int U content = Ok n) ∨ py_int U content = Raise (Builtin ValueError None).
Proof. unfold py_int, raise_builtin. repeat case_match; eauto. Qed.

Lemma py_float_outcome (content : str) :
  (∃ x, py_float U content = Ok x) ∨ py_float U content = Raise (Builtin ValueError None).
Proof. unfold py_float, raise_builtin. repeat case_match; eauto. Qed.

(** What a call of [read_number] at the start of a number ends with. *)
Lemma read_number_outcome (exp : str) (start : nat) (token_list : list Token) (ch : char) :
  exp !! start = Some ch →
  [ch] = Separators.SEP_DOT ∨ isnumeric U ch = true →
  match read_number U exp start token_list with
  | Ok (j, _) => (start < j ≤ length exp)%nat
  | Raise e =>
    (∃ msg (p : nat), e = ParsingException msg (Z.of_nat p) ∧ (p < length exp)%nat)
    ∨ (∃ kind, e = Builtin kind None)
  | OutOfFuel => False
  end.
Proof.
  intros Hch Hnum.
  pose proof (lookup_lt_Some _ _ _ Hch) as Hlt.
  assert (Hdrop : drop start exp = ch :: drop (S start) exp)
    by (apply drop_S, Hch).
  unfold read_number. rewrite Hdrop.
  destruct (read_number_loop U (ch :: drop (S start) exp) st_start start)
    as [[[state is_end] i]|e|] eqn:Hloop; cbn [mbind result_bind].
  - pose proof (read_number_loop_range _ _ _ _ _ _ Hloop) as (Hi & Hend & Hstop).
    pose proof (read_number_loop_progress _ _ _ _ _ _ Hnum Hloop) as (Hprog & _).
    rewrite <- Hdrop, length_drop in Hi, Hend, Hstop.
    destruct (allows state st_end).
    + destruct (decide (state = st_int)).
      * destruct (py_int_outcome (slice exp start i)) as [[n ->]| ->];
          cbn [fmap result_fmap mbind result_bind]; [lia|eauto].
      * destruct (py_float_outcome (slice exp start i)) as [[x ->]| ->];
          cbn [fmap result_fmap mbind result_bind]; [lia|eauto].
    + destruct is_end.
      * destruct (lookup_lt_is_Some_2 exp (i - 1)) as [ch' Hch']; [lia|].
        replace (Z.of_nat i - 1) with (Z.of_nat (i - 1)) by lia.
        rewrite (py_index_nat _ _ _ Hch'). cbn [mbind result_bind].
        left. eexists _, _. split; [reflexivity|lia].
      * destruct (py_index exp (Z.of_nat i)) as [?|e|] eqn:Hidx; cbn [mbind result_bind].
        -- left. eexists _, i. split; [reflexivity|].
           eapply lookup_lt_Some, py_index_nat_Ok, Hidx.
        -- right. apply py_index_builtin in Hidx. eauto.
        -- eapply py_index_total, Hidx.
  - apply read_number_loop_raise in Hloop as (msg & p & -> & Hp).
    rewrite <- Hdrop, length_drop in Hp. left. exists msg, p. split; [reflexivity|lia].
  - eapply read_number_loop_total, Hloop.
Qed.

Lemma read_name_loop_range (rest : str) (i : nat) :
  (i ≤ read_name_loop U rest i ≤ i + length rest)%nat.
Proof.
  revert i. induction rest as [|ch rest IH]; intros i; cbn [read_name_loop length]; [lia|].
  case_match; [|lia]. specialize (IH (i + 1)%nat). lia.
Qed.

Lemma read_name_outcome (exp : str) (start : nat) (token_list : list Token) (ch : char) :
  exp !! start = Some ch →
  is_name_char U ch = true →
  ∃ j name, read_name U exp start token_list = Ok (j, token_list ++ [TokenName name start])
            ∧ (start < j ≤ length exp)%nat.
Proof.
  intros Hch Hname.
  pose proof (lookup_lt_Some _ _ _ Hch) as Hlt.
  assert (Hdrop : drop start exp = ch :: drop (S start) exp)
    by (apply drop_S, Hch).
  unfold read_name.
  pose proof (read_name_loop_range (drop start exp) start) as Hrange.
  rewrite length_drop in Hrange.
  assert (Hprog : (start < read_name_loop U (drop start exp) start)%nat).
  { rewrite Hdrop. cbn [read_name_loop]. rewrite Hname.
    pose proof (read_name_loop_range (drop (S start) exp) (start + 1)). lia. }
  set (j := read_name_loop U (drop start exp) start) in *.
  assert (Hslice : slice exp start j ≠ []).
  { unfold slice. rewrite Hdrop. replace (j - start)%nat with (S (j - start - 1)) by lia.
    rewrite firstn_cons. discriminate. }
  unfold new_TokenName. rewrite bool_decide_eq_false_2 by exact Hslice.
  cbn [mbind result_bind]. eexists _, _. split; [reflexivity|lia].
Qed.

(** The passes that [tokenize] allows its loop are enough. *)
Lemma tokenize_loop_total (exp : str) (fuel : nat) :
  ∀ i token_list,
    (length exp ≤ fuel + i)%nat →
    tokenize_loop U exp fuel i token_list ≠ OutOfFuel.
Proof.
  induction fuel as [|fuel IH]; intros i token_list Hfuel.
  - cbn [tokenize_loop]. destruct (exp !! i) eqn:Hi; [|discriminate].
    apply lookup_lt_Some in Hi. lia.
  - cbn [tokenize_loop]. destruct (exp !! i) as [ch|] eqn:Hi; [|discriminate].
    pose proof (lookup_lt_Some _ _ _ Hi) as Hlt.
    destruct (is_op ch || bool_decide ([ch] ∈ VALID_SEPARATORS)); [apply IH; lia|].
    destruct (bool_decide ([ch] = Separators.SEP_LEFT_BRACKET)); [apply IH; lia|].
    destruct (bool_decide ([ch] = Separators.SEP_RIGHT_BRACKET)); [apply IH; lia|].
    destruct (bool_decide ([ch] = Separators.SEP_DOT) || isnumeric U ch) eqn:Hnum.
    { assert (Hnum' : [ch] = Separators.SEP_DOT ∨ isnumeric U ch = true).
      { apply orb_true_iff in Hnum as [H|H]; [left; eapply bool_decide_eq_true_1, H|auto]. }
      pose proof (read_number_outcome exp i token_list ch Hi Hnum') as Hout.
      destruct (read_number U exp i token_list) as [[j tl]|e|] eqn:Hread;
        cbn [mbind result_bind]; [apply IH; lia|discriminate|destruct Hout]. }
    destruct (bool_decide (ch = 32%N)); [apply IH; lia|].
    destruct (is_name_char U ch) eqn:Hname; [|discriminate].
    destruct (read_name_outcome exp i token_list ch Hi Hname) as (j & name & -> & Hj).
    cbn [mbind result_bind]. apply IH. lia.
Qed.

Lemma tokenize_total (exp : str) : tokenize U exp ≠ OutOfFuel.
Proof.
  unfold tokenize. destruct (bool_decide (exp = [])); [discriminate|].
  apply tokenize_loop_total. lia.
Qed.

(** The token list that [read_number] and [read_name] are given decides
    nothing: they append to it. *)
Lemma read_number_append (exp : str) (start : nat) (token_list : list Token) :
  read_number U exp start token_list
  = '(j, tokens) ← read_number U exp start []; Ok (j, token_list ++ tokens).
Proof.
  unfold read_number.
  destruct (read_number_loop U (drop start exp) st_start start) as [[[state is_end] i]|e|];
    cbn [mbind result_bind]; [|reflexivity..].
  destruct (allows state st_end).
  - destruct (decide (state = st_int)).
    + destruct (py_int U (slice exp start i)); reflexivity.
    + destruct (py_float U (slice exp start i)); reflexivity.
  - destruct is_end.
    + destruct (py_index exp (Z.of_nat i - 1)); reflexivity.
    + destruct (py_index exp (Z.of_nat i)); reflexivity.
Qed.

Lemma read_name_append (exp : str) (start : nat) (token_list : list Token) :
  read_name U exp start token_list
  = '(j, tokens) ← read_name U exp start []; Ok (j, token_list ++ tokens).
Proof.
  unfold read_name. destruct (new_TokenName _ start); reflexivity.
Qed.

(** The builtin exceptions of [read_number]: the [IndexError] of [exp[i]]
    and the [ValueError] of [int] and [float]. *)
Lemma read_number_builtin (exp : str) (start : nat) (token_list : list Token) kind msg :
  read_number U exp start token_list = Raise (Builtin kind msg) →
  msg = None ∧ (kind = IndexError ∨ kind = ValueError).
Proof.
  unfold read_number.
  destruct (read_number_loop U (drop start exp) st_start start)
    as [[[state is_end] i]|e|] eqn:Hloop; cbn [mbind result_bind]; [| |discriminate].
  - destruct (allows state st_end).
    + destruct (decide (state = st_int)).
      * destruct (py_int_outcome (slice exp start i)) as [[n ->]| ->];
          cbn [fmap result_fmap mbind result_bind]; [discriminate|].
        intros [= <- <-]. auto.
      * destruct (py_float_outcome (slice exp start i)) as [[x ->]| ->];
          cbn [fmap result_fmap mbind result_bind]; [discriminate|].
        intros [= <- <-]. auto.
    + destruct is_end.
      * destruct (py_index exp (Z.of_nat i - 1)) as [?|e|] eqn:Hidx;
          cbn [mbind result_bind]; try discriminate.
        apply py_index_builtin in Hidx as ->. intros [= <- <-]. auto.
      * destruct (py_index exp (Z.of_nat i)) as [?|e|] eqn:Hidx;
          cbn [mbind result_bind]; try discriminate.
        apply py_index_builtin in Hidx as ->. intros [= <- <-]. auto.
  - apply read_number_loop_raise in Hloop as (m & p & -> & _). discriminate.
Qed.

(** The loop of [tokenize] and the scans it starts: a builtin exception is
    that of the last scan, and no scan before the last slips. *)
Lemma tokenize_loop_scans (exp : str) (fuel : nat) :
  ∀ i token_list,
    (length exp ≤ fuel + i)%nat →
    match tokenize_loop U exp fuel i token_list with
    | Ok _ =>
      Forall (λ start, ¬ number_scan_slips U exp start) (number_scans_loop U exp fuel i)
    | Raise (ParsingException msg pos) =>
      (∃ p : nat, pos = Z.of_nat p ∧ (p < length exp)%nat)
      ∧ Forall (λ start, ¬ number_scan_slips U exp start) (number_scans_loop U exp fuel i)
    | Raise (Builtin kind msg) =>
      msg = None ∧ (kind = IndexError ∨ kind = ValueError)
      ∧ ∃ start, last (number_scans_loop U exp fuel i) = Some start
                 ∧ number_scan_slips U exp start
                 ∧ read_number U exp start [] = Raise (Builtin kind msg)
    | Raise (EvaluationException _ _) => False
    | OutOfFuel => False
    end.
Proof.
  induction fuel as [|fuel IH]; intros i token_list Hfuel.
  - cbn [tokenize_loop number_scans_loop]. destruct (exp !! i) eqn:Hi; [|constructor].
    apply lookup_lt_Some in Hi. lia.
  - cbn [tokenize_loop number_scans_loop].
    destruct (exp !! i) as [ch|] eqn:Hi; [|constructor].
    pose proof (lookup_lt_Some _ _ _ Hi) as Hlt.
    destruct (is_op ch || bool_decide ([ch] ∈ VALID_SEPARATORS)); [apply IH; lia|].
    destruct (bool_decide ([ch] = Separators.SEP_LEFT_BRACKET)); [apply IH; lia|].
    destruct (bool_decide ([ch] = Separators.SEP_RIGHT_BRACKET)); [apply IH; lia|].
    destruct (bool_decide ([ch] = Separators.SEP_DOT) || isnumeric U ch) eqn:Hnum.
    { assert (Hnum' : [ch] = Separators.SEP_DOT ∨ isnumeric U ch = true).
      { apply orb_true_iff in Hnum as [H|H]; [left; eapply bool_decide_eq_true_1, H|auto]. }
      pose proof (read_number_outcome exp i [] ch Hi Hnum') as Hout.
      rewrite read_number_append.
      destruct (read_number U exp i []) as [[j tl]|e|] eqn:Hread; cbn [mbind result_bind].
      - assert (Hhere : ¬ number_scan_slips U exp i).
        { intros (_ & tl' & kind & msg & Hslip). rewrite read_number_append, Hread in Hslip.
          discriminate Hslip. }
        specialize (IH j (token_list ++ tl) ltac:(lia)).
        destruct (tokenize_loop U exp fuel j (token_list ++ tl)) as [tokens|[msg pos| |kind msg]|];
          try exact IH.
        + constructor; assumption.
        + destruct IH as [Hpos Hscans]. split; [exact Hpos|constructor; assumption].
        + destruct IH as (Hmsg & Hkind & start & Hlast & Hslip).
          split; [exact Hmsg|]. split; [exact Hkind|]. exists start. split; [|exact Hslip].
          destruct (number_scans_loop U exp fuel j); [discriminate Hlast|exact Hlast].
      - destruct Hout as [(msg & p & -> & Hp)|(kind & ->)].
        + split; [eauto|]. constructor; [|constructor].
          intros (_ & tl' & kind & msg' & Hslip). rewrite read_number_append, Hread in Hslip.
          discriminate Hslip.
        + destruct (read_number_builtin _ _ _ _ _ Hread) as [_ Hkind].
          split; [reflexivity|]. split; [exact Hkind|]. exists i.
          split; [reflexivity|]. split; [|exact Hread].
          split; [eauto|]. eauto.
      - destruct Hout. }
    destruct (bool_decide (ch = 32%N)); [apply IH; lia|].
    destruct (is_name_char U ch) eqn:Hname.
    { destruct (read_name_outcome exp i [] ch Hi Hname) as (j & name & Hread & Hj).
      rewrite read_name_append, Hread. cbn [mbind result_bind]. apply IH. lia. }
    split; [eauto|constructor].
Qed.
End TokenizerProperties.

(** C8: a numeric literal is an [int] exactly when every character that
    [read_number] has scanned is numeric, that is, when the state has gone
    from start to int and has not left it, and a [float] otherwise: "100" is
    the int 100; "100.", ".2" and "3e10" are the floats 100.0, 0.2 and
    3e10. *)
#[warnings="-inexact-float"]
Theorem number_literal_typing :
  (∀ U (exp : str) (start : nat) (token_list : list Token) j token_list',
      read_number U exp start token_list = Ok (j, token_list') →
      ∃ num, token_list' = token_list ++ [TokenNumber num start]
             ∧ ((∃ n, num = PyInt n)
                ↔ Forall (λ ch, isnumeric U ch = true) (slice exp start j))
             ∧ ((∃ x, num = PyFloat x)
                ↔ ¬ Forall (λ ch, isnumeric U ch = true) (slice exp start j)))
  ∧ tokenize latin_greek (py "100") = Ok [TokenNumber (PyInt 100) 0]
  ∧ tokenize latin_greek (py "100.") = Ok [TokenNumber (PyFloat 100) 0]
  ∧ tokenize latin_greek (py ".2") = Ok [TokenNumber (PyFloat 0.2) 0]
  ∧ tokenize latin_greek (py "3e10") = Ok [TokenNumber (PyFloat 3e10) 0].
Proof.
  split; [exact read_number_typing|].
  repeat split; vm_compute; reflexivity.
Qed.

(** The literal of "1 + 100." at index 4. *)
Lemma number_literal_typing_witness :
  ∃ num, [TokenNumber (PyFloat 100) 4] = [] ++ [TokenNumber num 4]
         ∧ ((∃ n, num = PyInt n)
            ↔ Forall (λ ch, isnumeric latin_greek ch = true) (slice (py "1 + 100.") 4 8))
         ∧ ((∃ x, num = PyFloat x)
            ↔ ¬ Forall (λ ch, isnumeric latin_greek ch = true) (slice (py "1 + 100.") 4 8)).
Proof.
  apply (proj1 number_literal_typing latin_greek (py "1 + 100.") 4%nat []).
  vm_compute. reflexivity.
Defined.

(** C2, as the code has it: the empty string fails with the builtin
    [ValueError] "exp is empty", not with a parsing error.  Every other
    string gives the token list or a [ParsingException] whose position is an
    index of the string, when none of the scans of a number that the loop
    of [tokenize] starts ([number_scans]) slips; and a builtin exception
    that leaves [tokenize] is the [IndexError] or the [ValueError] of the
    last of these scans. *)
Theorem tokenize_tokens_or_parsing_error :
  (∀ U, tokenize U [] = Raise (Builtin ValueError (Some (py "exp is empty"))))
  ∧ (∀ U (exp : str),
        exp ≠ [] →
        (∀ start, start ∈ number_scans U exp → ¬ number_scan_slips U exp start) →
        (∃ tokens, tokenize U exp = Ok tokens)
        ∨ (∃ msg (p : nat),
              tokenize U exp = Raise (ParsingException msg (Z.of_nat p))
              ∧ (p < length exp)%nat))
  ∧ (∀ U (exp : str) kind msg,
        exp ≠ [] →
        tokenize U exp = Raise (Builtin kind msg) →
        msg = None ∧ (kind = IndexError ∨ kind = ValueError)
        ∧ ∃ start,
            last (number_scans U exp) = Some start
            ∧ number_scan_slips U exp start
            ∧ read_number U exp start [] = Raise (Builtin kind msg)).
Proof.
  split; [reflexivity|]. split.
  - intros U exp Hne Hscans.
    pose proof (tokenize_loop_scans U exp (length exp) 0 [] ltac:(lia)) as H.
    unfold tokenize. rewrite bool_decide_eq_false_2 by exact Hne.
    destruct (tokenize_loop U exp (length exp) 0 []) as [tokens|[msg pos| |kind msg]|];
      [eauto| | | |destruct H].
    + destruct H as [(p & -> & Hp) _]. eauto.
    + destruct H.
    + destruct H as (_ & _ & start & Hlast & Hslip & _).
      exfalso. apply (Hscans start); [|exact Hslip].
      apply last_Some in Hlast as [scans Hlast]. unfold number_scans. rewrite Hlast.
      set_solver.
  - intros U exp kind msg Hne.
    pose proof (tokenize_loop_scans U exp (length exp) 0 [] ltac:(lia)) as H.
    unfold tokenize. rewrite bool_decide_eq_false_2 by exact Hne.
    intros Hraise. rewrite Hraise in H. exact H.
Qed.

(** "5. + 1": the loop starts a scan at the indices 0 and 5, and neither
    slips; a scan from the dot at index 1, which the loop does not start,
    would. *)
Lemma tokenize_tokens_or_parsing_error_witness :
  (∃ tokens, tokenize latin_greek (py "5. + 1") = Ok tokens)
  ∨ (∃ msg (p : nat),
        tokenize latin_greek (py "5. + 1") = Raise (ParsingException msg (Z.of_nat p))
        ∧ (p < length (py "5. + 1"))%nat).
Proof.
  apply (proj1 (proj2 tokenize_tokens_or_parsing_error) latin_greek (py "5. + 1")).
  - vm_compute. discriminate.
  - intros start Hstart (_ & token_list & kind & msg & Hread).
    rewrite read_number_append in Hread.
    change (number_scans latin_greek (py "5. + 1")) with [0; 5]%nat in Hstart.
    apply elem_of_cons in Hstart as [->|Hstart];
      [vm_compute in Hread; discriminate Hread|].
    apply elem_of_cons in Hstart as [->|Hstart];
      [vm_compute in Hread; discriminate Hread|].
    inversion Hstart.
Defined.

(** The claim C2 fails at the three inputs it names: the empty string raises
    the builtin [ValueError] of line 117; "3e" raises the [IndexError] of
    [exp[i]] at line 101, where [i] is the length of the string; "3e+"
    raises the [ValueError] of [float] at line 93. *)
Lemma tokenize_raises_builtin_errors :
  tokenize latin_greek (py "") = Raise (Builtin ValueError (Some (py "exp is empty")))
  ∧ tokenize latin_greek (py "3e") = Raise (Builtin IndexError None)
  ∧ tokenize latin_greek (py "3e+") = Raise (Builtin ValueError None).
Proof. repeat split; vm_compute; reflexivity. Qed.

(** ** Positions of the parsing errors *)

Section InvalidCharacter.
Variable U : Unicode.
Variable ch : char.
Hypothesis Hinvalid : is_invalid_character U ch = true.

Lemma invalid_character_branches :
  is_op ch || bool_decide ([ch] ∈ VALID_SEPARATORS) = false
  ∧ bool_decide ([ch] = Separators.SEP_LEFT_BRACKET) = false
  ∧ bool_decide ([ch] = Separators.SEP_RIGHT_BRACKET) = false
  ∧ bool_decide ([ch] = Separators.SEP_DOT) = false
  ∧ isnumeric U ch = false
  ∧ bool_decide (ch = 32%N) = false
  ∧ is_name_char U ch = false
  ∧ isalpha U ch = false
  ∧ bool_decide ([ch] = UnaryOperators.OP_NEGATIVE ∨ [ch] = UnaryOperators.OP_POSITIVE)
    = false.
Proof using Hinvalid.
  unfold is_invalid_character in Hinvalid.
  repeat (apply andb_true_iff in Hinvalid as [Hinvalid ?]).
  repeat match goal with H : negb _ = true |- _ => apply negb_true_iff in H end.
  repeat match goal with H : _ || _ = false |- _ => apply orb_false_iff in H as [? ?] end.
  assert (Halpha : isalpha U ch = false).
  { unfold is_name_char in *.
    repeat match goal with H : _ || _ = false |- _ => apply orb_false_iff in H as [? ?] end.
    assumption. }
  assert (Hsign : bool_decide ([ch] = UnaryOperators.OP_NEGATIVE
                               ∨ [ch] = UnaryOperators.OP_POSITIVE) = false).
  { apply bool_decide_eq_false_2. intros [E|E]; injection E as ->;
      match goal with H : is_op _ = false |- _ => vm_compute in H; discriminate H end. }
  repeat split; try assumption.
  apply orb_false_iff. split; assumption.
Qed.

Lemma read_number_loop_extend (rest post : str) (state : nstate) (i : nat) state' is_end j :
  read_number_loop U rest state i = Ok (state', is_end, j) →
  read_number_loop U (rest ++ ch :: post) state i = Ok (state', true, j).
Proof using Hinvalid.
  destruct invalid_character_branches as (_ & _ & _ & Hdot & Hnum & _ & _ & Halpha & Hsign).
  revert state i. induction rest as [|c rest IH]; intros state i.
  - cbn [app]. intros Hloop. cbn [read_number_loop] in Hloop. simplify_eq.
    rewrite read_number_loop_cons, Hnum, Hdot, Halpha, Hsign. reflexivity.
  - cbn [app]. rewrite !read_number_loop_cons. cbv zeta.
    repeat case_match; try discriminate; try apply IH.
    all: intros ?; simplify_eq; reflexivity.
Qed.

Lemma read_number_extend (exp post : str) (start : nat) (token_list : list Token) r :
  (start ≤ length exp)%nat →
  read_number U exp start token_list = Ok r →
  read_number U (exp ++ ch :: post) start token_list = Ok r.
Proof using Hinvalid.
  intros Hstart. unfold read_number. rewrite drop_app_le by exact Hstart.
  destruct (read_number_loop U (drop start exp) st_start start)
    as [[[state is_end] i]| |] eqn:Hloop; cbn [mbind result_bind]; try discriminate.
  pose proof (read_number_loop_range _ _ _ _ _ _ _ Hloop) as (Hi & _ & _).
  rewrite length_drop in Hi.
  rewrite (read_number_loop_extend _ post _ _ _ _ _ Hloop). cbn [mbind result_bind].
  destruct (allows state st_end).
  - assert (Hslice : slice (exp ++ ch :: post) start i = slice exp start i).
    { unfold slice. rewrite drop_app_le by exact Hstart.
      apply take_app_le. rewrite length_drop. lia. }
    rewrite Hslice. auto.
  - destruct is_end.
    + destruct (py_index exp (Z.of_nat i - 1)); cbn [mbind result_bind]; discriminate.
    + destruct (py_index exp (Z.of_nat i)); cbn [mbind result_bind]; discriminate.
Qed.

Lemma read_name_loop_extend (rest post : str) (i : nat) :
  read_name_loop U (rest ++ ch :: post) i = read_name_loop U rest i.
Proof using Hinvalid.
  destruct invalid_character_branches as (_ & _ & _ & _ & _ & _ & Hname & _).
  revert i. induction rest as [|c rest IH]; intros i; cbn [app read_name_loop].
  - rewrite Hname. reflexivity.
  - case_match; [apply IH|reflexivity].
Qed.

Lemma read_name_extend (exp post : str) (start : nat) (token_list : list Token) :
  (start ≤ length exp)%nat →
  read_name U (exp ++ ch :: post) start token_list = read_name U exp start token_list.
Proof using Hinvalid.
  intros Hstart. unfold read_name. rewrite drop_app_le by exact Hstart.
  rewrite read_name_loop_extend.
  pose proof (read_name_loop_range U (drop start exp) start) as Hrange.
  rewrite length_drop in Hrange.
  assert (Hslice : slice (exp ++ ch :: post) start (read_name_loop U (drop start exp) start)
                   = slice exp start (read_name_loop U (drop start exp) start)).
  { unfold slice. rewrite drop_app_le by exact Hstart.
    apply take_app_le. rewrite length_drop. lia. }
  rewrite Hslice. reflexivity.
Qed.

Lemma tokenize_loop_at_invalid (exp post : str) (fuel : nat) (token_list : list Token) :
  tokenize_loop U (exp ++ ch :: post) (S fuel) (length exp) token_list
  = Raise (ParsingException (invalid_character ch) (Z.of_nat (length exp))).
Proof using Hinvalid.
  destruct invalid_character_branches
    as (Hop & Hleft & Hright & Hdot & Hnum & Hspace & Hname & _).
  cbn [tokenize_loop]. rewrite list_lookup_middle by reflexivity.
  rewrite Hop, Hleft, Hright, Hdot, Hnum, Hspace, Hname. reflexivity.
Qed.

Lemma tokenize_loop_extend (exp post : str) (fuel : nat) :
  ∀ i token_list tokens fuel',
    tokenize_loop U exp fuel i token_list = Ok tokens →
    (i ≤ length exp)%nat → (fuel < fuel')%nat →
    tokenize_loop U (exp ++ ch :: post) fuel' i token_list
    = Raise (ParsingException (invalid_character ch) (Z.of_nat (length exp))).
Proof using Hinvalid.
  assert (Hend : ∀ i token_list fuel', exp !! i = None → (i ≤ length exp)%nat →
    (0 < fuel')%nat →
    tokenize_loop U (exp ++ ch :: post) fuel' i token_list
    = Raise (ParsingException (invalid_character ch) (Z.of_nat (length exp)))).
  { intros i token_list fuel' Hi Hle Hfuel. apply lookup_ge_None in Hi.
    assert (i = length exp) as -> by lia.
    destruct fuel' as [|fuel']; [lia|]. apply tokenize_loop_at_invalid. }
  induction fuel as [|fuel IH]; intros i token_list tokens fuel' Hrun Hi Hfuel.
  - cbn [tokenize_loop] in Hrun. destruct (exp !! i) eqn:Hlook; [discriminate|].
    apply Hend; [exact Hlook|exact Hi|lia].
  - cbn [tokenize_loop] in Hrun. destruct (exp !! i) as [c|] eqn:Hlook;
      [|apply Hend; [exact Hlook|exact Hi|lia]].
    pose proof (lookup_lt_Some _ _ _ Hlook) as Hlt.
    destruct fuel' as [|fuel']; [lia|].
    cbn [tokenize_loop]. rewrite lookup_app_l by exact Hlt. rewrite Hlook.
    destruct (is_op c || bool_decide ([c] ∈ VALID_SEPARATORS));
      [eapply IH; [exact Hrun|lia|lia]|].
    destruct (bool_decide ([c] = Separators.SEP_LEFT_BRACKET));
      [eapply IH; [exact Hrun|lia|lia]|].
    destruct (bool_decide ([c] = Separators.SEP_RIGHT_BRACKET));
      [eapply IH; [exact Hrun|lia|lia]|].
    destruct (bool_decide ([c] = Separators.SEP_DOT) || isnumeric U c) eqn:Hnum.
    { assert (Hnum' : [c] = Separators.SEP_DOT ∨ isnumeric U c = true).
      { apply orb_true_iff in Hnum as [H|H]; [left; eapply bool_decide_eq_true_1, H|auto]. }
      pose proof (read_number_outcome U exp i token_list c Hlook Hnum') as Hout.
      destruct (read_number U exp i token_list) as [[j tl]|e|] eqn:Hread;
        cbn [mbind result_bind] in Hrun; try discriminate.
      rewrite (read_number_extend exp post i token_list (j, tl)) by (lia || exact Hread).
      cbn [mbind result_bind]. eapply IH; [exact Hrun|lia|lia]. }
    destruct (bool_decide (c = 32%N)); [eapply IH; [exact Hrun|lia|lia]|].
    destruct (is_name_char U c) eqn:Hname; [|discriminate].
    rewrite read_name_extend by lia.
    destruct (read_name_outcome U exp i token_list c Hlook Hname) as (j & name & Hread & Hj).
    rewrite Hread in Hrun |- *. cbn [mbind result_bind] in Hrun |- *.
    eapply IH; [exact Hrun|lia|lia].
Qed.

Lemma tokenize_invalid_character (pre post : str) :
  pre = [] ∨ (∃ tokens, tokenize U pre = Ok tokens) →
  tokenize U (pre ++ ch :: post)
  = Raise (ParsingException (invalid_character ch) (Z.of_nat (length pre))).
Proof using Hinvalid.
  intros Hpre. unfold tokenize.
  rewrite bool_decide_eq_false_2 by (destruct pre; discriminate).
  destruct Hpre as [->|[tokens Hpre]].
  - apply (tokenize_loop_at_invalid [] post).
  - unfold tokenize in Hpre.
    destruct (bool_decide (pre = [])); [discriminate|].
    eapply tokenize_loop_extend; [exact Hpre|lia|].
    rewrite length_app. cbn [length]. lia.
Qed.
End InvalidCharacter.

(** The tokens of the string are where their positions say, and the
    positions of the exceptions of [tokenize] are indices of the string. *)
Section TokenPositions.
Variable U : Unicode.
Variable exp : list N.

Lemma token_starts_at_lt token :
  token_starts_at U exp token → (token_pos token < length exp)%nat.
Proof.
  destruct token; cbn [token_starts_at token_pos].
  - intros (j & _ & Hj). lia.
  - intros (ch & Hch & _). eapply lookup_lt_Some, Hch.
  - intros (ch & Hch & _). eapply lookup_lt_Some, Hch.
  - apply lookup_lt_Some.
  - apply lookup_lt_Some.
Qed.

Lemma read_number_loop_message (rest : list N) (state : nstate) (i : nat) msg pos :
  read_number_loop U rest state i = Raise (ParsingException msg pos) →
  take 3 msg = py "inv".
Proof.
  revert state i. induction rest as [|ch rest IH]; intros state i.
  - cbn [read_number_loop]. discriminate.
  - rewrite read_number_loop_cons. cbv zeta.
    repeat case_match; try discriminate; try apply IH;
      intros ?; simplify_eq; reflexivity.
Qed.

Lemma read_number_message (start : nat) (token_list : list Token) msg pos :
  read_number U exp start token_list = Raise (ParsingException msg pos) →
  take 3 msg = py "inv".
Proof.
  unfold read_number.
  destruct (read_number_loop U (drop start exp) st_start start)
    as [[[state is_end] i]|e|] eqn:Hloop; cbn [mbind result_bind]; try discriminate.
  - destruct (allows state st_end).
    + destruct (decide (state = st_int)).
      * destruct (py_int_outcome U (slice exp start i)) as [[n ->]| ->];
          cbn [fmap result_fmap mbind result_bind]; discriminate.
      * destruct (py_float_outcome U (slice exp start i)) as [[x ->]| ->];
          cbn [fmap result_fmap mbind result_bind]; discriminate.
    + destruct is_end.
      * destruct (py_index exp (Z.of_nat i - 1)) as [ch|e|] eqn:Hidx;
          cbn [mbind result_bind]; try discriminate.
        -- intros ?; simplify_eq. reflexivity.
        -- apply py_index_builtin in Hidx as ->. discriminate.
      * destruct (py_index exp (Z.of_nat i)) as [ch|e|] eqn:Hidx;
          cbn [mbind result_bind]; try discriminate.
        -- intros ?; simplify_eq. reflexivity.
        -- apply py_index_builtin in Hidx as ->. discriminate.
  - intros ?; simplify_eq. eapply read_number_loop_message, Hloop.
Qed.

Lemma read_name_token (start : nat) (token_list : list Token) j tokens :
  read_name U exp start token_list = Ok (j, tokens) →
  tokens = token_list ++ [TokenName (slice exp start j) start].
Proof.
  unfold read_name, new_TokenName. case_match; cbn [mbind result_bind]; [discriminate|].
  intros ?; simplify_eq. reflexivity.
Qed.

Lemma tokenize_loop_positions (fuel : nat) :
  ∀ i token_list,
    Forall (token_starts_at U exp) token_list →
    match tokenize_loop U exp fuel i token_list with
    | Ok tokens => Forall (token_starts_at U exp) tokens
    | Raise (ParsingException msg pos) =>
      (∃ p : nat, pos = Z.of_nat p ∧ (p < length exp)%nat)
      ∧ take 3 msg = py "inv"
    | _ => True
    end.
Proof.
  induction fuel as [|fuel IH]; intros i token_list Htokens.
  - cbn [tokenize_loop]. destruct (exp !! i); [exact I|exact Htokens].
  - cbn [tokenize_loop]. destruct (exp !! i) as [ch|] eqn:Hi; [|exact Htokens].
    pose proof (lookup_lt_Some _ _ _ Hi) as Hlt.
    assert (Hadd : ∀ token, token_starts_at U exp token →
      Forall (token_starts_at U exp) (token_list ++ [token])).
    { intros token Htoken. apply Forall_app. split; [exact Htokens|].
      apply Forall_singleton, Htoken. }
    destruct (is_op ch || bool_decide ([ch] ∈ VALID_SEPARATORS)).
    { apply IH, Hadd. exists ch. split; [exact Hi|reflexivity]. }
    destruct (bool_decide ([ch] = Separators.SEP_LEFT_BRACKET)) eqn:Hleft.
    { apply IH, Hadd. apply bool_decide_eq_true_1 in Hleft. injection Hleft as ->. exact Hi. }
    destruct (bool_decide ([ch] = Separators.SEP_RIGHT_BRACKET)) eqn:Hright.
    { apply IH, Hadd. apply bool_decide_eq_true_1 in Hright. injection Hright as ->. exact Hi. }
    destruct (bool_decide ([ch] = Separators.SEP_DOT) || isnumeric U ch) eqn:Hnum.
    { assert (Hnum' : [ch] = Separators.SEP_DOT ∨ isnumeric U ch = true).
      { apply orb_true_iff in Hnum as [H|H]; [left; eapply bool_decide_eq_true_1, H|auto]. }
      pose proof (read_number_outcome U exp i token_list ch Hi Hnum') as Hout.
      destruct (read_number U exp i token_list) as [[j tl]|e|] eqn:Hread;
        cbn [mbind result_bind].
      - apply IH. apply read_number_typing in Hread as (num & -> & _).
        apply Hadd. exists ch. auto.
      - destruct Hout as [(msg & p & -> & Hp)|(kind & ->)]; [|exact I].
        split; [eauto|]. eapply read_number_message, Hread.
      - exact I. }
    destruct (bool_decide (ch = 32%N)); [apply IH, Htokens|].
    destruct (is_name_char U ch) eqn:Hname.
    { destruct (read_name_outcome U exp i token_list ch Hi Hname) as (j & name & Hread & Hj).
      rewrite Hread. cbn [mbind result_bind]. apply IH.
      apply read_name_token in Hread as ->. apply Hadd.
      exists j. split; [reflexivity|lia]. }
    split; [eauto|]. reflexivity.
Qed.

Lemma tokenize_positions :
  match tokenize U exp with
  | Ok tokens => Forall (token_starts_at U exp) tokens
  | Raise (ParsingException msg pos) =>
    (∃ p : nat, pos = Z.of_nat p ∧ (p < length exp)%nat)
    ∧ take 3 msg = py "inv"
  | _ => True
  end.
Proof.
  unfold tokenize. destruct (bool_decide (exp = [])); [exact I|].
  apply tokenize_loop_positions. constructor.
Qed.
End TokenPositions.

(** ** The bound on the recursion of the parser *)

Section Fuel.
Variable token_list : list Token.

Lemma advances_Ok {A} (proj : A → nat) index (a : A) :
  (index ≤ proj a)%nat → advances proj index (Ok a).
Proof. intros H. split; [discriminate|]. intros ? [= <-]. exact H. Qed.

Lemma advances_Raise {A} (proj : A → nat) index e :
  advances proj index (Raise e : result A).
Proof. split; discriminate. Qed.

Lemma advances_bind {A B} (proj : B → nat) index (r : result A) (k : A → result B) :
  r ≠ OutOfFuel →
  (∀ a, r = Ok a → advances proj index (k a)) →
  advances proj index (r ≫= k).
Proof.
  intros Hr Hk. destruct r as [a|e|]; cbn [mbind result_bind].
  - apply Hk. reflexivity.
  - apply advances_Raise.
  - destruct Hr. reflexivity.
Qed.

Lemma advances_mono {A} (proj : A → nat) index index' (r : result A) :
  (index ≤ index')%nat → advances proj index' r → advances proj index r.
Proof. intros Hle [Hr Hok]. split; [exact Hr|]. intros a Ha. specialize (Hok a Ha). lia. Qed.

Lemma getitem_total {A} (seq : list A) i : getitem seq i ≠ OutOfFuel.
Proof. unfold getitem, raise_builtin. destruct (seq !! i); discriminate. Qed.

Lemma getitem_Ok {A} (seq : list A) i a : getitem seq i = Ok a → seq !! i = Some a.
Proof. unfold getitem, raise_builtin. destruct (seq !! i); congruence. Qed.

Lemma token_symbol_total token : token_symbol token ≠ OutOfFuel.
Proof. destruct token; discriminate. Qed.

Lemma read_postfix_unary_exp_advances index child :
  advances snd (index + 1) (read_postfix_unary_exp token_list index child).
Proof.
  unfold read_postfix_unary_exp.
  apply advances_bind; [apply getitem_total|]. intros token _.
  apply advances_bind; [apply token_symbol_total|]. intros symbol _.
  apply advances_Ok. cbn [snd]. lia.
Qed.

Local Abbreviation len := (length token_list).

Lemma parse_fuel_enough (fuel : nat) :
  (∀ index, (4 * (len - index) + 3 ≤ fuel)%nat →
     advances snd index (read_exp_chain token_list fuel index))
  ∧ (∀ index, (4 * (len - index) + 2 ≤ fuel)%nat →
       advances snd index (read_exp token_list fuel index))
  ∧ (∀ index, (index < len)%nat → (4 * (len - index) + 1 ≤ fuel)%nat →
       advances snd index (read_bracket_exp token_list fuel index))
  ∧ (∀ index, (index < len)%nat → (4 * (len - index) + 2 ≤ fuel)%nat →
       advances snd index (read_prefix_unary_exp token_list fuel index))
  ∧ (∀ index left_, (index < len)%nat → (4 * (len - index) + 1 ≤ fuel)%nat →
       advances snd index (read_binary_exp token_list fuel index left_))
  ∧ (∀ index, (index < len)%nat → (4 * (len - index) + 1 ≤ fuel)%nat →
       advances snd index (read_func_call token_list fuel index))
  ∧ (∀ i args, (4 * (len - i) + 4 ≤ fuel)%nat →
       advances fst i (read_func_call_loop token_list fuel i args)).
Proof.
  induction fuel as [|fuel (IHchain & IHexp & IHbracket & IHprefix & IHbinary & IHcall & IHloop)].
  { repeat (split; [intros; lia|]). intros; lia. }
  refine (conj _ (conj _ (conj _ (conj _ (conj _ (conj _ _)))))).
  - (* read_exp_chain *)
    intros index Hfuel. cbn [read_exp_chain].
    apply advances_bind; [apply getitem_total|]. intros token Htoken.
    apply getitem_Ok, lookup_lt_Some in Htoken.
    assert (Hatom : advances snd index (read_exp token_list fuel index))
      by (apply IHexp; lia).
    assert (Hprefix : advances snd index (read_prefix_unary_exp token_list fuel index))
      by (apply IHprefix; lia).
    match goal with |- advances _ _ (?r ≫= _) => assert (Hfirst : advances snd index r) end.
    { destruct (isinstance_TokenSymbol token); [|exact Hatom].
      apply advances_bind; [apply token_symbol_total|]. intros symbol _.
      destruct (is_open_bracket token); [exact Hatom|].
      destruct (is_unary_op symbol); [|apply advances_Raise].
      destruct (unary_affix_is symbol PREFIX); [exact Hprefix|apply advances_Raise]. }
    apply advances_bind; [apply Hfirst|]. intros [node i] Hi.
    apply Hfirst in Hi. cbn [snd] in Hi.
    destruct (i <? len)%nat eqn:Hlt; [|apply advances_Ok; exact Hi].
    apply advances_bind; [apply getitem_total|]. intros next_token _.
    match goal with |- advances _ _ (?r ≫= _) => assert (Hpost : advances snd i r) end.
    { destruct (isinstance_TokenSymbol next_token); [|apply advances_Ok; cbn [snd]; lia].
      apply advances_bind; [apply token_symbol_total|]. intros symbol _.
      destruct (is_unary_op symbol && unary_affix_is symbol POSTFIX);
        [|apply advances_Ok; cbn [snd]; lia].
      eapply advances_mono; [|apply read_postfix_unary_exp_advances]. lia. }
    apply advances_bind; [apply Hpost|]. intros [node0 i0] Hi0.
    apply Hpost in Hi0. cbn [snd] in Hi0.
    destruct (i0 <? len)%nat eqn:Hlt0; [|apply advances_Ok; cbn [snd]; lia].
    apply Nat.ltb_lt in Hlt0.
    apply advances_bind; [apply getitem_total|]. intros next_token0 _.
    destruct (is_close_bracket next_token0); [apply advances_Ok; cbn [snd]; lia|].
    destruct (isinstance_TokenSymbol next_token0); [|apply advances_Raise].
    apply advances_bind; [apply token_symbol_total|]. intros symbol _.
    destruct (bool_decide (symbol = Separators.SEP_COMMA));
      [apply advances_Ok; cbn [snd]; lia|].
    destruct (contains BINOP_TABLE symbol); [|apply advances_Raise].
    eapply advances_mono; [|apply IHbinary]; lia.
  - (* read_exp *)
    intros index Hfuel. cbn [read_exp].
    destruct (len <=? index)%nat eqn:Hle.
    { apply advances_bind; [apply py_index_total|]. intros last _. apply advances_Raise. }
    apply Nat.leb_gt in Hle.
    apply advances_bind; [apply getitem_total|]. intros token _.
    destruct token as [name pos|num pos|symbol pos|pos|pos];
      try apply advances_Raise; try (apply advances_Ok; cbn [snd]; lia).
    + destruct (index + 1 <? len)%nat; [|apply advances_Ok; cbn [snd]; lia].
      apply advances_bind; [apply getitem_total|]. intros next_token _.
      destruct (is_open_bracket next_token); [|apply advances_Ok; cbn [snd]; lia].
      apply IHcall; lia.
    + apply IHbracket; lia.
  - (* read_bracket_exp *)
    intros index Hlt Hfuel. cbn [read_bracket_exp].
    assert (Hchain : advances snd (index + 1) (read_exp_chain token_list fuel (index + 1)))
      by (apply IHchain; lia).
    apply advances_bind; [apply Hchain|]. intros [node i] Hi.
    apply Hchain in Hi. cbn [snd] in Hi.
    destruct (token_list !! i) as [[| | | |p]|];
      try (apply advances_bind; [apply getitem_total|]; intros token _; apply advances_Raise).
    apply advances_Ok. cbn [snd]. lia.
  - (* read_prefix_unary_exp *)
    intros index Hlt Hfuel. cbn [read_prefix_unary_exp].
    assert (Hatom : advances snd (index + 1) (read_exp token_list fuel (index + 1)))
      by (apply IHexp; lia).
    apply advances_bind; [apply Hatom|]. intros [node i] Hi.
    apply Hatom in Hi. cbn [snd] in Hi.
    apply advances_bind; [apply getitem_total|]. intros token _.
    apply advances_bind; [apply token_symbol_total|]. intros symbol _.
    apply advances_Ok. cbn [snd]. lia.
  - (* read_binary_exp *)
    intros index left_ Hlt Hfuel. cbn [read_binary_exp].
    assert (Hchain : advances snd (index + 1) (read_exp_chain token_list fuel (index + 1)))
      by (apply IHchain; lia).
    apply advances_bind; [apply Hchain|]. intros [right_ i] Hi.
    apply Hchain in Hi. cbn [snd] in Hi.
    apply advances_bind; [apply getitem_total|]. intros token _.
    apply advances_bind; [apply token_symbol_total|]. intros symbol _.
    destruct right_; try (apply advances_Ok; cbn [snd]; lia).
    apply advances_bind; [apply getitem_total|]. intros after _.
    destruct (negb (is_open_bracket after));
      [destruct (is_higher_or_equal_op_priority _ _ _)|];
      apply advances_Ok; cbn [snd]; lia.
  - (* read_func_call *)
    intros index Hlt Hfuel. cbn [read_func_call].
    apply advances_bind; [apply getitem_total|]. intros name_token _.
    assert (Hloop : advances fst (index + 2)
                      (read_func_call_loop token_list fuel (index + 2) []))
      by (apply IHloop; lia).
    apply advances_bind; [apply Hloop|]. intros [i args] Hi.
    apply Hloop in Hi. cbn [fst] in Hi.
    destruct (token_list !! i) as [[| | | |p]|]; try apply advances_Raise.
    destruct name_token; try apply advances_Raise.
    apply advances_Ok. cbn [snd]. lia.
  - (* read_func_call_loop *)
    intros i args Hfuel. cbn [read_func_call_loop].
    destruct (token_list !! i) as [token|] eqn:Htoken;
      [|apply advances_Ok; cbn [fst]; lia].
    apply lookup_lt_Some in Htoken.
    assert (Hchain : advances snd i (read_exp_chain token_list fuel i))
      by (apply IHchain; lia).
    assert (Harg : advances fst i
      ('(node, i0) ← read_exp_chain token_list fuel i;
       let args0 := args ++ [node] in
       match token_list !! i0 with
       | Some token0 =>
         if is_comma token0 then read_func_call_loop token_list fuel (i0 + 1) args0
         else Ok (i0, args0)
       | None => Ok (i0, args0)
       end)).
    { apply advances_bind; [apply Hchain|]. intros [node i0] Hi0.
      apply Hchain in Hi0. cbn [snd] in Hi0. cbv zeta.
      destruct (token_list !! i0) as [token0|] eqn:Htoken0;
        [|apply advances_Ok; cbn [fst]; lia].
      apply lookup_lt_Some in Htoken0.
      destruct (is_comma token0); [|apply advances_Ok; cbn [fst]; lia].
      eapply advances_mono; [|apply IHloop]; lia. }
    destruct token; try exact Harg. apply advances_Ok. cbn [fst]. lia.
Qed.

Lemma build_expression_tree_total : build_expression_tree token_list ≠ OutOfFuel.
Proof.
  unfold build_expression_tree.
  destruct (parse_fuel_enough (parse_fuel token_list)) as (Hchain & _).
  specialize (Hchain 0%nat). unfold parse_fuel in *.
  destruct Hchain as [Hfuel _]; [lia|].
  destruct (read_exp_chain token_list (4 * len + 4) 0) as [[node i]| |];
    cbn [mbind result_bind]; [|discriminate|congruence].
  repeat case_match; discriminate.
Qed.
End Fuel.

(** [parse_expression] does not depend on the bounds of the model. *)
Lemma parse_expression_total (U : Unicode) (exp : str) :
  parse_expression U exp ≠ OutOfFuel.
Proof.
  unfold parse_expression.
  destruct (tokenize U exp) as [tokens|e|] eqn:Htokens; cbn [mbind result_bind].
  - apply build_expression_tree_total.
  - discriminate.
  - exfalso. revert Htokens. apply tokenize_total.
Qed.

(** ** The exceptions of the parser *)

Section ParserErrors.
Variable token_list : list Token.

Lemma raises_at_token_Ok {A} (a : A) : raises_at_token token_list (Ok a).
Proof. intros e. discriminate. Qed.

Lemma raises_at_token_builtin {A} kind : raises_at_token token_list (raise_builtin kind : result A).
Proof. intros e [= <-]. exact I. Qed.

Lemma raises_at_token_bind {A B} (r : result A) (k : A → result B) :
  raises_at_token token_list r →
  (∀ a, r = Ok a → raises_at_token token_list (k a)) →
  raises_at_token token_list (r ≫= k).
Proof.
  intros Hr Hk. destruct r as [a|e|]; cbn [mbind result_bind].
  - apply Hk. reflexivity.
  - intros e' [= <-]. apply Hr. reflexivity.
  - discriminate.
Qed.

Lemma raises_at_token_other {A} token msg :
  token ∈ token_list →
  msg ≠ py "unmatch '('" → msg ≠ py "unclose func call" →
  raises_at_token token_list (Raise (ParsingException msg (Z.of_nat (token_pos token))) : result A).
Proof.
  intros Hin H1 H2 e [= <-]. exists token. repeat split; [exact Hin| |]; intros; congruence.
Qed.

Lemma unexpected_symbol_message symbol :
  unexpected_symbol symbol ≠ py "unmatch '('"
  ∧ unexpected_symbol symbol ≠ py "unclose func call".
Proof. split; intros H; vm_compute in H; discriminate H. Qed.

Lemma not_a_prefix_operator_message symbol :
  not_a_prefix_operator symbol ≠ py "unmatch '('"
  ∧ not_a_prefix_operator symbol ≠ py "unclose func call".
Proof. split; intros H; vm_compute in H; discriminate H. Qed.

Lemma unexpected_token_message :
  py "unexpected token" ≠ py "unmatch '('"
  ∧ py "unexpected token" ≠ py "unclose func call".
Proof. split; intros H; vm_compute in H; discriminate H. Qed.

Lemma getitem_raises {A} (seq : list A) i : raises_at_token token_list (getitem seq i).
Proof. unfold getitem. destruct (seq !! i); [apply raises_at_token_Ok|apply raises_at_token_builtin]. Qed.

Lemma getitem_elem_of {A} (seq : list A) i a : getitem seq i = Ok a → a ∈ seq.
Proof.
  unfold getitem, raise_builtin. destruct (seq !! i) eqn:H; [|discriminate].
  intros [= <-]. eapply list_elem_of_lookup_2, H.
Qed.

Lemma getitem_lookup {A} (seq : list A) i a : getitem seq i = Ok a → seq !! i = Some a.
Proof. unfold getitem, raise_builtin. destruct (seq !! i); congruence. Qed.

Lemma token_symbol_raises token : raises_at_token token_list (token_symbol token).
Proof. destruct token; first [apply raises_at_token_Ok | apply raises_at_token_builtin]. Qed.

Lemma py_index_raises {A} (seq : list A) i : raises_at_token token_list (py_index seq i).
Proof. intros e He. apply py_index_builtin in He as ->. exact I. Qed.

Lemma py_index_elem_of {A} (seq : list A) i a : py_index seq i = Ok a → a ∈ seq.
Proof.
  unfold py_index. intros H.
  repeat case_match; try discriminate; simplify_eq;
    eapply list_elem_of_lookup_2; eassumption.
Qed.

Lemma read_postfix_unary_exp_raises index child :
  raises_at_token token_list (read_postfix_unary_exp token_list index child).
Proof.
  unfold read_postfix_unary_exp.
  apply raises_at_token_bind; [apply getitem_raises|]. intros token _.
  apply raises_at_token_bind; [apply token_symbol_raises|]. intros symbol _.
  apply raises_at_token_Ok.
Qed.

Lemma parser_raises_at_token (fuel : nat) :
  (∀ index, raises_at_token token_list (read_exp_chain token_list fuel index))
  ∧ (∀ index, raises_at_token token_list (read_exp token_list fuel index))
  ∧ (∀ index, (∃ p, token_list !! index = Some (TokenOpenBracket p)) →
       raises_at_token token_list (read_bracket_exp token_list fuel index))
  ∧ (∀ index, raises_at_token token_list (read_prefix_unary_exp token_list fuel index))
  ∧ (∀ index left_, raises_at_token token_list (read_binary_exp token_list fuel index left_))
  ∧ (∀ index, (∃ name p, token_list !! index = Some (TokenName name p)) →
       raises_at_token token_list (read_func_call token_list fuel index))
  ∧ (∀ i args, raises_at_token token_list (read_func_call_loop token_list fuel i args)).
Proof.
  induction fuel as [|fuel (IHchain & IHexp & IHbracket & IHprefix & IHbinary & IHcall & IHloop)].
  { repeat (split; [intros; intros e; discriminate|]). intros; intros e; discriminate. }
  refine (conj _ (conj _ (conj _ (conj _ (conj _ (conj _ _)))))).
  - (* read_exp_chain *)
    intros index. cbn [read_exp_chain].
    apply raises_at_token_bind; [apply getitem_raises|]. intros token Htoken.
    apply getitem_elem_of in Htoken.
    apply raises_at_token_bind.
    { destruct (isinstance_TokenSymbol token); [|apply IHexp].
      apply raises_at_token_bind; [apply token_symbol_raises|]. intros symbol _.
      destruct (is_open_bracket token); [apply IHexp|].
      destruct (is_unary_op symbol);
        [|apply raises_at_token_other; [exact Htoken|apply unexpected_symbol_message..]].
      destruct (unary_affix_is symbol PREFIX); [apply IHprefix|].
      apply raises_at_token_other; [exact Htoken|apply not_a_prefix_operator_message..]. }
    intros [node i] _.
    destruct (i <? length token_list)%nat; [|apply raises_at_token_Ok].
    apply raises_at_token_bind; [apply getitem_raises|]. intros next_token _.
    apply raises_at_token_bind.
    { destruct (isinstance_TokenSymbol next_token); [|apply raises_at_token_Ok].
      apply raises_at_token_bind; [apply token_symbol_raises|]. intros symbol _.
      destruct (is_unary_op symbol && unary_affix_is symbol POSTFIX);
        [apply read_postfix_unary_exp_raises|apply raises_at_token_Ok]. }
    intros [node0 i0] _.
    destruct (i0 <? length token_list)%nat; [|apply raises_at_token_Ok].
    apply raises_at_token_bind; [apply getitem_raises|]. intros next_token0 Hnext.
    apply getitem_elem_of in Hnext.
    destruct (is_close_bracket next_token0); [apply raises_at_token_Ok|].
    destruct (isinstance_TokenSymbol next_token0);
      [|apply raises_at_token_other; [exact Hnext|apply unexpected_token_message..]].
    apply raises_at_token_bind; [apply token_symbol_raises|]. intros symbol _.
    destruct (bool_decide (symbol = Separators.SEP_COMMA)); [apply raises_at_token_Ok|].
    destruct (contains BINOP_TABLE symbol); [apply IHbinary|].
    apply raises_at_token_other; [exact Hnext|apply unexpected_symbol_message..].
  - (* read_exp *)
    intros index. cbn [read_exp].
    destruct (length token_list <=? index)%nat.
    { apply raises_at_token_bind; [apply py_index_raises|]. intros last Hlast.
      apply py_index_elem_of in Hlast.
      apply raises_at_token_other; [exact Hlast|apply unexpected_token_message..]. }
    apply raises_at_token_bind; [apply getitem_raises|]. intros token Htoken.
    pose proof (getitem_elem_of _ _ _ Htoken) as Hin.
    apply getitem_lookup in Htoken.
    destruct token as [name pos|num pos|symbol pos|pos|pos].
    + destruct (index + 1 <? length token_list)%nat; [|apply raises_at_token_Ok].
      apply raises_at_token_bind; [apply getitem_raises|]. intros next_token _.
      destruct (is_open_bracket next_token); [|apply raises_at_token_Ok].
      apply IHcall. eauto.
    + apply raises_at_token_Ok.
    + apply (raises_at_token_other (TokenSymbol symbol pos));
        [exact Hin|apply unexpected_symbol_message..].
    + apply IHbracket. eauto.
    + apply (raises_at_token_other (TokenCloseBracket pos));
        [exact Hin|apply unexpected_symbol_message..].
  - (* read_bracket_exp *)
    intros index [p Hopen]. cbn [read_bracket_exp].
    apply raises_at_token_bind; [apply IHchain|]. intros [node i] _.
    assert (Hraise : raises_at_token token_list
      (token ← getitem token_list index;
       Raise (ParsingException (py "unmatch '('") (Z.of_nat (token_pos token)))
       : result (ExpNode * nat))).
    { unfold getitem. rewrite Hopen. cbn [mbind result_bind].
      intros e [= <-]. exists (TokenOpenBracket p).
      split; [eapply list_elem_of_lookup_2, Hopen|]. split; [reflexivity|].
      split; [reflexivity|]. intros H. vm_compute in H. discriminate H. }
    destruct (token_list !! i) as [[| | | |q]|]; try exact Hraise.
    apply raises_at_token_Ok.
  - (* read_prefix_unary_exp *)
    intros index. cbn [read_prefix_unary_exp].
    apply raises_at_token_bind; [apply IHexp|]. intros [node i] _.
    apply raises_at_token_bind; [apply getitem_raises|]. intros token _.
    apply raises_at_token_bind; [apply token_symbol_raises|]. intros symbol _.
    apply raises_at_token_Ok.
  - (* read_binary_exp *)
    intros index left_. cbn [read_binary_exp].
    apply raises_at_token_bind; [apply IHchain|]. intros [right_ i] _.
    apply raises_at_token_bind; [apply getitem_raises|]. intros token _.
    apply raises_at_token_bind; [apply token_symbol_raises|]. intros symbol _.
    destruct right_; try apply raises_at_token_Ok.
    apply raises_at_token_bind; [apply getitem_raises|]. intros after _.
    destruct (negb (is_open_bracket after));
      [destruct (is_higher_or_equal_op_priority _ _ _)|]; apply raises_at_token_Ok.
  - (* read_func_call *)
    intros index (name & p & Hname). cbn [read_func_call].
    unfold getitem. rewrite Hname. cbn [mbind result_bind].
    apply raises_at_token_bind; [apply IHloop|]. intros [i args] _.
    assert (Hraise : raises_at_token token_list
      (Raise (ParsingException (py "unclose func call")
                (Z.of_nat (token_pos (TokenName name p)))) : result (ExpNode * nat))).
    { intros e [= <-]. exists (TokenName name p).
      split; [eapply list_elem_of_lookup_2, Hname|]. split; [reflexivity|].
      split; [|eauto]. intros H. vm_compute in H. discriminate H. }
    destruct (token_list !! i) as [[| | | |q]|]; try exact Hraise.
    apply raises_at_token_Ok.
  - (* read_func_call_loop *)
    intros i args. cbn [read_func_call_loop].
    assert (Harg : raises_at_token token_list
      ('(node, i0) ← read_exp_chain token_list fuel i;
       let args0 := args ++ [node] in
       match token_list !! i0 with
       | Some token0 =>
         if is_comma token0 then read_func_call_loop token_list fuel (i0 + 1) args0
         else Ok (i0, args0)
       | None => Ok (i0, args0)
       end)).
    { apply raises_at_token_bind; [apply IHchain|]. intros [node i0] _. cbv zeta.
      destruct (token_list !! i0) as [token0|]; [|apply raises_at_token_Ok].
      destruct (is_comma token0); [apply IHloop|apply raises_at_token_Ok]. }
    destruct (token_list !! i) as [[| | | |q]|]; try exact Harg; apply raises_at_token_Ok.
Qed.

Lemma build_expression_tree_raises_at_token :
  raises_at_token token_list (build_expression_tree token_list).
Proof.
  unfold build_expression_tree.
  apply raises_at_token_bind; [apply parser_raises_at_token|]. intros [node i] _.
  destruct (token_list !! i) as [last_token|] eqn:Hlast; [|apply raises_at_token_Ok].
  apply list_elem_of_lookup_2 in Hlast.
  destruct (is_close_bracket last_token).
  - apply raises_at_token_other; [exact Hlast| |]; intros H; vm_compute in H; discriminate H.
  - apply raises_at_token_other; [exact Hlast|apply unexpected_token_message..].
Qed.
End ParserErrors.

(** A [ParsingException] of [parse_expression] has the index of a character
    of the string as its position: of a '(' when the message is
    "unmatch '('", of the first character of a name when it is
    "unclose func call". *)
Lemma parse_expression_error_position (U : Unicode) (exp : str) msg pos :
  parse_expression U exp = Raise (ParsingException msg pos) →
  ∃ p : nat,
    pos = Z.of_nat p ∧ (p < length exp)%nat
    ∧ (msg = py "unmatch '('" → exp !! p = Some 40%N)
    ∧ (msg = py "unclose func call" →
       ∃ tokens j, tokenize U exp = Ok tokens
                   ∧ TokenName (slice exp p j) p ∈ tokens
                   ∧ (p < j ≤ length exp)%nat).
Proof.
  unfold parse_expression. pose proof (tokenize_positions U exp) as Htok.
  destruct (tokenize U exp) as [tokens|e|]; cbn [mbind result_bind]; [| |discriminate].
  - intros Hbuild.
    apply build_expression_tree_raises_at_token in Hbuild
      as (token & Hin & -> & Hopen & Hname).
    rewrite Forall_forall in Htok. pose proof (Htok token Hin) as Htoken.
    exists (token_pos token). split; [reflexivity|].
    split; [eapply token_starts_at_lt, Htoken|]. split.
    + intros Hmsg. specialize (Hopen Hmsg). destruct token; try discriminate. exact Htoken.
    + intros Hmsg. destruct (Hname Hmsg) as (name & p & ->).
      destruct Htoken as (j & -> & Hj). exists tokens, j. auto.
  - intros [= ->]. destruct Htok as [(p & -> & Hp) Hinv].
    exists p. split; [reflexivity|]. split; [exact Hp|].
    split; intros ->; vm_compute in Hinv; discriminate Hinv.
Qed.

Lemma unmatched_bracket_position (token_list : list Token) fuel index node i token :
  read_exp_chain token_list fuel (index + 1) = Ok (node, i) →
  (∀ p, token_list !! i ≠ Some (TokenCloseBracket p)) →
  token_list !! index = Some token →
  read_bracket_exp token_list (S fuel) index
  = Raise (ParsingException (py "unmatch '('") (Z.of_nat (token_pos token))).
Proof.
  intros Hchain Hclose Htok. cbn [read_bracket_exp]. rewrite Hchain.
  cbn [mbind result_bind]. unfold getitem. rewrite Htok.
  destruct (token_list !! i) as [[| | | |p]|] eqn:Hi; try reflexivity.
  destruct (Hclose p eq_refl).
Qed.

Lemma unclosed_call_position (token_list : list Token) fuel index name_token i args :
  token_list !! index = Some name_token →
  read_func_call_loop token_list fuel (index + 2) [] = Ok (i, args) →
  (∀ p, token_list !! i ≠ Some (TokenCloseBracket p)) →
  read_func_call token_list (S fuel) index
  = Raise (ParsingException (py "unclose func call") (Z.of_nat (token_pos name_token))).
Proof.
  intros Htok Hloop Hclose. cbn [read_func_call]. unfold getitem. rewrite Htok.
  cbn [mbind result_bind]. rewrite Hloop. cbn [mbind result_bind].
  destruct (token_list !! i) as [[| | | |p]|] eqn:Hi; try reflexivity.
  destruct (Hclose p eq_refl).
Qed.

(** C3, as the code has it: the attribute [pos] of a [ParsingException] is
    the position given to its constructor plus one.  For a character that no
    branch of [tokenize] takes, at index i after a prefix that [tokenize]
    accepts, it is i + 1; for an unmatched '(' it is the position of the
    bracket's token plus one, and for a call that is not closed the position
    of the name's token plus one.  Whatever [parse_expression] raises as a
    [ParsingException], its [pos] is the index of a character of the string
    plus one, of a '(' for "unmatch '('" and of the start of a name for
    "unclose func call".  "1 # 2" has it 3, "1 + 0a - 1" has it 6,
    "(1+2 × 3" has it 1 and "1 + pow(100, 2" has it 5. *)
Theorem parsing_error_position_is_offset_plus_one :
  (∀ U ch (pre post : str),
      is_invalid_character U ch = true →
      pre = [] ∨ (∃ tokens, tokenize U pre = Ok tokens) →
      ∃ e, tokenize U (pre ++ ch :: post) = Raise e
           ∧ ParsingException_pos e = Some (Z.of_nat (length pre) + 1))
  ∧ (∀ (token_list : list Token) fuel index node i token,
        read_exp_chain token_list fuel (index + 1) = Ok (node, i) →
        (∀ p, token_list !! i ≠ Some (TokenCloseBracket p)) →
        token_list !! index = Some token →
        ∃ e, read_bracket_exp token_list (S fuel) index = Raise e
             ∧ ParsingException_pos e = Some (Z.of_nat (token_pos token) + 1))
  ∧ (∀ (token_list : list Token) fuel index name_token i args,
        token_list !! index = Some name_token →
        read_func_call_loop token_list fuel (index + 2) [] = Ok (i, args) →
        (∀ p, token_list !! i ≠ Some (TokenCloseBracket p)) →
        ∃ e, read_func_call token_list (S fuel) index = Raise e
             ∧ ParsingException_pos e = Some (Z.of_nat (token_pos name_token) + 1))
  ∧ (∀ U (exp : str) msg pos,
        parse_expression U exp = Raise (ParsingException msg pos) →
        ∃ p : nat,
          ParsingException_pos (ParsingException msg pos) = Some (Z.of_nat p + 1)
          ∧ (p < length exp)%nat
          ∧ (msg = py "unmatch '('" → exp !! p = Some 40%N)
          ∧ (msg = py "unclose func call" →
             ∃ tokens j, tokenize U exp = Ok tokens
                         ∧ TokenName (slice exp p j) p ∈ tokens
                         ∧ (p < j ≤ length exp)%nat))
  ∧ (∃ e, tokenize latin_greek (py "1 # 2") = Raise e
          ∧ ParsingException_pos e = Some 3)
  ∧ (∃ e, tokenize latin_greek (py "1 + 0a - 1") = Raise e
          ∧ ParsingException_pos e = Some 6)
  ∧ (∃ e, parse_expression latin_greek (py "(1+2 × 3") = Raise e
          ∧ ParsingException_pos e = Some 1)
  ∧ (∃ e, parse_expression latin_greek (py "1 + pow(100, 2") = Raise e
          ∧ ParsingException_pos e = Some 5).
Proof.
  split; [|split; [|split; [|split]]].
  - intros U ch pre post Hinvalid Hpre. eexists. split.
    + apply tokenize_invalid_character; assumption.
    + reflexivity.
  - intros token_list fuel index node i token Hchain Hclose Htok. eexists. split.
    + eapply unmatched_bracket_position; eassumption.
    + reflexivity.
  - intros token_list fuel index name_token i args Htok Hloop Hclose. eexists. split.
    + eapply unclosed_call_position; eassumption.
    + reflexivity.
  - intros U exp msg pos Hparse.
    apply parse_expression_error_position in Hparse as (p & -> & Hp & Hopen & Hname).
    exists p. auto.
  - repeat split; eexists; (split; [vm_compute; reflexivity|reflexivity]).
Qed.

(** The character # of "1 # 2", at index 2 after "1 ". *)
Lemma parsing_error_position_is_offset_plus_one_witness :
  ∃ e, tokenize latin_greek (py "1 " ++ 35%N :: py " 2") = Raise e
       ∧ ParsingException_pos e = Some (Z.of_nat (length (py "1 ")) + 1).
Proof.
  apply (proj1 parsing_error_position_is_offset_plus_one latin_greek 35%N (py "1 ") (py " 2")).
  - vm_compute. reflexivity.
  - right. eexists. vm_compute. reflexivity.
Defined.

(** The claim C3 fails at "1 + 0a - 1": the a is at offset 5 of the string
    and the attribute [pos] of the exception is 6, as the test of the
    tokenizer expects (test_tokenizing.py:94); and at "1 # 2", where the
    character # is at offset 2 and [pos] is 3. *)
Lemma parsing_error_position_is_not_the_offset :
  py "1 + 0a - 1" !! 5%nat = Some 97%N
  ∧ (∃ e, tokenize latin_greek (py "1 + 0a - 1") = Raise e
          ∧ ParsingException_pos e = Some 6
          ∧ ParsingException_pos e ≠ Some 5)
  ∧ py "1 # 2" !! 2%nat = Some 35%N
  ∧ (∃ e, tokenize latin_greek (py "1 # 2") = Raise e
          ∧ ParsingException_pos e = Some 3
          ∧ ParsingException_pos e ≠ Some 2).
Proof.
  split; [reflexivity|]. split.
  - eexists. split; [vm_compute; reflexivity|]. split; [reflexivity|discriminate].
  - split; [reflexivity|].
    eexists. split; [vm_compute; reflexivity|]. split; [reflexivity|discriminate].
Qed.

(** * Further properties *)

Lemma bind_Ok {A B} (r : result A) (k : A → result B) (b : B) :
  r ≫= k = Ok b → ∃ a, r = Ok a ∧ k a = Ok b.
Proof. destruct r as [a| |]; cbn [mbind result_bind]; [eauto|discriminate..]. Qed.

Lemma getitem_Some {A} (seq : list A) (i : nat) (a : A) :
  seq !! i = Some a → getitem seq i = Ok a.
Proof. unfold getitem. intros ->. reflexivity. Qed.

(** ** The tokens of a string *)

Section TokenOrder.
Variable U : Unicode.
Variable exp : str.

Lemma in_source_order_snoc (tokens : list Token) (token : Token) (i : nat) :
  in_source_order tokens →
  Forall (λ t, (token_pos t < i)%nat) tokens →
  (i ≤ token_pos token)%nat →
  in_source_order (tokens ++ [token]).
Proof.
  intros Hord Hbefore Hi a b ta tb Ha Hb Hab.
  apply lookup_app_Some in Ha as [Ha|[Hlen Ha]];
    apply lookup_app_Some in Hb as [Hb|[Hlen' Hb]].
  - eapply Hord; eassumption.
  - apply list_lookup_singleton_Some in Hb as [_ <-].
    rewrite Forall_forall in Hbefore.
    apply list_elem_of_lookup_2 in Ha. apply Hbefore in Ha. lia.
  - apply lookup_lt_Some in Hb. lia.
  - apply list_lookup_singleton_Some in Ha as [Ha _].
    apply list_lookup_singleton_Some in Hb as [Hb _]. lia.
Qed.

Lemma tokenize_loop_order (fuel : nat) :
  ∀ i token_list tokens,
    in_source_order token_list →
    Forall (λ t, (token_pos t < i)%nat) token_list →
    tokenize_loop U exp fuel i token_list = Ok tokens →
    in_source_order tokens.
Proof.
  induction fuel as [|fuel IH]; intros i token_list tokens Hord Hbefore.
  - cbn [tokenize_loop]. destruct (exp !! i); [discriminate|]. intros [= <-]. exact Hord.
  - cbn [tokenize_loop]. destruct (exp !! i) as [ch|] eqn:Hi; [|intros [= <-]; exact Hord].
    assert (Hadd : ∀ token j tokens',
      token_pos token = i → (i < j)%nat →
      tokenize_loop U exp fuel j (token_list ++ [token]) = Ok tokens' →
      in_source_order tokens').
    { intros token j tokens' Hpos Hj. apply IH.
      - eapply in_source_order_snoc; [exact Hord|exact Hbefore|lia].
      - apply Forall_app. split.
        + eapply Forall_impl; [exact Hbefore|]. cbv beta. intros; lia.
        + apply Forall_singleton. lia. }
    destruct (is_op ch || bool_decide ([ch] ∈ VALID_SEPARATORS)).
    { apply Hadd; [reflexivity|lia]. }
    destruct (bool_decide ([ch] = Separators.SEP_LEFT_BRACKET)).
    { apply Hadd; [reflexivity|lia]. }
    destruct (bool_decide ([ch] = Separators.SEP_RIGHT_BRACKET)).
    { apply Hadd; [reflexivity|lia]. }
    destruct (bool_decide ([ch] = Separators.SEP_DOT) || isnumeric U ch) eqn:Hnum.
    { assert (Hnum' : [ch] = Separators.SEP_DOT ∨ isnumeric U ch = true).
      { apply orb_true_iff in Hnum as [H|H]; [left; eapply bool_decide_eq_true_1, H|auto]. }
      pose proof (read_number_outcome U exp i token_list ch Hi Hnum') as Hout.
      destruct (read_number U exp i token_list) as [[j tl]|e|] eqn:Hread;
        cbn [mbind result_bind]; try discriminate.
      apply read_number_typing in Hread as (num & -> & _).
      apply Hadd; [reflexivity|lia]. }
    destruct (bool_decide (ch = 32%N)).
    { apply IH; [exact Hord|].
      eapply Forall_impl; [exact Hbefore|]. cbv beta. intros; lia. }
    destruct (is_name_char U ch) eqn:Hname; [|discriminate].
    destruct (read_name_outcome U exp i token_list ch Hi Hname) as (j & name & -> & Hj).
    cbn [mbind result_bind]. apply Hadd; [reflexivity|lia].
Qed.

Lemma read_name_loop_run (rest : str) (i : nat) :
  let j := read_name_loop U rest i in
  Forall (λ ch, is_name_char U ch = true) (take (j - i) rest)
  ∧ ∀ ch, rest !! (j - i)%nat = Some ch → is_name_char U ch = false.
Proof.
  revert i. induction rest as [|ch rest IH]; intros i; cbn [read_name_loop].
  - cbv zeta. rewrite Nat.sub_diag. split; [constructor|]. intros ch [=].
  - destruct (is_name_char U ch) eqn:Hch.
    + specialize (IH (i + 1)%nat). cbv zeta in IH |- *.
      pose proof (read_name_loop_range U rest (i + 1)) as Hrange.
      destruct IH as [Hrun Hstop].
      replace (read_name_loop U rest (i + 1) - i)%nat
        with (S (read_name_loop U rest (i + 1) - (i + 1))) by lia.
      split; [cbn [take]; constructor; assumption|exact Hstop].
    + cbv zeta. rewrite Nat.sub_diag. split; [constructor|].
      intros ch' [= <-]. exact Hch.
Qed.

Lemma tokenize_loop_names (fuel : nat) :
  ∀ i token_list tokens,
    Forall (name_run U exp) token_list →
    tokenize_loop U exp fuel i token_list = Ok tokens →
    Forall (name_run U exp) tokens.
Proof.
  induction fuel as [|fuel IH]; intros i token_list tokens Hnames.
  - cbn [tokenize_loop]. destruct (exp !! i); [discriminate|]. intros [= <-]. exact Hnames.
  - cbn [tokenize_loop]. destruct (exp !! i) as [ch|] eqn:Hi; [|intros [= <-]; exact Hnames].
    assert (Hadd : ∀ token, name_run U exp token →
      Forall (name_run U exp) (token_list ++ [token])).
    { intros token Htoken. apply Forall_app. split; [exact Hnames|].
      apply Forall_singleton, Htoken. }
    destruct (is_op ch || bool_decide ([ch] ∈ VALID_SEPARATORS)); [apply IH, Hadd, I|].
    destruct (bool_decide ([ch] = Separators.SEP_LEFT_BRACKET)); [apply IH, Hadd, I|].
    destruct (bool_decide ([ch] = Separators.SEP_RIGHT_BRACKET)); [apply IH, Hadd, I|].
    destruct (bool_decide ([ch] = Separators.SEP_DOT) || isnumeric U ch) eqn:Hnum.
    { destruct (read_number U exp i token_list) as [[j tl]|e|] eqn:Hread;
        cbn [mbind result_bind]; try discriminate.
      apply read_number_typing in Hread as (num & -> & _). apply IH, Hadd, I. }
    apply orb_false_iff in Hnum as [_ Hnum].
    destruct (bool_decide (ch = 32%N)); [apply IH, Hnames|].
    destruct (is_name_char U ch) eqn:Hname; [|discriminate].
    destruct (read_name_outcome U exp i token_list ch Hi Hname) as (j & name & Hread & Hj).
    rewrite Hread. cbn [mbind result_bind]. apply IH.
    pose proof Hread as Htoken. apply read_name_token in Htoken.
    rewrite Htoken. apply Hadd. cbn [name_run]. exists j.
    assert (Hj' : j = read_name_loop U (drop i exp) i).
    { unfold read_name, new_TokenName in Hread. revert Hread.
      case_match; cbn [mbind result_bind]; [discriminate|]. intros [= <- _]. reflexivity. }
    pose proof (read_name_loop_run (drop i exp) i) as Hrun. cbv zeta in Hrun.
    rewrite <- Hj' in Hrun. destruct Hrun as [Hrun Hstop].
    split; [reflexivity|]. split; [lia|]. split; [exact Hrun|]. split.
    + intros ch' Hch'. apply Hstop. rewrite lookup_drop.
      replace (i + (j - i))%nat with j by lia. exact Hch'.
    + intros ch' Hch'. congruence.
Qed.
End TokenOrder.

(** The tokens of [tokenize] are in the order of the string: each is where
    its position says, and the positions increase along the list. *)
Theorem tokenize_keeps_source_order (U : Unicode) (exp : str) (tokens : list Token) :
  tokenize U exp = Ok tokens →
  Forall (token_starts_at U exp) tokens ∧ in_source_order tokens.
Proof.
  intros Htokens. split.
  - pose proof (tokenize_positions U exp) as H. rewrite Htokens in H. exact H.
  - unfold tokenize in Htokens. destruct (bool_decide (exp = [])); [discriminate|].
    eapply tokenize_loop_order; [| |exact Htokens].
    + intros a b ta tb [=].
    + constructor.
Qed.

Lemma tokenize_keeps_source_order_witness :
  in_source_order [TokenNumber (PyInt 1) 0; TokenSymbol (py "+") 2; TokenName (py "x") 4].
Proof.
  apply (tokenize_keeps_source_order latin_greek (py "1 + x")). reflexivity.
Defined.

(** A name token is the longest run of name characters from its position,
    and its first character is not numeric. *)
Theorem names_are_longest_runs (U : Unicode) (exp : str) (tokens : list Token) :
  tokenize U exp = Ok tokens → Forall (name_run U exp) tokens.
Proof.
  unfold tokenize. destruct (bool_decide (exp = [])); [discriminate|].
  apply tokenize_loop_names. constructor.
Qed.

Lemma names_are_longest_runs_witness :
  Forall (name_run latin_greek (py "x1 + 2"))
    [TokenName (py "x1") 0; TokenSymbol (py "+") 3; TokenNumber (PyInt 2) 5].
Proof.
  apply (names_are_longest_runs latin_greek (py "x1 + 2")). reflexivity.
Defined.

(** ** Blank strings *)

Lemma tokenize_loop_blank (U : Unicode) (n : nat) :
  isnumeric U 32%N = false →
  ∀ fuel i, (n ≤ fuel + i)%nat →
    tokenize_loop U (replicate n 32%N) fuel i [] = Ok [].
Proof.
  intros Hnum fuel. induction fuel as [|fuel IH]; intros i Hfuel.
  - cbn [tokenize_loop]. rewrite (proj2 (lookup_ge_None _ _)); [reflexivity|].
    rewrite length_replicate. lia.
  - cbn [tokenize_loop].
    destruct (replicate n 32%N !! i) as [ch|] eqn:Hi; [|reflexivity].
    apply lookup_replicate in Hi as [-> Hi].
    replace (is_op 32%N || bool_decide ([32%N] ∈ VALID_SEPARATORS)) with false
      by (vm_compute; reflexivity).
    rewrite bool_decide_eq_false_2 by discriminate.
    rewrite bool_decide_eq_false_2 by discriminate.
    rewrite bool_decide_eq_false_2 by discriminate.
    rewrite Hnum. cbn [orb]. rewrite bool_decide_eq_true_2 by reflexivity.
    apply IH. lia.
Qed.

(** A string of blanks has no token, and [parse_expression] leaves it with
    the [IndexError] of [token_list[0]], not with a [ParsingException]. *)
Theorem blank_expression_raises_IndexError (U : Unicode) (n : nat) :
  isnumeric U 32%N = false →
  (0 < n)%nat →
  tokenize U (replicate n 32%N) = Ok []
  ∧ parse_expression U (replicate n 32%N) = Raise (Builtin IndexError None).
Proof.
  intros Hnum Hn.
  assert (Htokens : tokenize U (replicate n 32%N) = Ok []).
  { unfold tokenize. rewrite bool_decide_eq_false_2 by (destruct n; [lia|discriminate]).
    apply tokenize_loop_blank; [exact Hnum|]. rewrite length_replicate. lia. }
  split; [exact Htokens|]. unfold parse_expression. rewrite Htokens. reflexivity.
Qed.

Lemma blank_expression_raises_IndexError_witness :
  parse_expression latin_greek (py "   ") = Raise (Builtin IndexError None).
Proof.
  apply (blank_expression_raises_IndexError latin_greek 3); [reflexivity|lia].
Defined.

(** ** Integer literals *)

Section Digits.
Variable U : Unicode.
Hypothesis Hnumeric : ∀ d, 0 ≤ d < 10 → isnumeric U (Z.to_N (48 + d)) = true.
Hypothesis Hdecimal : ∀ d, 0 ≤ d < 10 → decimal U (Z.to_N (48 + d)) = Some d.

Lemma read_number_loop_digits (ds : list Z) :
  Forall (λ d, 0 ≤ d < 10) ds →
  ∀ state i,
    state = st_start ∨ state = st_int →
    read_number_loop U (ascii_digits ds) state i
    = Ok (if bool_decide (ds = []) then state else st_int, false, (i + length ds)%nat).
Proof using Hnumeric.
  induction 1 as [|d ds Hd Hds IH]; intros state i Hstate.
  - cbn [ascii_digits map read_number_loop length]. rewrite Nat.add_0_r. reflexivity.
  - cbn [ascii_digits map read_number_loop]. rewrite (Hnumeric d Hd).
    fold (ascii_digits ds). rewrite IH.
    + rewrite (bool_decide_eq_false_2 (d :: ds = [])) by discriminate.
      cbn [length]. replace (i + 1 + length ds)%nat with (i + S (length ds))%nat by lia.
      destruct Hstate as [-> | ->]; cbn; destruct (bool_decide (ds = [])); reflexivity.
    + destruct Hstate as [-> | ->]; cbn; auto.
Qed.

Lemma span_digits_ascii (ds : list Z) :
  Forall (λ d, 0 ≤ d < 10) ds → span_digits U (ascii_digits ds) = (ds, []).
Proof using Hdecimal.
  induction 1 as [|d ds Hd Hds IH]; [reflexivity|].
  cbn [ascii_digits map span_digits]. rewrite (Hdecimal d Hd).
  fold (ascii_digits ds). rewrite IH. reflexivity.
Qed.

Lemma digit_is_no_symbol (d : Z) :
  0 ≤ d < 10 →
  is_op (Z.to_N (48 + d)) || bool_decide ([Z.to_N (48 + d)] ∈ VALID_SEPARATORS) = false
  ∧ [Z.to_N (48 + d)] ≠ Separators.SEP_LEFT_BRACKET
  ∧ [Z.to_N (48 + d)] ≠ Separators.SEP_RIGHT_BRACKET.
Proof.
  intros Hd.
  assert (d = 0 ∨ d = 1 ∨ d = 2 ∨ d = 3 ∨ d = 4 ∨ d = 5 ∨ d = 6 ∨ d = 7 ∨ d = 8 ∨ d = 9)
    as Hcases by lia.
  repeat destruct Hcases as [->|Hcases]; try subst d;
    (split; [vm_compute; reflexivity|split; discriminate]).
Qed.

Lemma tokenize_digits (d : Z) (ds : list Z) :
  Forall (λ d, 0 ≤ d < 10) (d :: ds) →
  tokenize U (ascii_digits (d :: ds))
  = if int_max_str_digits <? Z.of_nat (length (d :: ds))
    then Raise (Builtin ValueError None)
    else Ok [TokenNumber (PyInt (digits_value (d :: ds))) 0].
Proof using Hnumeric Hdecimal.
  intros Hds. pose proof Hds as Hall. inversion Hds as [|? ? Hd Hds']; subst.
  unfold tokenize. rewrite bool_decide_eq_false_2 by discriminate.
  set (exp := ascii_digits (d :: ds)).
  assert (Hlen : length exp = S (length ds)) by (unfold exp, ascii_digits; rewrite length_map; reflexivity).
  rewrite Hlen. cbn [tokenize_loop].
  assert (H0 : exp !! 0%nat = Some (Z.to_N (48 + d))) by reflexivity.
  rewrite H0.
  destruct (digit_is_no_symbol d Hd) as (Hop & Hopen & Hclose).
  rewrite Hop. rewrite (bool_decide_eq_false_2 _ Hopen), (bool_decide_eq_false_2 _ Hclose).
  rewrite (Hnumeric d Hd), orb_true_r.
  assert (Hread : read_number U exp 0 []
                  = if int_max_str_digits <? Z.of_nat (length (d :: ds))
                    then Raise (Builtin ValueError None)
                    else Ok (length exp,
                             [TokenNumber (PyInt (digits_value (d :: ds))) 0%nat])).
  { unfold read_number. rewrite drop_0. unfold exp.
    rewrite (read_number_loop_digits (d :: ds) Hall st_start 0 (or_introl eq_refl)).
    rewrite (bool_decide_eq_false_2 (d :: ds = [])) by discriminate.
    cbn [mbind result_bind]. fold exp.
    replace (allows st_int st_end) with true by (vm_compute; reflexivity).
    destruct (decide (st_int = st_int)) as [_|Hne]; [|destruct Hne; reflexivity].
    assert (Hslice : slice exp 0 (0 + length (d :: ds)) = exp).
    { unfold slice. rewrite drop_0, Nat.sub_0_r. apply firstn_all2.
      rewrite Hlen. cbn [length]. lia. }
    rewrite Hslice. unfold exp, py_int. rewrite (span_digits_ascii (d :: ds) Hall).
    destruct (int_max_str_digits <? Z.of_nat (length (d :: ds))); [reflexivity|].
    cbn [fmap result_fmap mbind result_bind app]. fold exp. rewrite Hlen. reflexivity. }
  rewrite Hread.
  destruct (int_max_str_digits <? Z.of_nat (length (d :: ds))); [reflexivity|].
  cbn [mbind result_bind].
  destruct (length ds) as [|m] eqn:Hm.
  - cbn [tokenize_loop]. rewrite (proj2 (lookup_ge_None exp _)) by lia. reflexivity.
  - cbn [tokenize_loop]. rewrite (proj2 (lookup_ge_None exp _)) by lia. reflexivity.
Qed.
End Digits.

(** A string of ASCII digits is one token, the [int] of its decimal value,
    leading zeros or not, when it has no more digits than [int] converts
    ([int_max_str_digits], 4300); with more digits [tokenize] is left by the
    [ValueError] of [int], leading zeros or not. *)
Theorem digits_are_one_integer_token (U : Unicode) (d : Z) (ds : list Z) :
  (∀ d, 0 ≤ d < 10 → isnumeric U (Z.to_N (48 + d)) = true) →
  (∀ d, 0 ≤ d < 10 → decimal U (Z.to_N (48 + d)) = Some d) →
  Forall (λ d, 0 ≤ d < 10) (d :: ds) →
  tokenize U (ascii_digits (d :: ds))
  = if int_max_str_digits <? Z.of_nat (length (d :: ds))
    then Raise (Builtin ValueError None)
    else Ok [TokenNumber (PyInt (digits_value (d :: ds))) 0].
Proof. intros Hnumeric Hdecimal Hds. apply tokenize_digits; assumption. Qed.

Lemma ascii_digits_latin_greek (d : Z) :
  0 ≤ d < 10 →
  isnumeric latin_greek (Z.to_N (48 + d)) = true
  ∧ decimal latin_greek (Z.to_N (48 + d)) = Some d.
Proof.
  intros Hd.
  assert (d = 0 ∨ d = 1 ∨ d = 2 ∨ d = 3 ∨ d = 4 ∨ d = 5 ∨ d = 6 ∨ d = 7 ∨ d = 8 ∨ d = 9)
    as Hcases by lia.
  repeat destruct Hcases as [->|Hcases]; try subst d; split; reflexivity.
Qed.

(** "0042", and a string of 4301 digits 1. *)
Lemma digits_are_one_integer_token_witness :
  tokenize latin_greek (py "0042") = Ok [TokenNumber (PyInt 42) 0]
  ∧ tokenize latin_greek (replicate 4301 49%N) = Raise (Builtin ValueError None).
Proof.
  split.
  - apply (digits_are_one_integer_token latin_greek 0 [0; 4; 2]).
    + intros d Hd. apply ascii_digits_latin_greek, Hd.
    + intros d Hd. apply ascii_digits_latin_greek, Hd.
    + repeat constructor; lia.
  - change (replicate 4301 49%N) with (ascii_digits (1 :: replicate 4300 1)).
    rewrite (digits_are_one_integer_token latin_greek 1 (replicate 4300 1)).
    + reflexivity.
    + intros d Hd. apply ascii_digits_latin_greek, Hd.
    + intros d Hd. apply ascii_digits_latin_greek, Hd.
    + constructor; [lia|]. apply Forall_replicate. lia.
Defined.

(** ** The tree and the tokens *)

Section Shape.
Variable token_list : list Token.
Local Abbreviation len := (length token_list).

Lemma span_nil i : span token_list i i = [].
Proof. unfold span, slice. rewrite Nat.sub_diag. reflexivity. Qed.

Lemma span_app a b c :
  (a ≤ b ≤ c)%nat →
  span token_list a b ++ span token_list b c = span token_list a c.
Proof.
  intros H. unfold span, slice. rewrite <- flat_map_app. f_equal.
  replace (c - a)%nat with ((b - a) + (c - b))%nat by lia.
  rewrite <- take_take_drop. rewrite drop_drop.
  replace (a + (b - a))%nat with b by lia. reflexivity.
Qed.

Lemma span_one i token :
  token_list !! i = Some token → span token_list i (i + 1) = token_items token.
Proof.
  intros H. unfold span, slice. rewrite (drop_S _ _ _ H).
  replace (i + 1 - i)%nat with 1%nat by lia.
  cbn [take flat_map]. apply app_nil_r.
Qed.

Lemma span_cons a c token :
  token_list !! a = Some token → (a < c)%nat →
  span token_list a c = token_items token ++ span token_list (a + 1) c.
Proof.
  intros H Hlt. rewrite <- (span_app a (a + 1) c) by lia. rewrite (span_one _ _ H).
  reflexivity.
Qed.

Lemma span_snoc a c token :
  token_list !! c = Some token → (a ≤ c)%nat →
  span token_list a (c + 1) = span token_list a c ++ token_items token.
Proof.
  intros H Hle. rewrite <- (span_app a c (c + 1)) by lia. rewrite (span_one _ _ H).
  reflexivity.
Qed.

Lemma unary_operators (op : str) :
  is_unary_op op = true →
  op = UnaryOperators.OP_NEGATIVE ∧ unary_affix_is op PREFIX = true
                                  ∧ unary_affix_is op POSTFIX = false
  ∨ op = UnaryOperators.OP_POSITIVE ∧ unary_affix_is op PREFIX = true
                                    ∧ unary_affix_is op POSTFIX = false
  ∨ op = UnaryOperators.OP_FACTORIAL ∧ unary_affix_is op PREFIX = false
                                     ∧ unary_affix_is op POSTFIX = true.
Proof.
  unfold is_unary_op, contains. intros H. apply bool_decide_eq_true_1 in H as [oi H].
  unfold UNARYOP_TABLE in H. apply elem_of_list_to_map_2 in H.
  repeat (apply elem_of_cons in H as [H|H];
          [injection H as -> _; vm_compute; tauto|]).
  inversion H.
Qed.

Lemma operator_token_items token symbol :
  token_symbol token = Ok symbol →
  is_unary_op symbol = true ∨ contains BINOP_TABLE symbol = true →
  token_items token = [ItemSymbol symbol].
Proof.
  intros Hsym Hop.
  assert (Hne : symbol ≠ Separators.SEP_COMMA ∧ symbol ≠ Separators.SEP_LEFT_BRACKET
                ∧ symbol ≠ Separators.SEP_RIGHT_BRACKET).
  { repeat split; intros ->; destruct Hop as [H|H]; vm_compute in H; discriminate H. }
  destruct Hne as (Hcomma & Hopen & Hclose).
  destruct token as [name pos|num pos|s pos|pos|pos]; try discriminate Hsym;
    injection Hsym as <-; try congruence.
  cbn [token_items]. rewrite bool_decide_eq_false_2 by exact Hcomma. reflexivity.
Qed.

Lemma read_postfix_unary_exp_shape index child token symbol node i :
  token_list !! index = Some token →
  token_symbol token = Ok symbol →
  is_unary_op symbol = true →
  unary_affix_is symbol POSTFIX = true →
  operators_known child = true →
  read_postfix_unary_exp token_list index child = Ok (node, i) →
  i = (index + 1)%nat
  ∧ node_items node = node_items child ++ [ItemSymbol symbol]
  ∧ operators_known node = true.
Proof.
  intros Htoken Hsym Hop Hpost Hchild. unfold read_postfix_unary_exp, getitem.
  rewrite Htoken. cbn [mbind result_bind]. rewrite Hsym. cbn [mbind result_bind].
  assert (Hplain : node_items (UnaryOpNode symbol child (token_pos token))
                   = node_items child ++ [ItemSymbol symbol]
                   ∧ operators_known (UnaryOpNode symbol child (token_pos token)) = true).
  { cbn [node_items operators_known]. rewrite Hpost, Hop, Hchild. auto. }
  destruct child as [op l r pos|child_op child_child child_pos|num pos|name pos|id args pos];
    try (intros [= <- <-]; split; [reflexivity|exact Hplain]).
  destruct (is_higher_or_equal_op_priority symbol child_op UNARYOP_TABLE);
    [|intros [= <- <-]; split; [reflexivity|exact Hplain]].
  intros [= <- <-]. split; [reflexivity|].
  cbn [operators_known] in Hchild. apply andb_prop in Hchild as [Hchild_op Hcc].
  cbn [node_items operators_known]. rewrite Hpost, Hop, Hchild_op, Hcc.
  split; [|reflexivity].
  destruct (unary_affix_is child_op POSTFIX) eqn:Hchild_post; [|reflexivity].
  apply unary_operators in Hop as [(_ & _ & H)|[(_ & _ & H)|(-> & _)]];
    [congruence..|].
  apply unary_operators in Hchild_op as [(_ & _ & H)|[(_ & _ & H)|(-> & _)]];
    [congruence..|].
  reflexivity.
Qed.

Lemma parser_shape (fuel : nat) :
  (∀ index, shape token_list index (read_exp_chain token_list fuel index))
  ∧ (∀ index, shape token_list index (read_exp token_list fuel index))
  ∧ (∀ index p, token_list !! index = Some (TokenOpenBracket p) →
       shape token_list index (read_bracket_exp token_list fuel index))
  ∧ (∀ index token symbol,
       token_list !! index = Some token → token_symbol token = Ok symbol →
       is_unary_op symbol = true → unary_affix_is symbol PREFIX = true →
       shape token_list index (read_prefix_unary_exp token_list fuel index))
  ∧ (∀ index left_ token symbol node i,
       token_list !! index = Some token → token_symbol token = Ok symbol →
       contains BINOP_TABLE symbol = true →
       operators_known left_ = true →
       read_binary_exp token_list fuel index left_ = Ok (node, i) →
       (index ≤ i)%nat
       ∧ node_items node = node_items left_ ++ span token_list index i
       ∧ operators_known node = true)
  ∧ (∀ index name p q,
       token_list !! index = Some (TokenName name p) →
       token_list !! (index + 1)%nat = Some (TokenOpenBracket q) →
       shape token_list index (read_func_call token_list fuel index))
  ∧ (∀ i args j args',
       read_func_call_loop token_list fuel i args = Ok (j, args') →
       (i ≤ j)%nat
       ∧ flat_map node_items args' = flat_map node_items args ++ span token_list i j
       ∧ (forallb operators_known args = true → forallb operators_known args' = true)).
Proof.
  induction fuel as [|fuel (IHchain & IHexp & IHbracket & IHprefix & IHbinary & IHcall & IHloop)].
  { repeat (split; [intros; intros ? ?; discriminate|]).
    split; [intros; discriminate|].
    split; [intros; intros ? ?; discriminate|]. intros; discriminate. }
  refine (conj _ (conj _ (conj _ (conj _ (conj _ (conj _ _)))))).
  - (* read_exp_chain *)
    intros index node' i' H. cbn [read_exp_chain] in H.
    apply bind_Ok in H as (token & Htoken & H). apply getitem_Ok in Htoken.
    apply bind_Ok in H as ([node i] & Hfirst & H).
    assert (Hshape : (index ≤ i)%nat ∧ node_items node = span token_list index i
                     ∧ operators_known node = true).
    { destruct (isinstance_TokenSymbol token); [|eapply IHexp, Hfirst].
      apply bind_Ok in Hfirst as (symbol & Hsym & Hfirst).
      destruct (is_open_bracket token); [eapply IHexp, Hfirst|].
      destruct (is_unary_op symbol) eqn:Hop; [|discriminate].
      destruct (unary_affix_is symbol PREFIX) eqn:Hpre; [|discriminate].
      eapply IHprefix; eassumption. }
    destruct Hshape as (Hle & Hitems & Hknown).
    destruct (i <? len)%nat eqn:Hlt; [|injection H as <- <-; auto].
    apply bind_Ok in H as (next_token & Hnext & H). apply getitem_Ok in Hnext.
    apply bind_Ok in H as ([node0 i0] & Hpost & H).
    assert (Hshape : (index ≤ i0)%nat ∧ node_items node0 = span token_list index i0
                     ∧ operators_known node0 = true).
    { destruct (isinstance_TokenSymbol next_token); [|injection Hpost as <- <-; auto].
      apply bind_Ok in Hpost as (symbol & Hsym & Hpost).
      destruct (is_unary_op symbol && unary_affix_is symbol POSTFIX) eqn:Hop;
        [|injection Hpost as <- <-; auto].
      apply andb_prop in Hop as [Hop Haffix].
      eapply read_postfix_unary_exp_shape in Hpost as (-> & Hitems0 & Hknown0);
        [|eassumption..].
      split; [lia|]. split; [|exact Hknown0].
      rewrite Hitems0, Hitems, (span_snoc _ _ _ Hnext) by lia.
      rewrite (operator_token_items _ _ Hsym); auto. }
    clear Hle Hitems Hknown. destruct Hshape as (Hle & Hitems & Hknown).
    destruct (i0 <? len)%nat; [|injection H as <- <-; auto].
    apply bind_Ok in H as (next_token0 & Hnext0 & H). apply getitem_Ok in Hnext0.
    destruct (is_close_bracket next_token0); [injection H as <- <-; auto|].
    destruct (isinstance_TokenSymbol next_token0); [|discriminate].
    apply bind_Ok in H as (symbol & Hsym & H).
    destruct (bool_decide (symbol = Separators.SEP_COMMA)); [injection H as <- <-; auto|].
    destruct (contains BINOP_TABLE symbol) eqn:Hop; [|discriminate].
    eapply IHbinary in H as (Hle' & Hitems' & Hknown'); [|eassumption..].
    split; [lia|]. split; [|exact Hknown'].
    rewrite Hitems', Hitems. apply span_app. lia.
  - (* read_exp *)
    intros index node' i' H. cbn [read_exp] in H.
    destruct (len <=? index)%nat.
    { apply bind_Ok in H as (last & _ & H). discriminate. }
    apply bind_Ok in H as (token & Htoken & H). apply getitem_Ok in Htoken.
    destruct token as [name pos|num pos|symbol pos|pos|pos]; try discriminate.
    + assert (Hconst : (index ≤ index + 1)%nat
                ∧ node_items (NameConstantNode name pos) = span token_list index (index + 1)
                ∧ operators_known (NameConstantNode name pos) = true).
      { split; [lia|]. rewrite (span_one _ _ Htoken). auto. }
      destruct (index + 1 <? len)%nat; [|injection H as <- <-; exact Hconst].
      apply bind_Ok in H as (next_token & Hnext & H). apply getitem_Ok in Hnext.
      destruct next_token as [| | |q|]; cbn [is_open_bracket] in H;
        try (injection H as <- <-; exact Hconst).
      eapply IHcall; eassumption.
    + injection H as <- <-. split; [lia|]. rewrite (span_one _ _ Htoken). auto.
    + eapply IHbracket; eassumption.
  - (* read_bracket_exp *)
    intros index p Hopen node' i' H. cbn [read_bracket_exp] in H.
    apply bind_Ok in H as ([node i] & Hchain & H).
    apply IHchain in Hchain as (Hle & Hitems & Hknown).
    destruct (token_list !! i) as [[| | | |q]|] eqn:Hclose;
      try (apply bind_Ok in H as (? & _ & H); discriminate).
    injection H as <- <-. split; [lia|]. split; [|exact Hknown].
    rewrite (span_snoc _ _ _ Hclose) by lia.
    rewrite (span_cons _ _ _ Hopen) by lia.
    cbn [token_items app]. rewrite app_nil_r. exact Hitems.
  - (* read_prefix_unary_exp *)
    intros index token symbol Htoken Hsym Hop Hpre node' i' H.
    cbn [read_prefix_unary_exp] in H.
    apply bind_Ok in H as ([node i] & Hexp & H).
    apply IHexp in Hexp as (Hle & Hitems & Hknown).
    unfold getitem in H. rewrite Htoken in H. cbn [mbind result_bind] in H.
    rewrite Hsym in H. cbn [mbind result_bind] in H. injection H as <- <-.
    split; [lia|]. cbn [node_items operators_known]. rewrite Hop, Hknown.
    split; [|reflexivity].
    assert (Hpost : unary_affix_is symbol POSTFIX = false).
    { apply unary_operators in Hop as [(_ & _ & ?)|[(_ & _ & ?)|(_ & ? & _)]];
        congruence. }
    rewrite Hpost, (span_cons _ _ _ Htoken) by lia.
    rewrite (operator_token_items _ _ Hsym) by auto. rewrite Hitems. reflexivity.
  - (* read_binary_exp *)
    intros index left_ token symbol node' i' Htoken Hsym Hop Hleft H.
    cbn [read_binary_exp] in H.
    apply bind_Ok in H as ([right_ i] & Hchain & H).
    apply IHchain in Hchain as (Hle & Hitems & Hknown).
    apply bind_Ok in H as (token' & Htoken' & H). apply getitem_Ok in Htoken'.
    assert (token' = token) as -> by congruence.
    apply bind_Ok in H as (symbol' & Hsym' & H).
    assert (symbol' = symbol) as -> by congruence.
    assert (Hspan : span token_list index i = ItemSymbol symbol :: node_items right_).
    { rewrite (span_cons _ _ _ Htoken) by lia.
      rewrite (operator_token_items _ _ Hsym) by auto. rewrite Hitems. reflexivity. }
    assert (Hplain : ∀ pos,
      (index ≤ i)%nat
      ∧ node_items (BinaryOpNode symbol left_ right_ pos)
        = node_items left_ ++ span token_list index i
      ∧ operators_known (BinaryOpNode symbol left_ right_ pos) = true).
    { intros pos. split; [lia|]. cbn [node_items operators_known].
      rewrite Hop, Hleft, Hknown, Hspan. auto. }
    destruct right_ as [right_op right_left right_right right_pos| | | |];
      try (injection H as <- <-; apply Hplain).
    apply bind_Ok in H as (after & _ & H).
    destruct (negb (is_open_bracket after)); [|injection H as <- <-; apply Hplain].
    destruct (is_higher_or_equal_op_priority symbol right_op BINOP_TABLE);
      [|injection H as <- <-; apply Hplain].
    injection H as <- <-. split; [lia|].
    cbn [operators_known] in Hknown.
    apply andb_prop in Hknown as [Hknown Hrr]. apply andb_prop in Hknown as [Hrop Hrl].
    cbn [node_items operators_known]. rewrite Hop, Hleft, Hrop, Hrl, Hrr, Hspan.
    split; [|reflexivity]. cbn [node_items]. rewrite <- app_assoc. reflexivity.
  - (* read_func_call *)
    intros index name p q Hname Hopen node' i' H. cbn [read_func_call] in H.
    unfold getitem in H. rewrite Hname in H. cbn [mbind result_bind] in H.
    apply bind_Ok in H as ([i args] & Hloop & H).
    apply IHloop in Hloop as (Hle & Hitems & Hknown).
    destruct (token_list !! i) as [[| | | |c]|] eqn:Hclose; try discriminate.
    injection H as <- <-. split; [lia|].
    cbn [node_items operators_known]. split; [|apply Hknown; reflexivity].
    rewrite Hitems. cbn [flat_map app].
    rewrite (span_snoc _ _ _ Hclose) by lia.
    rewrite (span_cons _ _ _ Hname) by lia.
    rewrite (span_cons _ _ _ Hopen) by lia.
    cbn [token_items app]. rewrite app_nil_r.
    replace (index + 1 + 1)%nat with (index + 2)%nat by lia. reflexivity.
  - (* read_func_call_loop *)
    intros i args j args' H. cbn [read_func_call_loop] in H.
    assert (Hstop : ∀ (i0 : nat) (args0 : list ExpNode),
      Ok (i0, args0) = Ok (j, args') → i0 = i → args0 = args →
      (i ≤ j)%nat
      ∧ flat_map node_items args' = flat_map node_items args ++ span token_list i j
      ∧ (forallb operators_known args = true → forallb operators_known args' = true)).
    { intros i0 args0 [= <- <-] -> ->. split; [lia|].
      rewrite span_nil, app_nil_r. auto. }
    destruct (token_list !! i) as [token|] eqn:Htoken; [|eapply Hstop; eauto].
    assert (Harg :
      ('(node, i0) ← read_exp_chain token_list fuel i;
       let args0 := args ++ [node] in
       match token_list !! i0 with
       | Some token0 =>
         if is_comma token0 then read_func_call_loop token_list fuel (i0 + 1) args0
         else Ok (i0, args0)
       | None => Ok (i0, args0)
       end) = Ok (j, args') →
      (i ≤ j)%nat
      ∧ flat_map node_items args' = flat_map node_items args ++ span token_list i j
      ∧ (forallb operators_known args = true → forallb operators_known args' = true)).
    { clear H Hstop. intros H.
      apply bind_Ok in H as ([node i0] & Hchain & H).
      apply IHchain in Hchain as (Hle & Hitems & Hknown). cbv zeta in H.
      assert (Hone : ∀ (i1 : nat) (args1 : list ExpNode),
        Ok (i1, args1) = Ok (j, args') → i1 = i0 → args1 = args ++ [node] →
        (i ≤ j)%nat
        ∧ flat_map node_items args' = flat_map node_items args ++ span token_list i j
        ∧ (forallb operators_known args = true → forallb operators_known args' = true)).
      { intros i1 args1 [= <- <-] -> ->. split; [lia|].
        rewrite flat_map_app. cbn [flat_map]. rewrite app_nil_r, Hitems.
        split; [reflexivity|]. intros Hargs. rewrite forallb_app, Hargs.
        cbn [forallb]. rewrite Hknown. reflexivity. }
      destruct (token_list !! i0) as [token0|] eqn:Htoken0; [|eapply Hone; eauto].
      destruct (is_comma token0) eqn:Hcomma; [|eapply Hone; eauto].
      apply IHloop in H as (Hle' & Hitems' & Hknown').
      split; [lia|]. split.
      - rewrite Hitems', flat_map_app. cbn [flat_map]. rewrite app_nil_r, Hitems.
        rewrite <- app_assoc. f_equal.
        rewrite <- (span_app i i0 j) by lia. f_equal.
        rewrite (span_cons _ _ _ Htoken0) by lia.
        destruct token0 as [| |symbol pos| |]; try discriminate Hcomma.
        cbn [is_comma] in Hcomma. cbn [token_items]. rewrite Hcomma. reflexivity.
      - intros Hargs. apply Hknown'. rewrite forallb_app, Hargs.
        cbn [forallb]. rewrite Hknown. reflexivity. }
    destruct token; try exact (Harg H). eapply Hstop; eauto.
Qed.
End Shape.

Lemma build_expression_tree_shape (token_list : list Token) (node : ExpNode) :
  build_expression_tree token_list = Ok node →
  node_items node = flat_map token_items token_list
  ∧ operators_known node = true.
Proof.
  unfold build_expression_tree. intros H.
  apply bind_Ok in H as ([node' i] & Hchain & H).
  destruct (token_list !! i) as [last_token|] eqn:Hlast.
  { destruct (is_close_bracket last_token); discriminate. }
  injection H as ->. apply lookup_ge_None in Hlast.
  destruct (parser_shape token_list (parse_fuel token_list)) as (Hshape & _).
  apply Hshape in Hchain as (_ & Hitems & Hknown). split; [|exact Hknown].
  rewrite Hitems. unfold span, slice. rewrite drop_0, Nat.sub_0_r.
  rewrite firstn_all2 by exact Hlast. reflexivity.
Qed.

(** The tree keeps what the tokens say and their order: read from left to
    right, the numbers, names and operator symbols of the tree that
    [build_expression_tree] returns are those of the token list; only the
    brackets and the commas are gone. *)
Theorem tree_keeps_the_tokens (token_list : list Token) (node : ExpNode) :
  build_expression_tree token_list = Ok node →
  node_items node = flat_map token_items token_list.
Proof. intros H. apply build_expression_tree_shape, H. Qed.

(** "-(1 + 2)!" *)
Lemma tree_keeps_the_tokens_witness :
  node_items
    (UnaryOpNode (py "-")
       (UnaryOpNode (py "!")
          (BinaryOpNode (py "+") (NumberNode (PyInt 1) 2) (NumberNode (PyInt 2) 6) 4) 8) 0)
  = [ItemSymbol (py "-"); ItemNumber (PyInt 1); ItemSymbol (py "+");
     ItemNumber (PyInt 2); ItemSymbol (py "!")].
Proof.
  apply (tree_keeps_the_tokens
           [TokenSymbol (py "-") 0; TokenOpenBracket 1; TokenNumber (PyInt 1) 2;
            TokenSymbol (py "+") 4; TokenNumber (PyInt 2) 6; TokenCloseBracket 7;
            TokenSymbol (py "!") 8]).
  reflexivity.
Defined.

Lemma operators_known_supported (L : Libm) (node : ExpNode) :
  operators_known node = true → operators_supported L node = true.
Proof.
  induction node as [op l r pos IHl IHr|op child pos IH|num pos|name pos|id args pos IH]
    using ExpNode_nested_ind; cbn [operators_known operators_supported]; try reflexivity.
  - intros H. apply andb_prop in H as [H Hr]. apply andb_prop in H as [Hop Hl].
    rewrite (IHl Hl), (IHr Hr), !andb_true_r. apply bool_decide_eq_true_2.
    unfold contains in Hop. apply bool_decide_eq_true_1 in Hop as [oi Hoi].
    assert (H : priority <$> BINOP_TABLE !! op = Some (priority oi))
      by (rewrite Hoi; reflexivity).
    apply binary_operators in H.
    destruct H as [[[->| ->] _]|[[[->|[->| ->]] _]| [-> _]]];
      eexists; unfold OP_FUNCTIONS_BINARY; table_lookup.
  - intros H. apply andb_prop in H as [Hop Hchild].
    rewrite (IH Hchild), andb_true_r. apply bool_decide_eq_true_2.
    apply unary_operators in Hop as [(-> & _)|[(-> & _)|(-> & _)]];
      eexists; unfold OP_FUNCTIONS_UNARY; table_lookup.
  - intros H. apply forallb_forall. intros node Hin.
    rewrite Forall_forall in IH. apply IH.
    + apply list_elem_of_In, Hin.
    + rewrite forallb_forall in H. apply H, Hin.
Qed.

(** The trees of the parser hold no operator that the evaluator does not
    support: every operator of a tree that [build_expression_tree] returns
    has its function in [OP_FUNCTIONS_BINARY] or [OP_FUNCTIONS_UNARY]. *)
Theorem parsed_operators_are_supported
    (L : Libm) (token_list : list Token) (node : ExpNode) :
  build_expression_tree token_list = Ok node →
  operators_supported L node = true.
Proof.
  intros H. apply operators_known_supported. apply build_expression_tree_shape in H.
  tauto.
Qed.

Lemma parsed_operators_are_supported_witness :
  operators_supported libm_examples
    (BinaryOpNode (py "%") (NumberNode (PyInt 7) 0)
       (UnaryOpNode (py "!") (NumberNode (PyInt 3) 4) 5) 2)
  = true.
Proof.
  apply (parsed_operators_are_supported libm_examples
           [TokenNumber (PyInt 7) 0; TokenSymbol (py "%") 2; TokenNumber (PyInt 3) 4;
            TokenSymbol (py "!") 5]).
  reflexivity.
Defined.

(** ** The exceptions of [build_expression_tree] *)

Section IndexErrors.
Variable token_list : list Token.
Local Abbreviation len := (length token_list).
Local Abbreviation only := (index_error_only token_list).

Lemma index_error_only_Ok {A} (a : A) : only (Ok a).
Proof. intros kind msg. discriminate. Qed.

Lemma index_error_only_parsing {A} msg pos :
  only (Raise (ParsingException msg pos) : result A).
Proof. intros kind msg'. discriminate. Qed.

Lemma index_error_only_bind {A B} (r : result A) (k : A → result B) :
  only r → (∀ a, r = Ok a → only (k a)) → only (r ≫= k).
Proof.
  intros Hr Hk. destruct r as [a|e|]; cbn [mbind result_bind].
  - apply Hk. reflexivity.
  - intros kind msg [= ->]. apply (Hr kind msg). reflexivity.
  - intros kind msg. discriminate.
Qed.

Lemma getitem_in_range (i : nat) :
  (i < len)%nat → ∃ token, token_list !! i = Some token ∧ getitem token_list i = Ok token.
Proof.
  intros Hlt. destruct (lookup_lt_is_Some_2 token_list i Hlt) as [token Htoken].
  exists token. split; [exact Htoken|apply getitem_Some, Htoken].
Qed.

Lemma isinstance_TokenSymbol_symbol (token : Token) :
  isinstance_TokenSymbol token = true → ∃ symbol, token_symbol token = Ok symbol.
Proof. destruct token; try discriminate; cbn [token_symbol]; eauto. Qed.

Lemma last_expects_operand (index : nat) (token : Token) :
  token_list !! index = Some token →
  expects_operand token = true →
  (index + 1 < len)%nat ∨ ends_early token_list = true.
Proof.
  intros Htoken Hexp. pose proof (lookup_lt_Some _ _ _ Htoken) as Hlt.
  destruct (decide (index + 1 < len)%nat) as [|Hge]; [auto|right].
  unfold ends_early. rewrite last_lookup.
  replace (Nat.pred len) with index by lia. rewrite Htoken. exact Hexp.
Qed.

Lemma binary_symbol_expects_operand (token : Token) (symbol : str) :
  token_symbol token = Ok symbol → contains BINOP_TABLE symbol = true →
  expects_operand token = true.
Proof.
  destruct token; try discriminate; intros [= <-]; try exact id; reflexivity.
Qed.

Lemma read_exp_chain_Ok_lookup (fuel index : nat) node i :
  read_exp_chain token_list fuel index = Ok (node, i) → (index < len)%nat.
Proof.
  destruct fuel as [|fuel]; [discriminate|]. cbn [read_exp_chain].
  unfold getitem. destruct (token_list !! index) eqn:H; [|discriminate].
  intros _. eapply lookup_lt_Some, H.
Qed.

Lemma read_postfix_unary_exp_only (index : nat) (child : ExpNode) token symbol :
  token_list !! index = Some token → token_symbol token = Ok symbol →
  only (read_postfix_unary_exp token_list index child).
Proof.
  intros Htoken Hsym. unfold read_postfix_unary_exp.
  rewrite (getitem_Some _ _ _ Htoken). cbn [mbind result_bind].
  rewrite Hsym. cbn [mbind result_bind]. apply index_error_only_Ok.
Qed.

Lemma parser_index_error_only (fuel : nat) :
  (∀ index, (index < len)%nat ∨ ends_early token_list = true →
     only (read_exp_chain token_list fuel index))
  ∧ (∀ index, only (read_exp token_list fuel index))
  ∧ (∀ index p, token_list !! index = Some (TokenOpenBracket p) →
       only (read_bracket_exp token_list fuel index))
  ∧ (∀ index token symbol,
       token_list !! index = Some token → token_symbol token = Ok symbol →
       only (read_prefix_unary_exp token_list fuel index))
  ∧ (∀ index left_ token symbol,
       token_list !! index = Some token → token_symbol token = Ok symbol →
       contains BINOP_TABLE symbol = true →
       only (read_binary_exp token_list fuel index left_))
  ∧ (∀ index name p, token_list !! index = Some (TokenName name p) →
       only (read_func_call token_list fuel index))
  ∧ (∀ i args, only (read_func_call_loop token_list fuel i args)).
Proof.
  induction fuel as [|fuel (IHchain & IHexp & IHbracket & IHprefix & IHbinary & IHcall & IHloop)].
  { repeat (split; [intros; intros ? ?; discriminate|]). intros; intros ? ?; discriminate. }
  refine (conj _ (conj _ (conj _ (conj _ (conj _ (conj _ _)))))).
  - (* read_exp_chain *)
    intros index Hpre. cbn [read_exp_chain].
    destruct (token_list !! index) as [token|] eqn:Htoken.
    2:{ unfold getitem. rewrite Htoken. cbn [mbind result_bind].
        intros kind msg [= <- <-]. split; [reflexivity|]. split; [reflexivity|].
        destruct Hpre as [Hlt|Hearly]; [|exact Hearly].
        apply lookup_ge_None in Htoken. lia. }
    rewrite (getitem_Some _ _ _ Htoken). cbn [mbind result_bind].
    apply index_error_only_bind.
    { destruct (isinstance_TokenSymbol token) eqn:Hinst; [|apply IHexp].
      destruct (isinstance_TokenSymbol_symbol _ Hinst) as [symbol Hsym].
      rewrite Hsym. cbn [mbind result_bind].
      destruct (is_open_bracket token); [apply IHexp|].
      destruct (is_unary_op symbol); [|apply index_error_only_parsing].
      destruct (unary_affix_is symbol PREFIX); [|apply index_error_only_parsing].
      eapply IHprefix; eassumption. }
    intros [node i] _.
    destruct (i <? len)%nat eqn:Hlt; [|apply index_error_only_Ok].
    apply Nat.ltb_lt in Hlt. destruct (getitem_in_range i Hlt) as (next_token & Hnext & ->).
    cbn [mbind result_bind].
    apply index_error_only_bind.
    { destruct (isinstance_TokenSymbol next_token) eqn:Hinst; [|apply index_error_only_Ok].
      destruct (isinstance_TokenSymbol_symbol _ Hinst) as [symbol Hsym].
      rewrite Hsym. cbn [mbind result_bind].
      destruct (is_unary_op symbol && unary_affix_is symbol POSTFIX);
        [|apply index_error_only_Ok].
      eapply read_postfix_unary_exp_only; eassumption. }
    intros [node0 i0] _.
    destruct (i0 <? len)%nat eqn:Hlt0; [|apply index_error_only_Ok].
    apply Nat.ltb_lt in Hlt0.
    destruct (getitem_in_range i0 Hlt0) as (next_token0 & Hnext0 & ->).
    cbn [mbind result_bind].
    destruct (is_close_bracket next_token0); [apply index_error_only_Ok|].
    destruct (isinstance_TokenSymbol next_token0) eqn:Hinst0;
      [|apply index_error_only_parsing].
    destruct (isinstance_TokenSymbol_symbol _ Hinst0) as [symbol Hsym].
    rewrite Hsym. cbn [mbind result_bind].
    destruct (bool_decide (symbol = Separators.SEP_COMMA)); [apply index_error_only_Ok|].
    destruct (contains BINOP_TABLE symbol) eqn:Hop; [|apply index_error_only_parsing].
    eapply IHbinary; eassumption.
  - (* read_exp *)
    intros index. cbn [read_exp].
    destruct (len <=? index)%nat eqn:Hle.
    { unfold py_index. cbn [Z.ltb Z.compare].
      destruct (Z.of_nat len + -1 <? 0) eqn:Hneg.
      - cbn [mbind result_bind]. intros kind msg [= <- <-].
        split; [reflexivity|]. split; [reflexivity|].
        apply Z.ltb_lt in Hneg. destruct token_list; [reflexivity|cbn [length] in Hneg; lia].
      - apply Z.ltb_ge in Hneg.
        destruct (lookup_lt_is_Some_2 token_list (Z.to_nat (Z.of_nat len + -1)))
          as [last Hlast]; [lia|].
        rewrite Hlast. cbn [mbind result_bind]. apply index_error_only_parsing. }
    apply Nat.leb_gt in Hle.
    destruct (getitem_in_range index Hle) as (token & Htoken & ->).
    cbn [mbind result_bind].
    destruct token as [name pos|num pos|symbol pos|pos|pos];
      try apply index_error_only_parsing; try apply index_error_only_Ok.
    + destruct (index + 1 <? len)%nat eqn:Hlt; [|apply index_error_only_Ok].
      apply Nat.ltb_lt in Hlt.
      destruct (getitem_in_range (index + 1) Hlt) as (next_token & Hnext & ->).
      cbn [mbind result_bind].
      destruct (is_open_bracket next_token); [|apply index_error_only_Ok].
      eapply IHcall; eassumption.
    + eapply IHbracket; eassumption.
  - (* read_bracket_exp *)
    intros index p Hopen. cbn [read_bracket_exp].
    apply index_error_only_bind.
    { apply IHchain. eapply last_expects_operand; [exact Hopen|reflexivity]. }
    intros [node i] _.
    rewrite (getitem_Some _ _ _ Hopen). cbn [mbind result_bind].
    destruct (token_list !! i) as [[| | | |q]|];
      first [apply index_error_only_Ok | apply index_error_only_parsing].
  - (* read_prefix_unary_exp *)
    intros index token symbol Htoken Hsym. cbn [read_prefix_unary_exp].
    apply index_error_only_bind; [apply IHexp|]. intros [node i] _.
    rewrite (getitem_Some _ _ _ Htoken). cbn [mbind result_bind].
    rewrite Hsym. cbn [mbind result_bind]. apply index_error_only_Ok.
  - (* read_binary_exp *)
    intros index left_ token symbol Htoken Hsym Hop. cbn [read_binary_exp].
    apply index_error_only_bind.
    { apply IHchain. eapply last_expects_operand; [exact Htoken|].
      eapply binary_symbol_expects_operand; eassumption. }
    intros [right_ i] Hchain. apply read_exp_chain_Ok_lookup in Hchain.
    rewrite (getitem_Some _ _ _ Htoken). cbn [mbind result_bind].
    rewrite Hsym. cbn [mbind result_bind].
    destruct right_; try apply index_error_only_Ok.
    destruct (getitem_in_range (index + 1) Hchain) as (after & Hafter & ->).
    cbn [mbind result_bind].
    destruct (negb (is_open_bracket after));
      [destruct (is_higher_or_equal_op_priority _ _ _)|];
      apply index_error_only_Ok.
  - (* read_func_call *)
    intros index name p Hname. cbn [read_func_call].
    rewrite (getitem_Some _ _ _ Hname). cbn [mbind result_bind].
    apply index_error_only_bind; [apply IHloop|]. intros [i args] _.
    destruct (token_list !! i) as [[| | | |q]|];
      first [apply index_error_only_Ok | apply index_error_only_parsing].
  - (* read_func_call_loop *)
    intros i args. cbn [read_func_call_loop].
    destruct (token_list !! i) as [token|] eqn:Htoken; [|apply index_error_only_Ok].
    apply lookup_lt_Some in Htoken.
    assert (Harg : only
      ('(node, i0) ← read_exp_chain token_list fuel i;
       let args0 := args ++ [node] in
       match token_list !! i0 with
       | Some token0 =>
         if is_comma token0 then read_func_call_loop token_list fuel (i0 + 1) args0
         else Ok (i0, args0)
       | None => Ok (i0, args0)
       end)).
    { apply index_error_only_bind; [apply IHchain; auto|]. intros [node i0] _. cbv zeta.
      destruct (token_list !! i0) as [token0|]; [|apply index_error_only_Ok].
      destruct (is_comma token0); [apply IHloop|apply index_error_only_Ok]. }
    destruct token; try exact Harg. apply index_error_only_Ok.
Qed.
End IndexErrors.

(** What [build_expression_tree] does with a token list, whatever the list:
    it returns a tree, or raises a [ParsingException] whose position is that
    of a token of the list, or raises an [IndexError]; the last only for a
    list that is empty or ends with an open bracket or the symbol of a
    binary operator. *)
Theorem build_expression_tree_outcomes (token_list : list Token) :
  (∃ node, build_expression_tree token_list = Ok node)
  ∨ (∃ msg token,
        build_expression_tree token_list
        = Raise (ParsingException msg (Z.of_nat (token_pos token)))
        ∧ token ∈ token_list)
  ∨ (build_expression_tree token_list = Raise (Builtin IndexError None)
     ∧ ends_early token_list = true).
Proof.
  destruct (build_expression_tree token_list) as [node|e|] eqn:Hbuild.
  - left. eauto.
  - destruct e as [msg pos|msg inner|kind msg'].
    + right. left.
      apply build_expression_tree_raises_at_token in Hbuild as (token & Hin & -> & _).
      exists msg, token. auto.
    + apply build_expression_tree_raises_at_token in Hbuild. destruct Hbuild.
    + right. right. revert Hbuild. unfold build_expression_tree.
      destruct (parser_index_error_only token_list (parse_fuel token_list))
        as (Hchain & _).
      assert (Hpre : (0 < length token_list)%nat ∨ ends_early token_list = true).
      { destruct token_list; [right; reflexivity|left; cbn [length]; lia]. }
      specialize (Hchain 0%nat Hpre).
      destruct (read_exp_chain token_list (parse_fuel token_list) 0) as [[node i]|e|];
        cbn [mbind result_bind].
      * destruct (token_list !! i) as [last_token|]; [|discriminate].
        destruct (is_close_bracket last_token); discriminate.
      * intros [= ->]. destruct (Hchain kind msg' eq_refl) as (-> & -> & Hearly). auto.
      * discriminate.
  - destruct (build_expression_tree_total token_list Hbuild).
Qed.

(** ** The bound on the recursion *)

Section FuelStable.
Variable token_list : list Token.

Lemma settled_refl {A} (r : result A) : settled r r.
Proof. intros _. reflexivity. Qed.

Lemma settled_bind {A B} (r r' : result A) (k k' : A → result B) :
  settled r r' → (∀ a, settled (k a) (k' a)) → settled (r ≫= k) (r' ≫= k').
Proof.
  intros Hr Hk H. destruct r as [a|e|]; cbn [mbind result_bind] in H |- *.
  - rewrite Hr by discriminate. cbn [mbind result_bind]. apply Hk, H.
  - rewrite Hr by discriminate. reflexivity.
  - destruct H. reflexivity.
Qed.

Ltac settle :=
  repeat first
    [ apply settled_refl
    | assumption
    | apply settled_bind; [|intros ?]
    | match goal with
      | |- settled (let '(_, _) := ?p in _) _ => destruct p
      | |- settled (if ?c then _ else _) _ => destruct c
      | |- settled (match ?x with _ => _ end) _ => destruct x
      end ].

Lemma parser_fuel_stable (fuel : nat) :
  ∀ fuel', (fuel ≤ fuel')%nat →
    (∀ index, settled (read_exp_chain token_list fuel index)
                      (read_exp_chain token_list fuel' index))
    ∧ (∀ index, settled (read_exp token_list fuel index)
                        (read_exp token_list fuel' index))
    ∧ (∀ index, settled (read_bracket_exp token_list fuel index)
                        (read_bracket_exp token_list fuel' index))
    ∧ (∀ index, settled (read_prefix_unary_exp token_list fuel index)
                        (read_prefix_unary_exp token_list fuel' index))
    ∧ (∀ index left_, settled (read_binary_exp token_list fuel index left_)
                              (read_binary_exp token_list fuel' index left_))
    ∧ (∀ index, settled (read_func_call token_list fuel index)
                        (read_func_call token_list fuel' index))
    ∧ (∀ i args, settled (read_func_call_loop token_list fuel i args)
                         (read_func_call_loop token_list fuel' i args)).
Proof.
  induction fuel as [|fuel IH]; intros fuel' Hle.
  { repeat split; intros; intros H; destruct H; reflexivity. }
  destruct fuel' as [|fuel']; [lia|].
  destruct (IH fuel') as (IHchain & IHexp & IHbracket & IHprefix & IHbinary & IHcall & IHloop);
    [lia|].
  refine (conj _ (conj _ (conj _ (conj _ (conj _ (conj _ _)))))).
  - intros index. cbn [read_exp_chain]. settle; first [apply IHexp|apply IHprefix|apply IHbinary].
  - intros index. cbn [read_exp]. settle; first [apply IHbracket|apply IHcall].
  - intros index. cbn [read_bracket_exp]. settle; apply IHchain.
  - intros index. cbn [read_prefix_unary_exp]. settle; apply IHexp.
  - intros index left_. cbn [read_binary_exp]. settle; apply IHchain.
  - intros index. cbn [read_func_call]. settle; apply IHloop.
  - intros i args. cbn [read_func_call_loop]. settle; first [apply IHchain|apply IHloop].
Qed.
End FuelStable.

(** The bound on the recursion is no part of the result: with any bound
    from [parse_fuel] on, [read_exp_chain] at index 0 gives what
    [build_expression_tree] takes from it, which is a tree or an exception. *)
Lemma build_expression_tree_bound_is_enough (token_list : list Token) (fuel : nat) :
  (parse_fuel token_list ≤ fuel)%nat →
  read_exp_chain token_list fuel 0 = read_exp_chain token_list (parse_fuel token_list) 0
  ∧ build_expression_tree token_list ≠ OutOfFuel.
Proof.
  intros Hle. split; [|apply build_expression_tree_total].
  destruct (parser_fuel_stable token_list (parse_fuel token_list) fuel Hle) as (Hchain & _).
  apply Hchain. intros Hout.
  apply (build_expression_tree_total token_list). unfold build_expression_tree.
  rewrite Hout. reflexivity.
Qed.

(** ** Expressions within expressions *)

Section Upper.
Variable token_list : list Token.
Local Abbreviation len := (length token_list).

Lemma read_postfix_unary_exp_index index child node i :
  read_postfix_unary_exp token_list index child = Ok (node, i) →
  i = (index + 1)%nat ∧ (index < len)%nat.
Proof.
  unfold read_postfix_unary_exp. intros H.
  apply bind_Ok in H as (token & Htoken & H). apply getitem_Ok, lookup_lt_Some in Htoken.
  apply bind_Ok in H as (symbol & _ & H). injection H as _ <-. auto.
Qed.

Lemma parser_upper (fuel : nat) :
  (∀ index, upper token_list (read_exp_chain token_list fuel index))
  ∧ (∀ index, upper token_list (read_exp token_list fuel index))
  ∧ (∀ index, upper token_list (read_bracket_exp token_list fuel index))
  ∧ (∀ index, upper token_list (read_prefix_unary_exp token_list fuel index))
  ∧ (∀ index left_, upper token_list (read_binary_exp token_list fuel index left_))
  ∧ (∀ index, upper token_list (read_func_call token_list fuel index)).
Proof.
  induction fuel as [|fuel (IHchain & IHexp & IHbracket & IHprefix & IHbinary & IHcall)].
  { repeat split; intros; intros ? ?; discriminate. }
  refine (conj _ (conj _ (conj _ (conj _ (conj _ _))))).
  - intros index node' i' H. cbn [read_exp_chain] in H.
    apply bind_Ok in H as (token & Htoken & H).
    apply bind_Ok in H as ([node i] & Hfirst & H).
    assert (Hi : (i ≤ len)%nat).
    { destruct (isinstance_TokenSymbol token); [|eapply IHexp, Hfirst].
      apply bind_Ok in Hfirst as (symbol & Hsym & Hfirst).
      destruct (is_open_bracket token); [eapply IHexp, Hfirst|].
      destruct (is_unary_op symbol); [|discriminate].
      destruct (unary_affix_is symbol PREFIX); [|discriminate].
      eapply IHprefix, Hfirst. }
    destruct (i <? len)%nat eqn:Hlt; [|injection H as _ <-; exact Hi].
    apply bind_Ok in H as (next_token & Hnext & H).
    apply bind_Ok in H as ([node0 i0] & Hpost & H).
    assert (Hi0 : (i0 ≤ len)%nat).
    { destruct (isinstance_TokenSymbol next_token); [|injection Hpost as _ <-; exact Hi].
      apply bind_Ok in Hpost as (symbol & Hsym & Hpost).
      destruct (is_unary_op symbol && unary_affix_is symbol POSTFIX);
        [|injection Hpost as _ <-; exact Hi].
      apply read_postfix_unary_exp_index in Hpost. lia. }
    destruct (i0 <? len)%nat; [|injection H as _ <-; exact Hi0].
    apply bind_Ok in H as (next_token0 & Hnext0 & H).
    destruct (is_close_bracket next_token0); [injection H as _ <-; exact Hi0|].
    destruct (isinstance_TokenSymbol next_token0); [|discriminate].
    apply bind_Ok in H as (symbol & Hsym & H).
    destruct (bool_decide (symbol = Separators.SEP_COMMA)); [injection H as _ <-; exact Hi0|].
    destruct (contains BINOP_TABLE symbol); [|discriminate].
    eapply IHbinary, H.
  - intros index node' i' H. cbn [read_exp] in H.
    destruct (len <=? index)%nat eqn:Hle.
    { apply bind_Ok in H as (last & _ & H). discriminate. }
    apply Nat.leb_gt in Hle.
    apply bind_Ok in H as (token & Htoken & H).
    destruct token as [name pos|num pos|symbol pos|pos|pos]; try discriminate.
    + destruct (index + 1 <? len)%nat; [|injection H as _ <-; lia].
      apply bind_Ok in H as (next_token & Hnext & H).
      destruct (is_open_bracket next_token); [|injection H as _ <-; lia].
      eapply IHcall, H.
    + injection H as _ <-. lia.
    + eapply IHbracket, H.
  - intros index node' i' H. cbn [read_bracket_exp] in H.
    apply bind_Ok in H as ([node i] & Hchain & H).
    destruct (token_list !! i) as [[| | | |q]|] eqn:Hclose;
      try (apply bind_Ok in H as (? & _ & H); discriminate).
    injection H as _ <-. apply lookup_lt_Some in Hclose. lia.
  - intros index node' i' H. cbn [read_prefix_unary_exp] in H.
    apply bind_Ok in H as ([node i] & Hexp & H).
    apply bind_Ok in H as (token & _ & H). apply bind_Ok in H as (symbol & _ & H).
    injection H as _ <-. eapply IHexp, Hexp.
  - intros index left_ node' i' H. cbn [read_binary_exp] in H.
    apply bind_Ok in H as ([right_ i] & Hchain & H). apply IHchain in Hchain.
    apply bind_Ok in H as (token & _ & H). apply bind_Ok in H as (symbol & _ & H).
    destruct right_; try (injection H as _ <-; exact Hchain).
    apply bind_Ok in H as (after & _ & H).
    destruct (negb (is_open_bracket after));
      [destruct (is_higher_or_equal_op_priority _ _ _)|];
      injection H as _ <-; exact Hchain.
  - intros index node' i' H. cbn [read_func_call] in H.
    apply bind_Ok in H as (name_token & _ & H).
    apply bind_Ok in H as ([i args] & _ & H).
    destruct (token_list !! i) as [[| | | |q]|] eqn:Hclose; try discriminate.
    destruct name_token; try discriminate.
    injection H as _ <-. apply lookup_lt_Some in Hclose. lia.
Qed.

Lemma read_exp_upper fuel index node i :
  read_exp token_list fuel index = Ok (node, i) → (i ≤ len)%nat.
Proof. destruct (parser_upper fuel) as (_ & H & _). apply H. Qed.

Lemma read_prefix_unary_exp_upper fuel index node i :
  read_prefix_unary_exp token_list fuel index = Ok (node, i) → (i ≤ len)%nat.
Proof. destruct (parser_upper fuel) as (_ & _ & _ & H & _). apply H. Qed.

Lemma read_exp_chain_upper fuel index node i :
  read_exp_chain token_list fuel index = Ok (node, i) → (i ≤ len)%nat.
Proof. destruct (parser_upper fuel) as (H & _). apply H. Qed.
End Upper.

(** The token list [inner] between the tokens [pre] and the tokens [post],
    of which the first, if there is one, ends an expression. *)
Section Context.
Variables pre inner post : list Token.
Hypothesis Hpost : ∀ token, head post = Some token → stop_token token = true.

Local Abbreviation outer := (pre ++ inner ++ post).
Local Abbreviation k := (length pre).
Local Abbreviation len := (length inner).

Lemma outer_lookup (i : nat) :
  (i < len)%nat → outer !! (k + i)%nat = inner !! i.
Proof.
  intros Hlt. rewrite lookup_app_r by lia.
  replace (k + i - k)%nat with i by lia. apply lookup_app_l. exact Hlt.
Qed.

Lemma outer_lookup_Some (i : nat) (token : Token) :
  inner !! i = Some token → outer !! (k + i)%nat = Some token.
Proof. intros H. rewrite outer_lookup; [exact H|]. eapply lookup_lt_Some, H. Qed.

Lemma outer_lookup_end : outer !! (k + len)%nat = head post.
Proof.
  rewrite lookup_app_r by lia. replace (k + len - k)%nat with len by lia.
  rewrite lookup_app_r by lia. rewrite Nat.sub_diag. symmetry. apply head_lookup.
Qed.

Lemma outer_length : length outer = (k + len + length post)%nat.
Proof. rewrite !length_app. lia. Qed.

Lemma outer_in_range (i : nat) : (i < len)%nat → (k + i <? length outer)%nat = true.
Proof. intros H. apply Nat.ltb_lt. rewrite outer_length. lia. Qed.

Lemma stop_token_cases (token : Token) :
  stop_token token = true →
  (∃ p, token = TokenCloseBracket p) ∨ (∃ p, token = TokenSymbol Separators.SEP_COMMA p).
Proof.
  unfold stop_token. destruct token as [| |symbol p|p|p]; cbn [is_close_bracket is_comma orb];
    try discriminate; [|eauto].
  intros H. apply bool_decide_eq_true_1 in H as ->. eauto.
Qed.

(** The two looks ahead of [read_exp_chain] at the end of [inner]. *)
Lemma lookahead_at_end (fuel : nat) (node : ExpNode) :
  (if (k + len <? length outer)%nat then
     next_token ← getitem outer (k + len)%nat;
     '(node, i) ←
       (if isinstance_TokenSymbol next_token then
          symbol ← token_symbol next_token;
          if is_unary_op symbol && unary_affix_is symbol POSTFIX
          then read_postfix_unary_exp outer (k + len)%nat node
          else Ok (node, (k + len)%nat)
        else Ok (node, (k + len)%nat));
     if (i <? length outer)%nat then
       next_token ← getitem outer i;
       if is_close_bracket next_token then Ok (node, i)
       else if isinstance_TokenSymbol next_token then
         symbol ← token_symbol next_token;
         if bool_decide (symbol = Separators.SEP_COMMA) then Ok (node, i)
         else if contains BINOP_TABLE symbol then read_binary_exp outer fuel i node
         else Raise (ParsingException (unexpected_symbol symbol)
                                      (Z.of_nat (token_pos next_token)))
       else Raise (ParsingException (py "unexpected token")
                                    (Z.of_nat (token_pos next_token)))
     else Ok (node, i)
   else Ok (node, (k + len)%nat))
  = Ok (node, (k + len)%nat).
Proof using Hpost.
  destruct (k + len <? length outer)%nat eqn:Hlt; [|reflexivity].
  pose proof outer_lookup_end as Hend.
  destruct (head post) as [token|] eqn:Hhead.
  2:{ apply Nat.ltb_lt in Hlt. apply lookup_ge_None in Hend. lia. }
  rewrite (getitem_Some _ _ _ Hend). cbn [mbind result_bind].
  destruct (stop_token_cases token (Hpost token eq_refl)) as [[p ->]|[p ->]].
  - cbn [isinstance_TokenSymbol token_symbol mbind result_bind].
    replace (is_unary_op Separators.SEP_RIGHT_BRACKET) with false by (vm_compute; reflexivity).
    cbn [andb mbind result_bind]. rewrite Hlt, (getitem_Some _ _ _ Hend). reflexivity.
  - cbn [isinstance_TokenSymbol token_symbol mbind result_bind].
    replace (is_unary_op Separators.SEP_COMMA) with false by (vm_compute; reflexivity).
    cbn [andb mbind result_bind]. rewrite Hlt, (getitem_Some _ _ _ Hend).
    cbn [mbind result_bind is_close_bracket isinstance_TokenSymbol token_symbol].
    rewrite bool_decide_eq_true_2 by reflexivity. reflexivity.
Qed.

(** The second look ahead at the end of [inner]. *)
Lemma second_look_at_end (fuel : nat) (node : ExpNode) :
  (if (k + len <? length outer)%nat then
     next_token ← getitem outer (k + len)%nat;
     if is_close_bracket next_token then Ok (node, (k + len)%nat)
     else if isinstance_TokenSymbol next_token then
       symbol ← token_symbol next_token;
       if bool_decide (symbol = Separators.SEP_COMMA) then Ok (node, (k + len)%nat)
       else if contains BINOP_TABLE symbol
            then read_binary_exp outer fuel (k + len)%nat node
       else Raise (ParsingException (unexpected_symbol symbol)
                                    (Z.of_nat (token_pos next_token)))
     else Raise (ParsingException (py "unexpected token")
                                  (Z.of_nat (token_pos next_token)))
   else Ok (node, (k + len)%nat))
  = Ok (node, (k + len)%nat).
Proof using Hpost.
  destruct (k + len <? length outer)%nat eqn:Hlt; [|reflexivity].
  pose proof outer_lookup_end as Hend.
  destruct (head post) as [token|] eqn:Hhead.
  2:{ apply Nat.ltb_lt in Hlt. apply lookup_ge_None in Hend. lia. }
  rewrite (getitem_Some _ _ _ Hend). cbn [mbind result_bind].
  destruct (stop_token_cases token (Hpost token eq_refl)) as [[p ->]|[p ->]].
  - reflexivity.
  - cbn [mbind result_bind is_close_bracket isinstance_TokenSymbol token_symbol].
    rewrite bool_decide_eq_true_2 by reflexivity. reflexivity.
Qed.

Lemma read_postfix_unary_exp_context index child node i :
  read_postfix_unary_exp inner index child = Ok (node, i) →
  read_postfix_unary_exp outer (k + index) child = Ok (node, (k + i)%nat).
Proof.
  unfold read_postfix_unary_exp. intros H.
  apply bind_Ok in H as (token & Htoken & H). apply getitem_Ok in Htoken.
  rewrite (getitem_Some _ _ _ (outer_lookup_Some _ _ Htoken)). cbn [mbind result_bind].
  apply bind_Ok in H as (symbol & Hsym & H). rewrite Hsym. cbn [mbind result_bind].
  injection H as <- <-. do 2 f_equal. lia.
Qed.

Lemma parser_in_context (fuel : nat) :
  (∀ index, in_context k (read_exp_chain inner fuel index)
                       (read_exp_chain outer fuel (k + index)))
  ∧ (∀ index, in_context k (read_exp inner fuel index)
                         (read_exp outer fuel (k + index)))
  ∧ (∀ index, in_context k (read_bracket_exp inner fuel index)
                         (read_bracket_exp outer fuel (k + index)))
  ∧ (∀ index, in_context k (read_prefix_unary_exp inner fuel index)
                         (read_prefix_unary_exp outer fuel (k + index)))
  ∧ (∀ index left_, in_context k (read_binary_exp inner fuel index left_)
                               (read_binary_exp outer fuel (k + index) left_))
  ∧ (∀ index, in_context k (read_func_call inner fuel index)
                         (read_func_call outer fuel (k + index)))
  ∧ (∀ i args j args',
       read_func_call_loop inner fuel i args = Ok (j, args') → (j < len)%nat →
       read_func_call_loop outer fuel (k + i) args = Ok ((k + j)%nat, args')).
Proof using Hpost.
  induction fuel as [|fuel (IHchain & IHexp & IHbracket & IHprefix & IHbinary & IHcall & IHloop)].
  { repeat (split; [intros; intros ? ?; discriminate|]). intros; discriminate. }
  refine (conj _ (conj _ (conj _ (conj _ (conj _ (conj _ _)))))).
  - (* read_exp_chain *)
    intros index node' i' H. cbn [read_exp_chain] in H |- *.
    apply bind_Ok in H as (token & Htoken & H). apply getitem_Ok in Htoken.
    rewrite (getitem_Some _ _ _ (outer_lookup_Some _ _ Htoken)). cbn [mbind result_bind].
    apply bind_Ok in H as ([node i] & Hfirst & H).
    match goal with |- ?r ≫= _ = _ =>
      assert (Hfirst' : r = Ok (node, (k + i)%nat) ∧ (i ≤ len)%nat) end.
    { destruct (isinstance_TokenSymbol token).
      2:{ split; [eapply IHexp, Hfirst|eapply read_exp_upper, Hfirst]. }
      apply bind_Ok in Hfirst as (symbol & Hsym & Hfirst).
      rewrite Hsym. cbn [mbind result_bind].
      destruct (is_open_bracket token).
      { split; [eapply IHexp, Hfirst|eapply read_exp_upper, Hfirst]. }
      destruct (is_unary_op symbol); [|discriminate].
      destruct (unary_affix_is symbol PREFIX); [|discriminate].
      split; [eapply IHprefix, Hfirst|eapply read_prefix_unary_exp_upper, Hfirst]. }
    destruct Hfirst' as [-> Hi]. cbn [mbind result_bind].
    destruct (i <? len)%nat eqn:Hlt.
    2:{ injection H as <- <-. apply Nat.ltb_ge in Hlt.
        assert (i = len) as -> by lia. apply lookahead_at_end. }
    apply Nat.ltb_lt in Hlt. rewrite (outer_in_range _ Hlt).
    apply bind_Ok in H as (next_token & Hnext & H). apply getitem_Ok in Hnext.
    rewrite (getitem_Some _ _ _ (outer_lookup_Some _ _ Hnext)). cbn [mbind result_bind].
    apply bind_Ok in H as ([node0 i0] & Hlook & H).
    match goal with |- ?r ≫= _ = _ =>
      assert (Hlook' : r = Ok (node0, (k + i0)%nat) ∧ (i0 ≤ len)%nat) end.
    { destruct (isinstance_TokenSymbol next_token);
        [|injection Hlook as <- <-; split; [reflexivity|lia]].
      apply bind_Ok in Hlook as (symbol & Hsym & Hlook).
      rewrite Hsym. cbn [mbind result_bind].
      destruct (is_unary_op symbol && unary_affix_is symbol POSTFIX);
        [|injection Hlook as <- <-; split; [reflexivity|lia]].
      split; [apply read_postfix_unary_exp_context, Hlook|].
      apply read_postfix_unary_exp_index in Hlook. lia. }
    destruct Hlook' as [-> Hi0]. cbn [mbind result_bind].
    destruct (i0 <? len)%nat eqn:Hlt0.
    2:{ injection H as <- <-. apply Nat.ltb_ge in Hlt0.
        assert (i0 = len) as -> by lia. apply second_look_at_end. }
    apply Nat.ltb_lt in Hlt0. rewrite (outer_in_range _ Hlt0).
    apply bind_Ok in H as (next_token0 & Hnext0 & H). apply getitem_Ok in Hnext0.
    rewrite (getitem_Some _ _ _ (outer_lookup_Some _ _ Hnext0)). cbn [mbind result_bind].
    destruct (is_close_bracket next_token0); [injection H as <- <-; reflexivity|].
    destruct (isinstance_TokenSymbol next_token0); [|discriminate].
    apply bind_Ok in H as (symbol & Hsym & H). rewrite Hsym. cbn [mbind result_bind].
    destruct (bool_decide (symbol = Separators.SEP_COMMA));
      [injection H as <- <-; reflexivity|].
    destruct (contains BINOP_TABLE symbol); [|discriminate].
    eapply IHbinary, H.
  - (* read_exp *)
    intros index node' i' H. cbn [read_exp] in H |- *.
    destruct (len <=? index)%nat eqn:Hle.
    { apply bind_Ok in H as (last & _ & H). discriminate. }
    apply Nat.leb_gt in Hle.
    replace (length outer <=? k + index)%nat with false
      by (symmetry; apply Nat.leb_gt; rewrite outer_length; lia).
    apply bind_Ok in H as (token & Htoken & H). apply getitem_Ok in Htoken.
    rewrite (getitem_Some _ _ _ (outer_lookup_Some _ _ Htoken)). cbn [mbind result_bind].
    destruct token as [name pos|num pos|symbol pos|pos|pos]; try discriminate.
    + destruct (index + 1 <? len)%nat eqn:Hlt.
      * apply Nat.ltb_lt in Hlt.
        replace (k + index + 1)%nat with (k + (index + 1))%nat by lia.
        rewrite (outer_in_range _ Hlt).
        apply bind_Ok in H as (next_token & Hnext & H). apply getitem_Ok in Hnext.
        rewrite (getitem_Some _ _ _ (outer_lookup_Some _ _ Hnext)).
        cbn [mbind result_bind].
        destruct (is_open_bracket next_token);
          [eapply IHcall, H|injection H as <- <-; do 2 f_equal; lia].
      * injection H as <- <-. apply Nat.ltb_ge in Hlt.
        assert (index + 1 = len)%nat as Hend by lia.
        replace (k + (index + 1))%nat with (k + index + 1)%nat by lia.
        destruct (k + index + 1 <? length outer)%nat eqn:Hlt'; [|reflexivity].
        pose proof outer_lookup_end as Hlast. rewrite <- Hend in Hlast.
        replace (k + (index + 1))%nat with (k + index + 1)%nat in Hlast by lia.
        destruct (head post) as [token|] eqn:Hhead.
        2:{ apply Nat.ltb_lt in Hlt'. apply lookup_ge_None in Hlast. lia. }
        rewrite (getitem_Some _ _ _ Hlast). cbn [mbind result_bind].
        destruct (stop_token_cases token (Hpost token eq_refl)) as [[p ->]|[p ->]];
          reflexivity.
    + injection H as <- <-. do 2 f_equal. lia.
    + eapply IHbracket, H.
  - (* read_bracket_exp *)
    intros index node' i' H. cbn [read_bracket_exp] in H |- *.
    apply bind_Ok in H as ([node i] & Hchain & H).
    replace (k + index + 1)%nat with (k + (index + 1))%nat by lia.
    rewrite (IHchain _ _ _ Hchain). cbn [mbind result_bind].
    destruct (inner !! i) as [token|] eqn:Hclose.
    2:{ apply bind_Ok in H as (? & _ & H); discriminate. }
    rewrite (outer_lookup_Some _ _ Hclose).
    destruct token; try (apply bind_Ok in H as (? & _ & H); discriminate).
    injection H as <- <-. do 2 f_equal. lia.
  - (* read_prefix_unary_exp *)
    intros index node' i' H. cbn [read_prefix_unary_exp] in H |- *.
    apply bind_Ok in H as ([node i] & Hexp & H).
    replace (k + index + 1)%nat with (k + (index + 1))%nat by lia.
    rewrite (IHexp _ _ _ Hexp). cbn [mbind result_bind].
    apply bind_Ok in H as (token & Htoken & H). apply getitem_Ok in Htoken.
    rewrite (getitem_Some _ _ _ (outer_lookup_Some _ _ Htoken)). cbn [mbind result_bind].
    apply bind_Ok in H as (symbol & Hsym & H). rewrite Hsym. cbn [mbind result_bind].
    injection H as <- <-. reflexivity.
  - (* read_binary_exp *)
    intros index left_ node' i' H. cbn [read_binary_exp] in H |- *.
    apply bind_Ok in H as ([right_ i] & Hchain & H).
    replace (k + index + 1)%nat with (k + (index + 1))%nat by lia.
    rewrite (IHchain _ _ _ Hchain). cbn [mbind result_bind].
    apply bind_Ok in H as (token & Htoken & H). apply getitem_Ok in Htoken.
    rewrite (getitem_Some _ _ _ (outer_lookup_Some _ _ Htoken)). cbn [mbind result_bind].
    apply bind_Ok in H as (symbol & Hsym & H). rewrite Hsym. cbn [mbind result_bind].
    destruct right_; try (injection H as <- <-; reflexivity).
    apply bind_Ok in H as (after & Hafter & H). apply getitem_Ok in Hafter.
    rewrite (getitem_Some _ _ _ (outer_lookup_Some _ _ Hafter)). cbn [mbind result_bind].
    destruct (negb (is_open_bracket after));
      [destruct (is_higher_or_equal_op_priority _ _ _)|];
      injection H as <- <-; reflexivity.
  - (* read_func_call *)
    intros index node' i' H. cbn [read_func_call] in H |- *.
    apply bind_Ok in H as (name_token & Hname & H). apply getitem_Ok in Hname.
    rewrite (getitem_Some _ _ _ (outer_lookup_Some _ _ Hname)). cbn [mbind result_bind].
    apply bind_Ok in H as ([i args] & Hloop & H).
    destruct (inner !! i) as [token|] eqn:Hclose; [|discriminate].
    replace (k + index + 2)%nat with (k + (index + 2))%nat by lia.
    rewrite (IHloop _ _ _ _ Hloop) by (eapply lookup_lt_Some, Hclose).
    cbn [mbind result_bind]. rewrite (outer_lookup_Some _ _ Hclose).
    destruct token; try discriminate. destruct name_token; try discriminate.
    injection H as <- <-. do 2 f_equal. lia.
  - (* read_func_call_loop *)
    intros i args j args' H Hj. cbn [read_func_call_loop] in H |- *.
    destruct (inner !! i) as [token|] eqn:Htoken.
    2:{ injection H as <- <-. apply lookup_ge_None in Htoken. lia. }
    rewrite (outer_lookup_Some _ _ Htoken).
    assert (Harg :
      ('(node, i0) ← read_exp_chain inner fuel i;
       let args0 := args ++ [node] in
       match inner !! i0 with
       | Some token0 =>
         if is_comma token0 then read_func_call_loop inner fuel (i0 + 1) args0
         else Ok (i0, args0)
       | None => Ok (i0, args0)
       end) = Ok (j, args') →
      ('(node, i0) ← read_exp_chain outer fuel (k + i);
       let args0 := args ++ [node] in
       match outer !! i0 with
       | Some token0 =>
         if is_comma token0 then read_func_call_loop outer fuel (i0 + 1) args0
         else Ok (i0, args0)
       | None => Ok (i0, args0)
       end) = Ok ((k + j)%nat, args')).
    { clear H. intros H. apply bind_Ok in H as ([node i0] & Hchain & H).
      rewrite (IHchain _ _ _ Hchain). cbn [mbind result_bind]. cbv zeta in H |- *.
      destruct (inner !! i0) as [token0|] eqn:Htoken0.
      2:{ injection H as <- <-. apply lookup_ge_None in Htoken0. lia. }
      rewrite (outer_lookup_Some _ _ Htoken0).
      destruct (is_comma token0); [|injection H as <- <-; reflexivity].
      replace (k + i0 + 1)%nat with (k + (i0 + 1))%nat by lia.
      apply IHloop; assumption. }
    destruct token; try exact (Harg H). injection H as <- <-. reflexivity.
Qed.
End Context.

Section Steps.
Variable token_list : list Token.
Local Abbreviation len := (length token_list).

(** The two looks ahead of [read_exp_chain] at a token that ends an
    expression, or at the end of the list. *)
Lemma lookahead_stop (fuel : nat) (node : ExpNode) (i : nat) :
  (∀ token, token_list !! i = Some token → stop_token token = true) →
  (if (i <? len)%nat then
     next_token ← getitem token_list i;
     '(node, i) ←
       (if isinstance_TokenSymbol next_token then
          symbol ← token_symbol next_token;
          if is_unary_op symbol && unary_affix_is symbol POSTFIX
          then read_postfix_unary_exp token_list i node
          else Ok (node, i)
        else Ok (node, i));
     if (i <? len)%nat then
       next_token ← getitem token_list i;
       if is_close_bracket next_token then Ok (node, i)
       else if isinstance_TokenSymbol next_token then
         symbol ← token_symbol next_token;
         if bool_decide (symbol = Separators.SEP_COMMA) then Ok (node, i)
         else if contains BINOP_TABLE symbol then read_binary_exp token_list fuel i node
         else Raise (ParsingException (unexpected_symbol symbol)
                                      (Z.of_nat (token_pos next_token)))
       else Raise (ParsingException (py "unexpected token")
                                    (Z.of_nat (token_pos next_token)))
     else Ok (node, i)
   else Ok (node, i))
  = Ok (node, i).
Proof.
  intros Hstop. destruct (i <? len)%nat eqn:Hlt; [|reflexivity].
  apply Nat.ltb_lt in Hlt.
  destruct (lookup_lt_is_Some_2 token_list i Hlt) as [token Htoken].
  rewrite (getitem_Some _ _ _ Htoken). cbn [mbind result_bind].
  destruct (stop_token_cases token (Hstop token Htoken)) as [[p ->]|[p ->]].
  - cbn [isinstance_TokenSymbol token_symbol mbind result_bind].
    replace (is_unary_op Separators.SEP_RIGHT_BRACKET) with false by (vm_compute; reflexivity).
    cbn [andb mbind result_bind].
    apply Nat.ltb_lt in Hlt. rewrite Hlt, (getitem_Some _ _ _ Htoken). reflexivity.
  - cbn [isinstance_TokenSymbol token_symbol mbind result_bind].
    replace (is_unary_op Separators.SEP_COMMA) with false by (vm_compute; reflexivity).
    cbn [andb mbind result_bind].
    apply Nat.ltb_lt in Hlt. rewrite Hlt, (getitem_Some _ _ _ Htoken).
    cbn [mbind result_bind is_close_bracket isinstance_TokenSymbol token_symbol].
    rewrite bool_decide_eq_true_2 by reflexivity. reflexivity.
Qed.

(** [read_exp_chain] at a token that is no symbol or is an open bracket,
    when what [read_exp] reads from it is followed by a token that ends an
    expression or by nothing. *)
Lemma read_exp_chain_atom (fuel index : nat) token node i :
  token_list !! index = Some token →
  isinstance_TokenSymbol token = false ∨ is_open_bracket token = true →
  read_exp token_list fuel index = Ok (node, i) →
  (∀ next_token, token_list !! i = Some next_token → stop_token next_token = true) →
  read_exp_chain token_list (S fuel) index = Ok (node, i).
Proof.
  intros Htoken Hatom Hexp Hstop. cbn [read_exp_chain].
  rewrite (getitem_Some _ _ _ Htoken). cbn [mbind result_bind].
  match goal with |- ?r ≫= _ = _ => assert (Hfirst : r = Ok (node, i)) end.
  { destruct (isinstance_TokenSymbol token) eqn:Hinst; [|exact Hexp].
    destruct Hatom as [|Hopen]; [discriminate|].
    destruct token; try discriminate. cbn [token_symbol is_open_bracket mbind result_bind].
    exact Hexp. }
  rewrite Hfirst. cbn [mbind result_bind]. apply lookahead_stop, Hstop.
Qed.

Lemma read_exp_open_bracket (fuel index : nat) p node i q :
  token_list !! index = Some (TokenOpenBracket p) →
  read_exp_chain token_list fuel (index + 1) = Ok (node, i) →
  token_list !! i = Some (TokenCloseBracket q) →
  read_exp token_list (S (S fuel)) index = Ok (node, (i + 1)%nat).
Proof.
  intros Hopen Hchain Hclose.
  assert (Hbracket : read_bracket_exp token_list (S fuel) index = Ok (node, (i + 1)%nat)).
  { cbn [read_bracket_exp]. rewrite Hchain. cbn [mbind result_bind].
    rewrite Hclose. reflexivity. }
  cbn [read_exp].
  pose proof (lookup_lt_Some _ _ _ Hopen) as Hlt.
  replace (len <=? index)%nat with false by (symmetry; apply Nat.leb_gt; exact Hlt).
  rewrite (getitem_Some _ _ _ Hopen). cbn [mbind result_bind]. exact Hbracket.
Qed.

End Steps.

Lemma build_expression_tree_Ok (token_list : list Token) (node : ExpNode) :
  build_expression_tree token_list = Ok node →
  ∀ fuel, (parse_fuel token_list ≤ fuel)%nat →
    read_exp_chain token_list fuel 0 = Ok (node, length token_list).
Proof.
  intros Hbuild fuel Hfuel. unfold build_expression_tree in Hbuild.
  apply bind_Ok in Hbuild as ([node' i] & Hchain & Hbuild).
  destruct (token_list !! i) as [last_token|] eqn:Hlast.
  { destruct (is_close_bracket last_token); discriminate. }
  injection Hbuild as ->. apply lookup_ge_None in Hlast.
  pose proof (read_exp_chain_upper _ _ _ _ _ Hchain) as Hupper.
  assert (i = length token_list) as -> by lia.
  destruct (parser_fuel_stable token_list _ _ Hfuel) as (Hstable & _).
  rewrite Hstable; [exact Hchain|]. rewrite Hchain. discriminate.
Qed.

(** Brackets around an expression do not change its tree: when
    [build_expression_tree] gives a tree for a token list, it gives the same
    tree for the list between an open and a close bracket. *)
Theorem brackets_around_expression (token_list : list Token) (node : ExpNode) (p q : nat) :
  build_expression_tree token_list = Ok node →
  build_expression_tree (TokenOpenBracket p :: token_list ++ [TokenCloseBracket q])
  = Ok node.
Proof.
  intros Hbuild.
  set (outer := TokenOpenBracket p :: token_list ++ [TokenCloseBracket q]).
  assert (Hlen : length outer = (length token_list + 2)%nat).
  { unfold outer. cbn [length]. rewrite length_app. cbn [length]. lia. }
  assert (Hinner : read_exp_chain outer (4 * length token_list + 9) (0 + 1)
                   = Ok (node, (1 + length token_list)%nat)).
  { apply (parser_in_context [TokenOpenBracket p] token_list [TokenCloseBracket q]).
    - intros token [= <-]. reflexivity.
    - apply build_expression_tree_Ok; [exact Hbuild|]. unfold parse_fuel. lia. }
  assert (Hclose : outer !! (1 + length token_list)%nat = Some (TokenCloseBracket q)).
  { exact (outer_lookup_end [TokenOpenBracket p] token_list [TokenCloseBracket q]). }
  assert (Hchain : read_exp_chain outer (parse_fuel outer) 0
                   = Ok (node, (1 + length token_list + 1)%nat)).
  { unfold parse_fuel. rewrite Hlen.
    replace (4 * (length token_list + 2) + 4)%nat
      with (S (S (S (4 * length token_list + 9)))) by lia.
    eapply read_exp_chain_atom; [reflexivity|right; reflexivity| |].
    - eapply read_exp_open_bracket; [reflexivity|exact Hinner|exact Hclose].
    - intros token Htoken. apply lookup_lt_Some in Htoken. lia. }
  unfold build_expression_tree. rewrite Hchain. cbn [mbind result_bind].
  rewrite (proj2 (lookup_ge_None outer _)) by lia. reflexivity.
Qed.

Lemma brackets_around_expression_witness :
  build_expression_tree
    [TokenOpenBracket 0; TokenNumber (PyInt 1) 1; TokenSymbol (py "+") 3;
     TokenNumber (PyInt 2) 5; TokenCloseBracket 6]
  = Ok (BinaryOpNode (py "+") (NumberNode (PyInt 1) 1) (NumberNode (PyInt 2) 5) 3).
Proof.
  apply (brackets_around_expression
           [TokenNumber (PyInt 1) 1; TokenSymbol (py "+") 3; TokenNumber (PyInt 2) 5]).
  reflexivity.
Defined.

(** ** A bracketed right operand *)

Lemma binary_operator_no_postfix (op : str) :
  contains BINOP_TABLE op = true →
  is_unary_op op && unary_affix_is op POSTFIX = false
  ∧ op ≠ Separators.SEP_COMMA.
Proof.
  intros Hop. unfold contains in Hop. apply bool_decide_eq_true_1 in Hop as [oi Hoi].
  assert (H : priority <$> BINOP_TABLE !! op = Some (priority oi)) by (rewrite Hoi; reflexivity).
  apply binary_operators in H.
  destruct H as [[[->| ->] _]|[[[->|[->| ->]] _]| [-> _]]];
    (split; [vm_compute; reflexivity|intros [=]]).
Qed.

(** The right operand of a binary operator in brackets stays its right
    operand, whatever the operators inside the brackets are: for a number,
    the symbol of a binary operator and a token list in brackets,
    [build_expression_tree] gives the binary node of the number and the tree
    of the list. *)
Theorem bracketed_right_operand_is_not_rotated
    (num : value) (op : str) (p q r s : nat) (token_list : list Token) (node : ExpNode) :
  contains BINOP_TABLE op = true →
  build_expression_tree token_list = Ok node →
  build_expression_tree
    (TokenNumber num p :: TokenSymbol op q :: TokenOpenBracket r
       :: token_list ++ [TokenCloseBracket s])
  = Ok (BinaryOpNode op (NumberNode num p) node q).
Proof.
  intros Hop Hbuild.
  set (outer := TokenNumber num p :: TokenSymbol op q :: TokenOpenBracket r
                  :: token_list ++ [TokenCloseBracket s]).
  assert (Hlen : length outer = (length token_list + 4)%nat).
  { unfold outer. cbn [length]. rewrite length_app. cbn [length]. lia. }
  destruct (binary_operator_no_postfix op Hop) as [Hpostfix Hcomma].
  assert (Hinner : read_exp_chain outer (4 * length token_list + 15) (2 + 1)
                   = Ok (node, (3 + length token_list)%nat)).
  { apply (parser_in_context
             [TokenNumber num p; TokenSymbol op q; TokenOpenBracket r]
             token_list [TokenCloseBracket s]).
    - intros token [= <-]. reflexivity.
    - apply build_expression_tree_Ok; [exact Hbuild|]. unfold parse_fuel. lia. }
  assert (Hclose : outer !! (3 + length token_list)%nat = Some (TokenCloseBracket s)).
  { exact (outer_lookup_end [TokenNumber num p; TokenSymbol op q; TokenOpenBracket r]
             token_list [TokenCloseBracket s]). }
  assert (Hright : read_exp_chain outer (4 * length token_list + 18) (1 + 1)
                   = Ok (node, (3 + length token_list + 1)%nat)).
  { replace (4 * length token_list + 18)%nat
      with (S (S (S (4 * length token_list + 15)))) by lia.
    eapply read_exp_chain_atom; [reflexivity|right; reflexivity| |].
    - eapply read_exp_open_bracket; [reflexivity|exact Hinner|exact Hclose].
    - intros token Htoken. apply lookup_lt_Some in Htoken. lia. }
  assert (Hbinary : read_binary_exp outer (4 * length token_list + 19) 1 (NumberNode num p)
                    = Ok (BinaryOpNode op (NumberNode num p) node q,
                          (3 + length token_list + 1)%nat)).
  { replace (4 * length token_list + 19)%nat with (S (4 * length token_list + 18)) by lia.
    cbn [read_binary_exp]. rewrite Hright. cbn [mbind result_bind].
    rewrite (getitem_Some outer 1 (TokenSymbol op q) eq_refl).
    cbn [mbind result_bind token_symbol].
    rewrite (getitem_Some outer (1 + 1) (TokenOpenBracket r) eq_refl).
    destruct node; reflexivity. }
  assert (Hchain : read_exp_chain outer (parse_fuel outer) 0
                   = Ok (BinaryOpNode op (NumberNode num p) node q,
                         (3 + length token_list + 1)%nat)).
  { unfold parse_fuel. rewrite Hlen.
    replace (4 * (length token_list + 4) + 4)%nat
      with (S (4 * length token_list + 19)) by lia.
    cbn [read_exp_chain].
    rewrite (getitem_Some outer 0 (TokenNumber num p) eq_refl).
    cbn [mbind result_bind isinstance_TokenSymbol].
    replace (4 * length token_list + 19)%nat with (S (4 * length token_list + 18)) at 1 by lia.
    cbn [read_exp]. rewrite Hlen.
    replace (length token_list + 4 <=? 0)%nat with false
      by (symmetry; apply Nat.leb_gt; lia).
    rewrite (getitem_Some outer 0 (TokenNumber num p) eq_refl).
    cbn [mbind result_bind].
    replace (0 + 1 <? length token_list + 4)%nat with true
      by (symmetry; apply Nat.ltb_lt; lia).
    rewrite (getitem_Some outer (0 + 1) (TokenSymbol op q) eq_refl).
    cbn [mbind result_bind isinstance_TokenSymbol token_symbol].
    rewrite Hpostfix. cbn [mbind result_bind].
    replace (0 + 1 <? length token_list + 4)%nat with true
      by (symmetry; apply Nat.ltb_lt; lia).
    rewrite (getitem_Some outer (0 + 1) (TokenSymbol op q) eq_refl).
    cbn [mbind result_bind is_close_bracket isinstance_TokenSymbol token_symbol].
    rewrite bool_decide_eq_false_2 by exact Hcomma. rewrite Hop. exact Hbinary. }
  unfold build_expression_tree. rewrite Hchain. cbn [mbind result_bind].
  rewrite (proj2 (lookup_ge_None outer _)) by lia. reflexivity.
Qed.

Lemma bracketed_right_operand_is_not_rotated_witness :
  build_expression_tree
    [TokenNumber (PyInt 3) 0; TokenSymbol (py "×") 2; TokenOpenBracket 4;
     TokenNumber (PyInt 1) 5; TokenSymbol (py "+") 7; TokenNumber (PyInt 2) 9;
     TokenCloseBracket 10]
  = Ok (BinaryOpNode (py "×") (NumberNode (PyInt 3) 0)
          (BinaryOpNode (py "+") (NumberNode (PyInt 1) 5) (NumberNode (PyInt 2) 9) 7) 2).
Proof.
  apply (bracketed_right_operand_is_not_rotated (PyInt 3) (py "×") 0 2 4 10
           [TokenNumber (PyInt 1) 5; TokenSymbol (py "+") 7; TokenNumber (PyInt 2) 9]);
    reflexivity.
Defined.

(** ** The arguments of a call *)

Lemma build_expression_tree_first_token (token_list : list Token) (node : ExpNode) :
  build_expression_tree token_list = Ok node →
  ∃ token, token_list !! 0%nat = Some token ∧ is_close_bracket token = false.
Proof.
  unfold build_expression_tree, parse_fuel. intros H.
  apply bind_Ok in H as ([node' i] & Hchain & _).
  replace (4 * length token_list + 4)%nat with (S (4 * length token_list + 3)) in Hchain by lia.
  cbn [read_exp_chain] in Hchain.
  apply bind_Ok in Hchain as (token & Htoken & Hchain). apply getitem_Ok in Htoken.
  exists token. split; [exact Htoken|].
  destruct token; try reflexivity.
  apply bind_Ok in Hchain as (? & Hfirst & _).
  cbn [isinstance_TokenSymbol token_symbol mbind result_bind is_open_bracket] in Hfirst.
  replace (is_unary_op Separators.SEP_RIGHT_BRACKET) with false in Hfirst
    by (vm_compute; reflexivity).
  discriminate.
Qed.

Lemma more_arguments_cons (c : nat) (tokens : list Token) (rest : list (nat * list Token)) :
  more_arguments ((c, tokens) :: rest)
  = TokenSymbol Separators.SEP_COMMA c :: tokens ++ more_arguments rest.
Proof. reflexivity. Qed.

Lemma more_arguments_count (rest : list (nat * list Token)) :
  (length rest ≤ length (more_arguments rest))%nat.
Proof.
  induction rest as [|[c tokens] rest IH]; [reflexivity|].
  rewrite more_arguments_cons. cbn [length]. rewrite length_app. lia.
Qed.

Lemma more_arguments_length (rest : list (nat * list Token)) (arg : nat * list Token) :
  arg ∈ rest → (length arg.2 + length rest ≤ length (more_arguments rest))%nat.
Proof.
  induction rest as [|[c tokens] rest IH]; [intros H; inversion H|].
  rewrite more_arguments_cons. cbn [length]. rewrite length_app.
  pose proof (more_arguments_count rest) as Hcount.
  intros [->|Hin]%elem_of_cons.
  - cbn [snd]. lia.
  - specialize (IH Hin). lia.
Qed.

Lemma read_func_call_loop_arguments (rest : list (nat * list Token)) :
  ∀ (nodes : list ExpNode) (pre first post : list Token) (node0 : ExpNode)
    (acc : list ExpNode) (fuel r : nat),
    build_expression_tree first = Ok node0 →
    Forall2 (λ arg node, build_expression_tree arg.2 = Ok node) rest nodes →
    (parse_fuel first + length rest < fuel)%nat →
    (∀ arg, arg ∈ rest → (parse_fuel arg.2 + length rest < fuel)%nat) →
    read_func_call_loop
      (pre ++ first ++ more_arguments rest ++ TokenCloseBracket r :: post)
      fuel (length pre) acc
    = Ok ((length pre + length first + length (more_arguments rest))%nat,
          acc ++ node0 :: nodes).
Proof.
  induction rest as [|[c tokens] rest IH];
    intros nodes pre first post node0 acc fuel r Hfirst Hrest Hfuel Hfuels.
  - inversion Hrest; subst. cbn [more_arguments flat_map app length] in *.
    destruct fuel as [|fuel]; [lia|]. cbn [read_func_call_loop].
    destruct (build_expression_tree_first_token _ _ Hfirst) as (token & Htoken & Hnot).
    pose proof (outer_lookup_Some pre first (TokenCloseBracket r :: post) _ _ Htoken) as Hat.
    rewrite Nat.add_0_r in Hat. rewrite Hat.
    assert (Hchain : read_exp_chain (pre ++ first ++ TokenCloseBracket r :: post)
                       fuel (length pre + 0)
                     = Ok (node0, (length pre + length first)%nat)).
    { apply (parser_in_context pre first (TokenCloseBracket r :: post)).
      - intros t [= <-]. reflexivity.
      - apply build_expression_tree_Ok; [exact Hfirst|lia]. }
    rewrite Nat.add_0_r in Hchain.
    pose proof (outer_lookup_end pre first (TokenCloseBracket r :: post)) as Hend.
    cbn [head] in Hend.
    destruct token; try discriminate Hnot;
      rewrite Hchain; cbn [mbind result_bind]; cbv zeta; rewrite Hend;
      cbn [is_comma]; rewrite Nat.add_0_r; reflexivity.
  - inversion Hrest as [|? node1 ? nodes' Htokens Hrest']; subst.
    cbn [fst snd] in Htokens.
    rewrite more_arguments_cons.
    destruct fuel as [|fuel]; [lia|]. cbn [read_func_call_loop].
    set (post' := (TokenSymbol Separators.SEP_COMMA c :: tokens ++ more_arguments rest)
                    ++ TokenCloseBracket r :: post).
    destruct (build_expression_tree_first_token _ _ Hfirst) as (token & Htoken & Hnot).
    pose proof (outer_lookup_Some pre first post' _ _ Htoken) as Hat.
    rewrite Nat.add_0_r in Hat. rewrite Hat.
    assert (Hchain : read_exp_chain (pre ++ first ++ post') fuel (length pre + 0)
                     = Ok (node0, (length pre + length first)%nat)).
    { apply (parser_in_context pre first post').
      - intros t [= <-]. reflexivity.
      - apply build_expression_tree_Ok; [exact Hfirst|]. cbn [length] in Hfuel. lia. }
    rewrite Nat.add_0_r in Hchain.
    assert (Hend : (pre ++ first ++ post') !! (length pre + length first)%nat
                   = Some (TokenSymbol Separators.SEP_COMMA c))
      by exact (outer_lookup_end pre first post').
    assert (Hnext : read_func_call_loop (pre ++ first ++ post') fuel
                      (length pre + length first + 1) (acc ++ [node0])
                    = Ok ((length pre + length first
                          + length (TokenSymbol Separators.SEP_COMMA c
                                      :: tokens ++ more_arguments rest))%nat,
                          acc ++ node0 :: node1 :: nodes')).
    { specialize (IH nodes' (pre ++ first ++ [TokenSymbol Separators.SEP_COMMA c])
                    tokens post node1 (acc ++ [node0]) fuel r Htokens Hrest').
      replace ((pre ++ first ++ [TokenSymbol Separators.SEP_COMMA c])
               ++ tokens ++ more_arguments rest ++ TokenCloseBracket r :: post)
        with (pre ++ first ++ post') in IH.
      2:{ unfold post'. rewrite <- !app_assoc. cbn [app]. rewrite <- !app_assoc.
          reflexivity. }
      replace (length (pre ++ first ++ [TokenSymbol Separators.SEP_COMMA c]))
        with (length pre + length first + 1)%nat in IH
        by (rewrite !length_app; cbn [length]; lia).
      rewrite IH.
      - f_equal. f_equal.
        + cbn [length]. rewrite length_app. lia.
        + rewrite <- app_assoc. reflexivity.
      - specialize (Hfuels (c, tokens) (proj2 (elem_of_cons _ _ _) (or_introl eq_refl))).
        cbn [snd length] in Hfuels. lia.
      - intros arg Harg.
        specialize (Hfuels arg (proj2 (elem_of_cons _ _ _) (or_intror Harg))).
        cbn [length] in Hfuels. lia. }
    destruct token; try discriminate Hnot;
      rewrite Hchain; cbn [mbind result_bind]; cbv zeta; rewrite Hend;
      cbn [is_comma]; rewrite bool_decide_eq_true_2 by reflexivity; exact Hnext.
Qed.

(** The arguments of a call are expressions of their own: for a name, an
    open bracket, token lists between commas and a close bracket,
    [build_expression_tree] gives the call of the name with the trees that
    it gives for the lists, in their order. *)
Theorem call_arguments_are_expressions
    (name : str) (p q r : nat) (first : list Token) (node0 : ExpNode)
    (rest : list (nat * list Token)) (nodes : list ExpNode) :
  build_expression_tree first = Ok node0 →
  Forall2 (λ arg node, build_expression_tree arg.2 = Ok node) rest nodes →
  build_expression_tree
    (TokenName name p :: TokenOpenBracket q
       :: first ++ more_arguments rest ++ [TokenCloseBracket r])
  = Ok (FuncCallNode name (node0 :: nodes) p).
Proof.
  intros Hfirst Hrest.
  set (outer := TokenName name p :: TokenOpenBracket q
                  :: first ++ more_arguments rest ++ [TokenCloseBracket r]).
  assert (Hlen : length outer
                 = (length first + length (more_arguments rest) + 3)%nat).
  { unfold outer. cbn [length]. rewrite !length_app. cbn [length]. lia. }
  set (stop := (2 + length first + length (more_arguments rest))%nat).
  assert (Hloop : read_func_call_loop outer (4 * length outer + 1) (0 + 2) []
                  = Ok (stop, node0 :: nodes)).
  { apply (read_func_call_loop_arguments rest nodes
             [TokenName name p; TokenOpenBracket q] first [] node0 [] _ r Hfirst Hrest).
    - unfold parse_fuel. rewrite Hlen.
      pose proof (more_arguments_count rest). lia.
    - intros arg Harg. apply more_arguments_length in Harg.
      unfold parse_fuel. rewrite Hlen. lia. }
  assert (Hclose : outer !! stop = Some (TokenCloseBracket r)).
  { unfold outer, stop.
    change (TokenName name p :: TokenOpenBracket q
              :: first ++ more_arguments rest ++ [TokenCloseBracket r])
      with ([TokenName name p; TokenOpenBracket q]
              ++ first ++ more_arguments rest ++ [TokenCloseBracket r]).
    rewrite lookup_app_r by (cbn [length]; lia).
    rewrite lookup_app_r by (cbn [length]; lia).
    rewrite lookup_app_r by (cbn [length]; lia).
    match goal with |- _ !! ?n = _ => replace n with 0%nat by (cbn [length]; lia) end.
    reflexivity. }
  assert (Hcall : read_exp outer (4 * length outer + 3) 0
                  = Ok (FuncCallNode name (node0 :: nodes) p, (stop + 1)%nat)).
  { replace (4 * length outer + 3)%nat with (S (S (4 * length outer + 1))) by lia.
    cbn [read_exp].
    replace (length outer <=? 0)%nat with false by (symmetry; apply Nat.leb_gt; lia).
    rewrite (getitem_Some outer 0 (TokenName name p) eq_refl). cbn [mbind result_bind].
    replace (0 + 1 <? length outer)%nat with true by (symmetry; apply Nat.ltb_lt; lia).
    rewrite (getitem_Some outer (0 + 1) (TokenOpenBracket q) eq_refl).
    cbn [mbind result_bind is_open_bracket read_func_call].
    rewrite (getitem_Some outer 0 (TokenName name p) eq_refl). cbn [mbind result_bind].
    rewrite Hloop. cbn [mbind result_bind]. rewrite Hclose. reflexivity. }
  assert (Hchain : read_exp_chain outer (parse_fuel outer) 0
                   = Ok (FuncCallNode name (node0 :: nodes) p, (stop + 1)%nat)).
  { unfold parse_fuel.
    replace (4 * length outer + 4)%nat with (S (4 * length outer + 3)) by lia.
    eapply read_exp_chain_atom; [reflexivity|left; reflexivity|exact Hcall|].
    intros token Htoken. apply lookup_lt_Some in Htoken. unfold stop in Htoken. lia. }
  unfold build_expression_tree. rewrite Hchain. cbn [mbind result_bind].
  rewrite (proj2 (lookup_ge_None outer _)) by (unfold stop; lia). reflexivity.
Qed.

Lemma call_arguments_are_expressions_witness :
  build_expression_tree
    [TokenName (py "pow") 0; TokenOpenBracket 3; TokenNumber (PyInt 2) 4;
     TokenSymbol (py ",") 5; TokenNumber (PyInt 1) 7; TokenSymbol (py "+") 9;
     TokenNumber (PyInt 2) 11; TokenCloseBracket 12]
  = Ok (FuncCallNode (py "pow")
          [NumberNode (PyInt 2) 4;
           BinaryOpNode (py "+") (NumberNode (PyInt 1) 7) (NumberNode (PyInt 2) 11) 9] 0).
Proof.
  apply (call_arguments_are_expressions (py "pow") 0 3 12
           [TokenNumber (PyInt 2) 4] (NumberNode (PyInt 2) 4)
           [(5%nat, [TokenNumber (PyInt 1) 7; TokenSymbol (py "+") 9;
                     TokenNumber (PyInt 2) 11])]).
  - reflexivity.
  - repeat constructor.
Defined.

(** ** Two operators *)

(** Of two binary operators between three numbers the second is the root
    when its priority is not above that of the first, and the first is the
    root when the priority of the second is above its own. *)
Theorem two_operators_nest_by_priority
    (a1 a2 a3 : value) (op1 op2 : str) (p1 q1 p2 q2 p3 : nat) :
  contains BINOP_TABLE op1 = true →
  contains BINOP_TABLE op2 = true →
  build_expression_tree
    [TokenNumber a1 p1; TokenSymbol op1 q1; TokenNumber a2 p2;
     TokenSymbol op2 q2; TokenNumber a3 p3]
  = Ok (if priority_in BINOP_TABLE op2 <=? priority_in BINOP_TABLE op1
        then BinaryOpNode op2
               (BinaryOpNode op1 (NumberNode a1 p1) (NumberNode a2 p2) q1)
               (NumberNode a3 p3) q2
        else BinaryOpNode op1 (NumberNode a1 p1)
               (BinaryOpNode op2 (NumberNode a2 p2) (NumberNode a3 p3) q2) q1).
Proof.
  intros H1 H2. unfold contains in H1, H2.
  apply bool_decide_eq_true_1 in H1 as [oi1 H1], H2 as [oi2 H2].
  assert (H1' : priority <$> BINOP_TABLE !! op1 = Some (priority oi1))
    by (rewrite H1; reflexivity).
  assert (H2' : priority <$> BINOP_TABLE !! op2 = Some (priority oi2))
    by (rewrite H2; reflexivity).
  clear H1 H2. apply binary_operators in H1', H2'.
  destruct H1' as [[H1 _]|[[H1 _]|[H1 _]]];
    destruct H2' as [[H2 _]|[[H2 _]|[H2 _]]];
    repeat match goal with H : _ ∨ _ |- _ => destruct H as [H|H] end; subst;
    vm_compute; reflexivity.
Qed.

(** "2 × 3 + 4" and "2 + 3 × 4". *)
Lemma two_operators_nest_by_priority_witness :
  build_expression_tree
    [TokenNumber (PyInt 2) 0; TokenSymbol (py "+") 2; TokenNumber (PyInt 3) 4;
     TokenSymbol (py "×") 6; TokenNumber (PyInt 4) 8]
  = Ok (BinaryOpNode (py "+") (NumberNode (PyInt 2) 0)
          (BinaryOpNode (py "×") (NumberNode (PyInt 3) 4) (NumberNode (PyInt 4) 8) 6) 2).
Proof.
  apply (two_operators_nest_by_priority (PyInt 2) (PyInt 3) (PyInt 4) (py "+") (py "×"));
    reflexivity.
Defined.

(** ** The evaluator *)

Lemma binary_function (L : Libm) (op : str) :
  OP_FUNCTIONS_BINARY L !! op
  = if bool_decide (op = BinaryOperators.OP_ADD) then Some (py_add L)
    else if bool_decide (op = BinaryOperators.OP_MINUS) then Some (py_sub L)
    else if bool_decide (op = BinaryOperators.OP_MULTIPLY) then Some (py_mul L)
    else if bool_decide (op = BinaryOperators.OP_DIVIDE) then Some (py_truediv L)
    else if bool_decide (op = BinaryOperators.OP_POWER) then Some (py_pow L)
    else if bool_decide (op = BinaryOperators.OP_MOD) then Some (py_mod L)
    else None.
Proof.
  unfold OP_FUNCTIONS_BINARY, list_to_map. cbn [foldr fst snd].
  repeat (case_bool_decide;
          [subst op; apply lookup_insert_eq|rewrite lookup_insert_ne by congruence]).
  apply lookup_empty.
Qed.

Lemma unary_function (op : str) :
  OP_FUNCTIONS_UNARY !! op
  = if bool_decide (op = UnaryOperators.OP_POSITIVE) then Some py_pos
    else if bool_decide (op = UnaryOperators.OP_NEGATIVE) then Some py_neg
    else if bool_decide (op = UnaryOperators.OP_FACTORIAL) then Some math_factorial
    else None.
Proof.
  unfold OP_FUNCTIONS_UNARY, list_to_map. cbn [foldr fst snd].
  repeat (case_bool_decide;
          [subst op; apply lookup_insert_eq|rewrite lookup_insert_ne by congruence]).
  apply lookup_empty.
Qed.

(** Integer expressions are evaluated exactly: a tree that has an integer
    value evaluates to the [int] of that value, whatever the C library and
    the context are.  (The factorial of an integer above [LONG_MAX] has no
    value: it is an [OverflowError].) *)
Theorem integer_expressions_are_exact
    (L : Libm) (context : EvaluatorContext) (node : ExpNode) (n : Z) :
  integer_value node = Some n →
  _eval_node L context node = Ok (PyInt n).
Proof.
  revert n.
  induction node as [op l IHl r IHr pos|op child IH pos|num pos|name pos|id args pos];
    intros n Hn; cbn [integer_value] in Hn; try discriminate.
  - destruct (integer_value l) as [a|]; [|discriminate].
    destruct (integer_value r) as [b|]; [|discriminate].
    cbn [mbind option_bind] in Hn.
    rewrite _eval_node_unfold. unfold _eval_binary.
    rewrite binary_function, (IHl a eq_refl), (IHr b eq_refl).
    destruct (bool_decide (op = BinaryOperators.OP_ADD)) eqn:Hadd.
    { injection Hn as <-. reflexivity. }
    destruct (bool_decide (op = BinaryOperators.OP_MINUS)) eqn:Hsub.
    { injection Hn as <-. reflexivity. }
    destruct (bool_decide (op = BinaryOperators.OP_MULTIPLY)) eqn:Hmul.
    { injection Hn as <-. reflexivity. }
    destruct (bool_decide (op = BinaryOperators.OP_MOD)) eqn:Hmod.
    { apply bool_decide_eq_true_1 in Hmod as ->.
      destruct (b =? 0) eqn:Hb; [discriminate|]. injection Hn as <-.
      rewrite bool_decide_eq_false_2 by (intros [=]).
      rewrite bool_decide_eq_false_2 by (intros [=]).
      cbn [mbind result_bind py_mod]. rewrite Hb. reflexivity. }
    destruct (bool_decide (op = BinaryOperators.OP_POWER)) eqn:Hpow; [|discriminate].
    apply bool_decide_eq_true_1 in Hpow as ->.
    destruct (0 <=? b) eqn:Hb; [|discriminate]. injection Hn as <-.
    rewrite bool_decide_eq_false_2 by (intros [=]).
    cbn [mbind result_bind py_pow]. rewrite Hb. reflexivity.
  - destruct (integer_value child) as [a|]; [|discriminate].
    cbn [mbind option_bind] in Hn.
    rewrite _eval_node_unfold. unfold _eval_unary.
    rewrite unary_function, (IH a eq_refl).
    destruct (bool_decide (op = UnaryOperators.OP_POSITIVE)) eqn:Hpos.
    { injection Hn as <-. reflexivity. }
    destruct (bool_decide (op = UnaryOperators.OP_NEGATIVE)) eqn:Hneg.
    { injection Hn as <-. reflexivity. }
    destruct (bool_decide (op = UnaryOperators.OP_FACTORIAL)) eqn:Hfact; [|discriminate].
    destruct (a <? 0) eqn:Ha; [discriminate|].
    destruct (LONG_MAX <? a) eqn:Hlong; [discriminate|]. injection Hn as <-.
    cbn [mbind result_bind math_factorial]. rewrite Ha, Hlong. reflexivity.
  - destruct num; try discriminate. injection Hn as <-. reflexivity.
Qed.

(** 2 ^ 100 - 1, which no float holds. *)
Lemma integer_expressions_are_exact_witness :
  _eval_node libm_examples (new_EvaluatorContext None None)
    (BinaryOpNode (py "-")
       (BinaryOpNode (py "^") (NumberNode (PyInt 2) 0) (NumberNode (PyInt 100) 4) 2)
       (NumberNode (PyInt 1) 10) 8)
  = Ok (PyInt 1267650600228229401496703205375).
Proof.
  apply (integer_expressions_are_exact libm_examples (new_EvaluatorContext None None)).
  reflexivity.
Defined.

(** ** Constants *)

(** A constant given to the context replaces the constant of [math] of the
    same name, the two of [math] are there otherwise, and a name that is in
    neither fails with "unknown constant" and the name. *)
Theorem constants_of_the_context
    (L : Libm) (custom : gmap str value) (functions : option (gmap str PyFunction))
    (name : str) (pos : nat) :
  _eval_node L (new_EvaluatorContext (Some custom) functions) (NameConstantNode name pos)
  = match custom !! name with
    | Some v => Ok v
    | None =>
      match MATH_CONSTANTS !! name with
      | Some v => Ok v
      | None =>
        Raise (EvaluationException (py "unknown constant '" ++ name ++ py "'") None)
      end
    end.
Proof.
  rewrite _eval_node_unfold. unfold _eval_const.
  change (constants (new_EvaluatorContext (Some custom) functions))
    with (custom ∪ MATH_CONSTANTS).
  rewrite lookup_union.
  destruct (custom !! name) as [v|]; destruct (MATH_CONSTANTS !! name) as [w|]; reflexivity.
Qed.

(** ** The evaluator returns *)

Section EvaluatorReturns.
Variable L : Libm.
Variable context : EvaluatorContext.
Hypothesis HL : libm_returns L.
Hypothesis Hcontext : context_returns context.

Ltac arithmetic_returns :=
  destruct HL as [Hpow Hcomplex];
  unfold py_add, py_sub, py_mul, py_truediv, py_mod, py_pow, float_pow, float_op,
    complex_op, to_float, to_complex, int_to_float, int_true_divide, raise_builtin;
  repeat first
    [ discriminate
    | progress cbn [fmap result_fmap mbind result_bind]
    | match goal with
      | |- context [complex_arith ?L ?o ?x ?y] =>
        let E := fresh in
        destruct (complex_arith L o x y) eqn:E; [| |destruct (Hcomplex _ _ _ E)]
      | |- context [float_pow_real ?L ?x ?y] =>
        let E := fresh in
        destruct (float_pow_real L x y) eqn:E; [| |destruct (Hpow _ _ E)]
      | |- context [if ?c then _ else _] => destruct c
      end ].

Lemma binary_operators_return (fun_ : value → value → result value) (a b : value) :
  fun_ = py_add L ∨ fun_ = py_sub L ∨ fun_ = py_mul L ∨ fun_ = py_truediv L
  ∨ fun_ = py_pow L ∨ fun_ = py_mod L →
  fun_ a b ≠ OutOfFuel.
Proof using HL.
  intros Hfun.
  repeat destruct Hfun as [->|Hfun]; try subst fun_;
    destruct a as [m|x|re im], b as [k|y|re' im']; arithmetic_returns.
Qed.

Lemma unary_operators_return (fun_ : value → result value) (a : value) :
  fun_ = py_pos ∨ fun_ = py_neg ∨ fun_ = math_factorial → fun_ a ≠ OutOfFuel.
Proof.
  unfold py_pos, py_neg, math_factorial, raise_builtin.
  intros [->|[->| ->]]; destruct a; repeat case_match; discriminate.
Qed.

Lemma except_arithmetic_returns (r : result value) :
  r ≠ OutOfFuel → except_arithmetic r ≠ OutOfFuel.
Proof. destruct r as [v|[| |[] ?]|]; cbn [except_arithmetic]; congruence. Qed.

Lemma for_each_returns {A B} (f : A → result B) (l : list A) :
  Forall (λ x, f x ≠ OutOfFuel) l → for_each f l ≠ OutOfFuel.
Proof.
  induction 1 as [|x l Hx Hl IH]; cbn [for_each]; [discriminate|].
  destruct (f x) as [y|e|]; cbn [mbind result_bind]; [|discriminate|congruence].
  fold (for_each f l). destruct (for_each f l); cbn [mbind result_bind];
    [discriminate|discriminate|congruence].
Qed.

Lemma _eval_node_returns (node : ExpNode) : _eval_node L context node ≠ OutOfFuel.
Proof using HL Hcontext.
  induction node as [op l r pos IHl IHr|op child pos IH|num pos|name pos|id args pos IH]
    using ExpNode_nested_ind;
    rewrite _eval_node_unfold; apply except_arithmetic_returns.
  - unfold _eval_binary. rewrite binary_function.
    assert (Hfun : ∀ fun_,
      fun_ = py_add L ∨ fun_ = py_sub L ∨ fun_ = py_mul L ∨ fun_ = py_truediv L
      ∨ fun_ = py_pow L ∨ fun_ = py_mod L →
      (v_left ← _eval_node L context l;
       v_right ← _eval_node L context r;
       result ← fun_ v_left v_right;
       if isinstance_complex result
       then evaluation_error (py "invalid expression") else Ok result) ≠ OutOfFuel).
    { intros fun_ Hfun.
      destruct (_eval_node L context l) as [a|e|]; cbn [mbind result_bind];
        [|discriminate|congruence].
      destruct (_eval_node L context r) as [b|e|]; cbn [mbind result_bind];
        [|discriminate|congruence].
      pose proof (binary_operators_return fun_ a b Hfun) as Hret.
      destruct (fun_ a b) as [v|e|]; cbn [mbind result_bind]; [|discriminate|congruence].
      destruct (isinstance_complex v); discriminate. }
    repeat (case_bool_decide; [apply Hfun; tauto|]). discriminate.
  - unfold _eval_unary. rewrite unary_function.
    assert (Hfun : ∀ fun_,
      fun_ = py_pos ∨ fun_ = py_neg ∨ fun_ = math_factorial →
      (value ← _eval_node L context child; fun_ value) ≠ OutOfFuel).
    { intros fun_ Hfun.
      destruct (_eval_node L context child) as [a|e|]; cbn [mbind result_bind];
        [|discriminate|congruence].
      apply unary_operators_return, Hfun. }
    repeat (case_bool_decide; [apply Hfun; tauto|]). discriminate.
  - discriminate.
  - unfold _eval_const. destruct (constants context !! name); discriminate.
  - unfold _eval_func_call.
    destruct (functions context !! id) as [fun_|] eqn:Hfun; [|discriminate].
    cbv zeta. case_match; [|discriminate].
    pose proof (for_each_returns (_eval_node L context) args IH) as Hargs.
    destruct (for_each (_eval_node L context) args) as [values|e|];
      cbn [mbind result_bind]; [|discriminate|congruence].
    eapply Hcontext, Hfun.
Qed.

Lemma evaluate_returns (U : Unicode) (exp_or_node : str + ExpNode) :
  evaluate L context U exp_or_node ≠ OutOfFuel.
Proof using HL Hcontext.
  unfold evaluate. destruct exp_or_node as [exp|node]; cbn [mbind result_bind].
  - pose proof (parse_expression_total U exp) as Hparse.
    destruct (parse_expression U exp); cbn [mbind result_bind];
      [apply _eval_node_returns|discriminate|congruence].
  - apply _eval_node_returns.
Qed.
End EvaluatorReturns.

Lemma libm_examples_returns : libm_returns libm_examples.
Proof.
  split; [discriminate|]. intros o a b. unfold libm_examples, complex_arith, raise_builtin.
  destruct o; try discriminate. case_match; discriminate.
Qed.

Lemma new_EvaluatorContext_returns (constants : option (gmap str value)) :
  context_returns (new_EvaluatorContext constants None).
Proof.
  intros id fun_ values Hfun. unfold new_EvaluatorContext, functions, default in Hfun.
  rewrite (right_id_L ∅ (∪)), lookup_empty in Hfun. discriminate.
Qed.

(** ** Division *)

Lemma py_truediv_not_int (L : Libm) (a b : value) (n : Z) :
  py_truediv L a b ≠ Ok (PyInt n).
Proof.
  unfold py_truediv, float_op, complex_op, to_float, to_complex, raise_builtin.
  destruct a as [m|x|re im], b as [k|y|re' im'];
    repeat first
      [ discriminate
      | progress cbn [fmap result_fmap mbind result_bind]
      | match goal with
        | |- context [int_true_divide ?m ?k] => destruct (int_true_divide m k)
        | |- context [int_to_float ?m] => destruct (int_to_float m)
        | |- context [complex_arith ?L ?o ?x ?y] => destruct (complex_arith L o x y)
        | |- context [if ?c then _ else _] => destruct c
        end ].
Qed.

(** The quotient of a division node is a [float], also for two integers
    whose quotient is an integer. *)
Theorem division_gives_a_float
    (L : Libm) (context : EvaluatorContext) (left_ right_ : ExpNode) (pos : nat) (v : value) :
  _eval_node L context (BinaryOpNode BinaryOperators.OP_DIVIDE left_ right_ pos) = Ok v →
  ∃ x, v = PyFloat x.
Proof.
  intros H. rewrite _eval_node_unfold in H. apply except_arithmetic_Ok in H.
  unfold _eval_binary in H. rewrite binary_function in H.
  repeat (rewrite bool_decide_eq_false_2 in H by (intros [=])).
  rewrite bool_decide_eq_true_2 in H by reflexivity.
  destruct (_eval_node L context left_) as [a| |]; cbn [mbind result_bind] in H;
    try discriminate.
  destruct (_eval_node L context right_) as [b| |]; cbn [mbind result_bind] in H;
    try discriminate.
  destruct (py_truediv L a b) as [w| |] eqn:Hw; cbn [mbind result_bind] in H;
    try discriminate.
  destruct (isinstance_complex w) eqn:Hcomplex; [discriminate|]. injection H as <-.
  destruct w as [n|x|re im]; [|eauto|discriminate].
  destruct (py_truediv_not_int L a b n Hw).
Qed.

Lemma division_gives_a_float_witness :
  ∃ x, PyFloat 2 = PyFloat x.
Proof.
  apply (division_gives_a_float libm_examples (new_EvaluatorContext None None)
           (NumberNode (PyInt 4) 0) (NumberNode (PyInt 2) 4) 2).
  vm_compute. reflexivity.
Defined.

(** * The runtime *)

(** ** The model of the display *)

Ltac model_cases :=
  repeat match goal with
         | |- context [bool_decide ?P] =>
           let H := fresh in
           destruct (bool_decide P) eqn:H;
           [apply bool_decide_eq_true_1 in H
           |apply bool_decide_eq_false_1, dec_stable in H]
         end;
  cbn; congruence.

Lemma update_input (i h : str) (m : CalculatorRuntimeModel.t) :
  CalculatorRuntimeModel.input (CalculatorRuntimeModel.update i h m) = i.
Proof. unfold CalculatorRuntimeModel.update. model_cases. Qed.

Lemma update_hint (i h : str) (m : CalculatorRuntimeModel.t) :
  CalculatorRuntimeModel.hint (CalculatorRuntimeModel.update i h m) = h.
Proof. unfold CalculatorRuntimeModel.update. model_cases. Qed.

Lemma set_input_input (v : str) (m : CalculatorRuntimeModel.t) :
  CalculatorRuntimeModel.input (CalculatorRuntimeModel.set_input v m) = v.
Proof. unfold CalculatorRuntimeModel.set_input. model_cases. Qed.

Lemma set_input_hint (v : str) (m : CalculatorRuntimeModel.t) :
  CalculatorRuntimeModel.hint (CalculatorRuntimeModel.set_input v m)
  = CalculatorRuntimeModel.hint m.
Proof. unfold CalculatorRuntimeModel.set_input. model_cases. Qed.

Lemma set_hint_hint (v : str) (m : CalculatorRuntimeModel.t) :
  CalculatorRuntimeModel.hint (CalculatorRuntimeModel.set_hint v m) = v.
Proof. unfold CalculatorRuntimeModel.set_hint. model_cases. Qed.

Lemma set_hint_input (v : str) (m : CalculatorRuntimeModel.t) :
  CalculatorRuntimeModel.input (CalculatorRuntimeModel.set_hint v m)
  = CalculatorRuntimeModel.input m.
Proof. unfold CalculatorRuntimeModel.set_hint. model_cases. Qed.

(** The signal of the model is emitted when a line of the display changes,
    and then once: by the two setters, by [update], also when it changes both
    lines, and by [reset], which with [noSignal] emits none. *)
Theorem model_signals_when_the_display_changes (value input_ hint_ : str) :
  CalculatorRuntimeModel.emits_on_change (CalculatorRuntimeModel.set_hint value)
  ∧ CalculatorRuntimeModel.emits_on_change (CalculatorRuntimeModel.set_input value)
  ∧ CalculatorRuntimeModel.emits_on_change (CalculatorRuntimeModel.update input_ hint_)
  ∧ CalculatorRuntimeModel.emits_on_change (CalculatorRuntimeModel.reset false)
  ∧ ∀ self, CalculatorRuntimeModel.modelChange (CalculatorRuntimeModel.reset true self)
            = CalculatorRuntimeModel.modelChange self.
Proof.
  unfold CalculatorRuntimeModel.emits_on_change, CalculatorRuntimeModel.set_hint,
    CalculatorRuntimeModel.set_input, CalculatorRuntimeModel.update,
    CalculatorRuntimeModel.reset.
  repeat split; intros [h i n]; cbn [CalculatorRuntimeModel.hint CalculatorRuntimeModel.input
                                    CalculatorRuntimeModel.modelChange];
    repeat match goal with
           | |- context [bool_decide (?a ≠ ?b)] =>
             let H := fresh in
             destruct (bool_decide (a ≠ b)) eqn:H;
             [apply bool_decide_eq_true_1 in H
             |apply bool_decide_eq_false_1, dec_stable in H; try subst]
           end;
    cbn; try reflexivity;
    first [ rewrite bool_decide_eq_true_2 by (split; congruence); reflexivity
          | rewrite bool_decide_eq_false_2 by (intros [? ?]; congruence); reflexivity ].
Qed.

(** ** Slices *)

Lemma py_slice_from {A} (pre mid : list A) :
  py_slice (pre ++ mid) (Some (Z.of_nat (length pre))) None = mid.
Proof.
  unfold py_slice. cbv zeta. rewrite length_app.
  replace (Z.of_nat (length pre) <? 0) with false by (symmetry; apply Z.ltb_ge; lia).
  rewrite Z.min_r, Z.max_r by lia. rewrite Nat2Z.id, drop_app_length.
  apply firstn_all2. lia.
Qed.

Lemma py_slice_between {A} (pre mid post : list A) :
  post ≠ [] →
  py_slice (pre ++ mid ++ post) (Some (Z.of_nat (length pre)))
    (Some (- Z.of_nat (length post))) = mid.
Proof.
  intros Hpost. assert (0 < length post)%nat by (destruct post; [congruence|cbn; lia]).
  unfold py_slice. cbv zeta. rewrite !length_app.
  replace (Z.of_nat (length pre) <? 0) with false by (symmetry; apply Z.ltb_ge; lia).
  replace (- Z.of_nat (length post) <? 0) with true by (symmetry; apply Z.ltb_lt; lia).
  rewrite !Z.min_r, !Z.max_r by lia. rewrite Nat2Z.id, drop_app_length.
  replace (Z.to_nat _) with (length mid) by lia.
  apply take_app_length.
Qed.

Lemma py_slice_to {A} (mid post : list A) :
  post ≠ [] → py_slice (mid ++ post) None (Some (- Z.of_nat (length post))) = mid.
Proof.
  intros Hpost. assert (0 < length post)%nat by (destruct post; [congruence|cbn; lia]).
  unfold py_slice. cbv zeta. rewrite !length_app.
  replace (- Z.of_nat (length post) <? 0) with true by (symmetry; apply Z.ltb_lt; lia).
  rewrite !Z.min_r, !Z.max_r by lia. cbn [Z.to_nat drop].
  replace (Z.to_nat _) with (length mid) by lia.
  apply take_app_length.
Qed.

Section RuntimeProperties.
Import CalculatorRuntimeStandard.

(** ** The stack of states *)

Lemma py_index_last {A} (seq : list A) (a : A) :
  last seq = Some a → py_index seq (-1) = Ok a.
Proof.
  intros Hlast. unfold py_index. cbn [Z.ltb Z.compare].
  rewrite last_lookup in Hlast. pose proof (lookup_lt_Some _ _ _ Hlast) as Hlt.
  replace (Z.of_nat (length seq) + -1 <? 0) with false by (symmetry; apply Z.ltb_ge; lia).
  replace (Z.to_nat (Z.of_nat (length seq) + -1)) with (Nat.pred (length seq)) by lia.
  rewrite Hlast. reflexivity.
Qed.

Lemma well_formed_last (self : t) :
  well_formed self → ∃ top, last (_stateStack self) = Some top.
Proof.
  intros [[rest ->] _]. destruct (last (ANY :: rest)) as [top|] eqn:H; [eauto|].
  apply last_None in H. discriminate.
Qed.

Lemma _peekState_well_formed (self : t) :
  well_formed self →
  ∃ top, _peekState self = Ok top ∧ last (_stateStack self) = Some top.
Proof.
  intros Hwf. destruct (well_formed_last self Hwf) as [top Htop].
  exists top. split; [apply py_index_last, Htop|exact Htop].
Qed.

Lemma well_formed_with_model f (self : t) :
  well_formed self → well_formed (with_model f self).
Proof. exact id. Qed.

Lemma well_formed_push (self : t) (code : StdRTStates) :
  well_formed self → well_formed (with_stateStack (_stateStack self ++ [code]) self).
Proof. intros [[rest Hrest] Hn]. split; [|exact Hn]. cbn. rewrite Hrest. eauto. Qed.

Lemma well_formed_resetState (self : t) : well_formed self → well_formed (_resetState self).
Proof. intros [_ Hn]. split; [exists []; reflexivity|exact Hn]. Qed.

(** [_setState] returns, and changes the stack only. *)
Lemma _setState_well_formed (code : StdRTStates) (self : t) :
  well_formed self →
  ∃ self', _setState code self = Ok self'
           ∧ well_formed self'
           ∧ model self' = model self
           ∧ _uncloseBrackets self' = _uncloseBrackets self.
Proof.
  intros Hwf. unfold _setState.
  set (self0 := if bool_decide (code ∈ [EVAL; ERROR; BINOP]) then _resetState self else self).
  assert (Hwf0 : well_formed self0
                 ∧ model self0 = model self
                 ∧ _uncloseBrackets self0 = _uncloseBrackets self).
  { unfold self0. case_bool_decide; [|auto].
    split; [apply well_formed_resetState, Hwf|auto]. }
  destruct Hwf0 as (Hwf0 & Hmodel & Hn).
  destruct (_peekState_well_formed self0 Hwf0) as (top & Hpeek & _).
  rewrite Hpeek. cbn [mbind result_bind].
  assert (Hpush : ∀ self1 : t,
    well_formed self1 → model self1 = model self →
    _uncloseBrackets self1 = _uncloseBrackets self →
    ∃ self', Ok (with_stateStack (_stateStack self1 ++ [code]) self1) = Ok self'
             ∧ well_formed self' ∧ model self' = model self
             ∧ _uncloseBrackets self' = _uncloseBrackets self).
  { intros self1 Hwf1 Hm1 Hn1. eexists. split; [reflexivity|].
    split; [apply well_formed_push, Hwf1|auto]. }
  destruct (bool_decide (code ≠ ANY)); cbn [mbind result_bind].
  - destruct (bool_decide (code = BINOP)); [apply Hpush; assumption|].
    destruct (bool_decide (top = BINOP)); apply Hpush; try assumption.
    apply well_formed_push, Hwf0.
  - destruct (bool_decide (code ≠ top)); [|eauto].
    destruct (bool_decide (code = BINOP)); [apply Hpush; assumption|].
    destruct (bool_decide (top = BINOP)); apply Hpush; try assumption.
    apply well_formed_push, Hwf0.
Qed.

Lemma removelast_head (rest : list StdRTStates) :
  (0 < length rest)%nat → ∃ rest', removelast (ANY :: rest) = ANY :: rest'.
Proof. destruct rest; [cbn; lia|]. intros _. cbn [removelast]. eauto. Qed.

Lemma _popState_well_formed (self : t) :
  well_formed self →
  ∃ top self', _popState self = Ok (top, self')
               ∧ well_formed self'
               ∧ model self' = model self
               ∧ _uncloseBrackets self' = _uncloseBrackets self.
Proof.
  intros Hwf. destruct (_peekState_well_formed self Hwf) as (top & Hpeek & _).
  unfold _popState. fold (_peekState self). rewrite Hpeek. cbn [mbind result_bind].
  destruct (1 <? length (_stateStack self))%nat eqn:Hlen; [|eauto 10].
  eexists _, _. split; [reflexivity|]. split; [|auto].
  destruct Hwf as [[rest Hrest] Hn]. split; [|exact Hn].
  cbn [_stateStack with_stateStack]. rewrite Hrest in Hlen |- *.
  apply removelast_head. apply Nat.ltb_lt in Hlen. cbn [length] in Hlen. lia.
Qed.

Lemma justEvaluated_well_formed (self : t) :
  well_formed self → ∃ b, justEvaluated self = Ok b.
Proof.
  intros Hwf. destruct (_peekState_well_formed self Hwf) as (top & Hpeek & _).
  unfold justEvaluated. rewrite Hpeek. eauto.
Qed.

Lemma isError_well_formed (self : t) :
  well_formed self → ∃ b, isError self = Ok b.
Proof.
  intros Hwf. destruct (_peekState_well_formed self Hwf) as (top & Hpeek & _).
  unfold isError. rewrite Hpeek. eauto.
Qed.

Lemma _matchState_well_formed (codes : list StdRTStates) (self : t) :
  well_formed self → ∃ b, _matchState codes self = Ok b.
Proof.
  intros Hwf. destruct (_peekState_well_formed self Hwf) as (top & Hpeek & _).
  unfold _matchState. rewrite Hpeek. eauto.
Qed.

Lemma _clearEval_well_formed (self : t) :
  well_formed self →
  ∃ self', _clearEval self = Ok self'
           ∧ well_formed self'
           ∧ input self' = input self
           ∧ _uncloseBrackets self' = _uncloseBrackets self.
Proof.
  intros Hwf. unfold _clearEval.
  destruct (justEvaluated_well_formed self Hwf) as [[|] ->]; cbn [mbind result_bind];
    [|eauto].
  set (self0 := with_model (CalculatorRuntimeModel.set_hint []) self).
  assert (Hwf0 : well_formed self0) by exact Hwf.
  destruct (_popState_well_formed self0 Hwf0) as (top & self' & -> & Hwf' & Hmodel & Hn).
  cbn [mbind result_bind]. exists self'. split; [reflexivity|]. split; [exact Hwf'|].
  split; [|exact Hn]. unfold input. rewrite Hmodel. unfold self0, with_model. cbn [model].
  unfold CalculatorRuntimeModel.set_hint. case_bool_decide; reflexivity.
Qed.

Lemma _clearInput_well_formed (self : t) : well_formed self → well_formed (_clearInput self).
Proof.
  intros [_ Hn]. unfold _clearInput. split; [exists []; reflexivity|].
  cbn [_uncloseBrackets _resetState with_stateStack with_model].
  generalize (_stateStack self) at 1. intros stack. revert self Hn.
  induction stack as [|s stack IH]; intros self Hn; cbn [fold_left]; [exact Hn|].
  apply IH. case_bool_decide; [cbn; lia|exact Hn].
Qed.

Lemma well_formed_reset (self : t) : well_formed (reset self).
Proof. split; [exists []; reflexivity|]. cbn. lia. Qed.

Lemma _popTopMostState_loop_head (fuel : nat) (code : StdRTStates)
    (rest : list StdRTStates) (i : nat) found stack :
  _popTopMostState_loop fuel code (ANY :: rest) i = Ok (found, stack) →
  ∃ rest', stack = ANY :: rest'.
Proof.
  revert found stack. induction fuel as [|fuel IH]; intros found stack;
    cbn [_popTopMostState_loop]; destruct (1 <? i)%nat eqn:Hi;
    try discriminate; try (intros [= <- <-]; eauto).
  apply Nat.ltb_lt in Hi. destruct i as [|[|i]]; try lia.
  destruct (getitem (ANY :: rest) (S (S i))) as [state| |]; cbn [mbind result_bind];
    try discriminate.
  destruct (bool_decide (state = code)); [|apply IH].
  destruct rest as [|r1 rest]; cbn [delete].
  - cbn. intros [= <- <-]. eauto.
  - match goal with |- context [(if ?c then _ else _) ≫= _] => destruct c end;
      cbn [mbind result_bind]; [|intros [= <- <-]; eauto].
    match goal with |- context [getitem ?l ?j ≫= _] => destruct (getitem l j) as [here| |] end;
      cbn [mbind result_bind]; try discriminate.
    match goal with |- context [(if ?c then _ else _) ≫= _] => destruct c end;
      cbn [mbind result_bind].
    + match goal with |- context [getitem ?l ?j ≫= _] =>
        destruct (getitem l j) as [before| |] end;
        cbn [mbind result_bind]; try discriminate.
      destruct (bool_decide (before = ANY)); intros [= <- <-]; cbn [delete]; eauto.
    + intros [= <- <-]. eauto.
Qed.

Lemma _popTopMostState_well_formed (fuel : nat) (code : StdRTStates) (self : t) found self' :
  well_formed self →
  _popTopMostState fuel code self = Ok (found, self') →
  well_formed self' ∧ model self' = model self
  ∧ _uncloseBrackets self' = _uncloseBrackets self.
Proof.
  intros [[rest Hrest] Hn]. unfold _popTopMostState.
  destruct (1 <? length (_stateStack self))%nat; [|intros [= <- <-]; split; [split|]; eauto].
  rewrite Hrest.
  destruct (_popTopMostState_loop fuel code (ANY :: rest) (length (ANY :: rest) - 1))
    as [[found' stack]| |] eqn:Hloop; cbn [mbind result_bind]; try discriminate.
  intros [= <- <-]. apply _popTopMostState_loop_head in Hloop as [rest' ->].
  split; [split; [eexists; reflexivity|exact Hn]|auto].
Qed.

(** ** The loop of [_popTopMostState] *)

Lemma delete_last (stack : list StdRTStates) :
  delete (length stack - 1)%nat stack = removelast stack.
Proof.
  induction stack as [|s stack IH]; [reflexivity|].
  destruct stack as [|s' stack]; [reflexivity|].
  replace (length (s :: s' :: stack) - 1)%nat with (S (length (s' :: stack) - 1))
    by (cbn [length]; lia).
  change (s :: delete (length (s' :: stack) - 1)%nat (s' :: stack)
          = s :: removelast (s' :: stack)).
  f_equal. exact IH.
Qed.

Lemma _popTopMostState_loop_top (fuel : nat) (code : StdRTStates)
    (stack : list StdRTStates) :
  (2 < length stack)%nat →
  _popTopMostState_loop fuel code stack (length stack - 1)
  = if bool_decide (last stack = Some code) then
      match fuel with
      | O => OutOfFuel
      | S _ => Ok (true, removelast stack)
      end
    else OutOfFuel.
Proof.
  intros Hlen.
  destruct (lookup_lt_is_Some_2 stack (length stack - 1)) as [top Htop]; [lia|].
  assert (Hlast : last stack = Some top).
  { rewrite last_lookup. rewrite <- Htop. f_equal. lia. }
  rewrite Hlast.
  induction fuel as [|fuel IH]; cbn [_popTopMostState_loop];
    replace (1 <? length stack - 1)%nat with true by (symmetry; apply Nat.ltb_lt; lia).
  { case_bool_decide; reflexivity. }
  rewrite (getitem_Some _ _ _ Htop). cbn [mbind result_bind].
  destruct (decide (top = code)) as [->|Hne].
  - rewrite !bool_decide_eq_true_2 by reflexivity.
    rewrite delete_last.
    replace (length stack - 1 <? length (removelast stack))%nat with false; [reflexivity|].
    symmetry. apply Nat.ltb_ge. rewrite removelast_firstn_len, length_take. lia.
  - rewrite bool_decide_eq_false_2 by exact Hne. rewrite IH.
    rewrite bool_decide_eq_false_2 by congruence. reflexivity.
Qed.

(** ** The handlers *)

Local Abbreviation handled r := (∃ self', r = Ok self' ∧ well_formed self').

Lemma handled_Ok (self : t) : well_formed self → handled (Ok self).
Proof. eauto. Qed.

Lemma handled_setState (code : StdRTStates) (self : t) :
  well_formed self → handled (_setState code self).
Proof.
  intros Hwf. destruct (_setState_well_formed code self Hwf) as (self' & -> & Hwf' & _).
  eauto.
Qed.

Lemma handled_popState (self : t) :
  well_formed self → handled ('(_, self) ← _popState self; Ok self).
Proof.
  intros Hwf. destruct (_popState_well_formed self Hwf) as (top & self' & -> & Hwf' & _).
  cbn [mbind result_bind]. eauto.
Qed.

Ltac peek Hwf :=
  let top := fresh "top" in
  let Hpeek := fresh "Hpeek" in
  destruct (_peekState_well_formed _ Hwf) as (top & Hpeek & _);
  unfold isError, justEvaluated, _canChangeNumber, _canEvaluate, _matchState;
  rewrite ?Hpeek; cbn [mbind result_bind fmap result_fmap].

Section Handlers.
Variable U : Unicode.
Variable L : Libm.
Variable context : EvaluatorContext.
Variable formatNumber : value → Z → Z → result str.

Lemma _clearHandle_handled (self : t) : handled (_clearHandle self).
Proof. eexists. split; [reflexivity|apply well_formed_reset]. Qed.

Lemma _inputClearHandle_handled (self : t) :
  well_formed self → handled (_inputClearHandle self).
Proof.
  intros Hwf. unfold _inputClearHandle. peek Hwf.
  case_bool_decide; apply handled_Ok;
    [apply well_formed_reset|apply _clearInput_well_formed, Hwf].
Qed.

Lemma _eraseHandle_handled (self : t) :
  well_formed self → handled (_eraseHandle U self).
Proof.
  intros Hwf. unfold _eraseHandle. peek Hwf.
  case_bool_decide; [apply handled_Ok, well_formed_reset|].
  case_bool_decide; [apply handled_popState, Hwf|].
  case_bool_decide; [apply handled_popState, Hwf|].
  case_bool_decide; [apply handled_popState, Hwf|].
  case_bool_decide.
  { match goal with |- context [_popState ?s] =>
      destruct (_popState_well_formed s Hwf) as (top' & self' & -> & Hwf' & _ & Hn) end.
    cbn [mbind result_bind]. eexists. split; [reflexivity|].
    destruct Hwf' as [Hstack Hn']. split; [exact Hstack|]. cbn. lia. }
  destruct (_clearEval_well_formed self Hwf) as (self1 & -> & Hwf1 & _).
  cbn [mbind result_bind].
  destruct (1 <? length (input self))%nat; apply handled_setState, Hwf1.
Qed.

Lemma _numberHandle_handled (number : str) (self : t) :
  well_formed self → handled (_numberHandle number self).
Proof.
  intros Hwf. unfold _numberHandle. peek Hwf.
  destruct (negb _); [|apply handled_Ok, Hwf].
  destruct (bool_decide (top = EVAL)); cbn [mbind result_bind].
  { apply handled_setState, Hwf. }
  destruct (bool_decide (top = ERROR)); [apply handled_setState, Hwf|].
  repeat case_bool_decide; apply handled_setState, Hwf.
Qed.

Lemma _dotHandle_handled (self : t) : well_formed self → handled (_dotHandle self).
Proof.
  intros Hwf. unfold _dotHandle. peek Hwf.
  destruct (bool_decide (top = ERROR)); cbn [mbind result_bind];
    [apply handled_Ok, Hwf|].
  destruct (negb _); [|apply handled_Ok, Hwf].
  assert (Hnext : ∀ self1 : t, well_formed self1 →
    handled (if negb (bool_decide (46%N ∈ input self1))
             then _setState ANY
                    (with_model (CalculatorRuntimeModel.set_input (input self1 ++ DOT)) self1)
             else Ok self1)).
  { intros self1 Hwf1. destruct (negb _); [apply handled_setState|apply handled_Ok];
      exact Hwf1. }
  destruct (bool_decide (top = EVAL)).
  - match goal with |- context [_setState ANY ?s] =>
      destruct (_setState_well_formed ANY s Hwf) as (self1 & -> & Hwf1 & _) end.
    cbn [mbind result_bind]. apply Hnext, Hwf1.
  - cbn [mbind result_bind]. apply Hnext, Hwf.
Qed.

Lemma _constantHandle_handled (name : str) (self : t) :
  well_formed self → handled (_constantHandle name self).
Proof.
  intros Hwf. unfold _constantHandle. peek Hwf.
  destruct (bool_decide (top = ERROR)); cbn [mbind result_bind].
  { apply handled_setState, well_formed_reset. }
  destruct (bool_decide (top = EVAL)); apply handled_setState;
    [apply well_formed_reset|apply _clearInput_well_formed, Hwf].
Qed.

Lemma _binaryOpHandle_handled (op : str) (self : t) :
  well_formed self → handled (_binaryOpHandle op self).
Proof.
  intros Hwf. unfold _binaryOpHandle. peek Hwf.
  destruct (bool_decide (top = ERROR)); [apply handled_Ok, Hwf|].
  destruct (bool_decide (top = BINOP)); [apply handled_Ok, Hwf|].
  destruct (bool_decide (top = EVAL)); apply handled_setState, Hwf.
Qed.

Lemma _popTopMostState_loop_returns (fuel : nat) (code : StdRTStates)
    (stack : list StdRTStates) (i : nat) (e : exn) :
  (i < length stack)%nat →
  _popTopMostState_loop fuel code stack i ≠ Raise e.
Proof.
  intros Hi. induction fuel as [|fuel IH]; cbn [_popTopMostState_loop];
    destruct (1 <? i)%nat eqn:Hlt; try discriminate.
  destruct (lookup_lt_is_Some_2 stack i Hi) as [state Hstate].
  rewrite (getitem_Some _ _ _ Hstate). cbn [mbind result_bind].
  destruct (bool_decide (state = code)); [|exact IH].
  destruct (i <? length (delete i stack))%nat eqn:Hlen; [|discriminate].
  apply Nat.ltb_lt in Hlen, Hlt.
  destruct (lookup_lt_is_Some_2 (delete i stack) i Hlen) as [here Hhere].
  rewrite (getitem_Some _ _ _ Hhere). cbn [mbind result_bind].
  destruct (bool_decide (here = ANY)); cbn [mbind result_bind]; [|discriminate].
  destruct (lookup_lt_is_Some_2 (delete i stack) (i - 1)) as [before Hbefore]; [lia|].
  rewrite (getitem_Some _ _ _ Hbefore). cbn [mbind result_bind].
  destruct (bool_decide (before = ANY)); discriminate.
Qed.

(** The key +/-: what it returns does not depend on the passes that the
    loop of [_popTopMostState] is allowed, when it is one at least; or it
    raises the [IndexError] of [model.input[0]], or the loop does not end. *)
Lemma _negetHandle_outcomes (self : t) :
  well_formed self →
  (∃ self', well_formed self' ∧ ∀ fuel, _negetHandle (S fuel) self = Ok self')
  ∨ (input self = [] ∧ ∀ fuel, _negetHandle fuel self = Raise (Builtin IndexError None))
  ∨ (∀ fuel, _negetHandle fuel self = OutOfFuel).
Proof.
  intros Hwf. destruct (_peekState_well_formed _ Hwf) as (top & Hpeek & _).
  assert (Herror : isError self = Ok (bool_decide (top = ERROR)))
    by (unfold isError; rewrite Hpeek; reflexivity).
  destruct (bool_decide (top = ERROR)) eqn:Htop.
  { left. exists self. split; [exact Hwf|]. intros fuel.
    unfold _negetHandle. rewrite Herror. reflexivity. }
  destruct (_clearEval_well_formed self Hwf) as (self1 & Hclear & Hwf1 & Hinput & _).
  assert (Hstart : ∀ fuel,
    _negetHandle fuel self
    = if bool_decide (input self1 ≠ ZERO) then
        first ← py_index (input self1) 0;
        if bool_decide (first = 45%N) then
          '(_, self) ← _popTopMostState fuel PREOP
                         (with_model
                            (CalculatorRuntimeModel.set_input
                               (py_slice (input self1) (Some 1) None)) self1);
          Ok self
        else
          _setState PREOP
            (with_model (CalculatorRuntimeModel.set_input (py "-" ++ input self1)) self1)
      else Ok self1).
  { intros fuel. unfold _negetHandle. rewrite Herror. cbn [mbind result_bind].
    rewrite Hclear. reflexivity. }
  destruct (bool_decide (input self1 ≠ ZERO)).
  2: { left. exists self1. split; [exact Hwf1|]. intros fuel. apply Hstart. }
  destruct (input self1) as [|first rest] eqn:Hin.
  { right. left. split; [congruence|]. intros fuel. rewrite Hstart. reflexivity. }
  change (py_index (first :: rest) 0) with (Ok first) in Hstart.
  cbn [mbind result_bind] in Hstart.
  destruct (bool_decide (first = 45%N)).
  2: { match type of Hstart with context [_setState PREOP ?s] =>
         destruct (handled_setState PREOP s Hwf1) as (self2 & Hset & Hwf2) end.
       left. exists self2. split; [exact Hwf2|]. intros fuel. rewrite Hstart. exact Hset. }
  set (self2 := with_model
                  (CalculatorRuntimeModel.set_input (py_slice (first :: rest) (Some 1) None))
                  self1) in Hstart.
  assert (Hwf2 : well_formed self2) by exact Hwf1.
  destruct (2 <? length (_stateStack self2))%nat eqn:Hlen.
  - apply Nat.ltb_lt in Hlen.
    assert (Hpop : ∀ fuel,
      _popTopMostState fuel PREOP self2
      = if bool_decide (last (_stateStack self2) = Some PREOP) then
          match fuel with
          | O => OutOfFuel
          | S _ => Ok (true, with_stateStack (removelast (_stateStack self2)) self2)
          end
        else OutOfFuel).
    { intros fuel. unfold _popTopMostState.
      replace (1 <? length (_stateStack self2))%nat with true
        by (symmetry; apply Nat.ltb_lt; lia).
      rewrite _popTopMostState_loop_top by exact Hlen.
      destruct (bool_decide (last (_stateStack self2) = Some PREOP));
        [destruct fuel|]; reflexivity. }
    destruct (bool_decide (last (_stateStack self2) = Some PREOP)).
    + left. exists (with_stateStack (removelast (_stateStack self2)) self2). split.
      * eapply (_popTopMostState_well_formed 1 PREOP self2); [exact Hwf2|].
        exact (Hpop 1%nat).
      * intros fuel. rewrite Hstart, Hpop. reflexivity.
    + right. right. intros fuel. rewrite Hstart, Hpop. reflexivity.
  - apply Nat.ltb_ge in Hlen. left. exists self2. split; [exact Hwf2|].
    intros fuel. rewrite Hstart. unfold _popTopMostState.
    destruct (_stateStack self2) as [|s0 [|s1 [|s2 stack]]] eqn:Hstack;
      [reflexivity|reflexivity| |cbn [length] in Hlen; lia].
    change (Ok (false, with_stateStack [s0; s1] self2) ≫= (λ '(_, self), Ok self)
            = Ok self2).
    cbn [mbind result_bind]. rewrite <- Hstack. destruct self2; reflexivity.
Qed.

Lemma _factorialHandle_handled (self : t) :
  well_formed self → handled (_factorialHandle self).
Proof.
  intros Hwf. unfold _factorialHandle. peek Hwf.
  destruct (bool_decide (top = ERROR)); cbn [mbind result_bind];
    [apply handled_Ok, Hwf|].
  destruct (bool_decide (top ≠ POSTOP)); [|apply handled_Ok, Hwf].
  destruct (_clearEval_well_formed self Hwf) as (self1 & -> & Hwf1 & _).
  cbn [mbind result_bind]. apply handled_setState, Hwf1.
Qed.

Lemma _unaryFuncHandle_handled (func : str) (self : t) :
  well_formed self → handled (_unaryFuncHandle func self).
Proof.
  intros Hwf. unfold _unaryFuncHandle. peek Hwf.
  destruct (bool_decide (top = ERROR)); cbn [mbind result_bind];
    [apply handled_Ok, Hwf|].
  destruct (bool_decide (top ≠ R_BRACKET)); [|apply handled_Ok, Hwf].
  destruct (_clearEval_well_formed self Hwf) as (self1 & -> & Hwf1 & _).
  cbn [mbind result_bind]. apply handled_setState, Hwf1.
Qed.

Lemma _leftBracketHandle_handled (self : t) :
  well_formed self → handled (_leftBracketHandle self).
Proof.
  intros Hwf. unfold _leftBracketHandle. peek Hwf.
  destruct (bool_decide (top = ERROR)); [apply handled_Ok, Hwf|].
  destruct (_clearEval_well_formed self Hwf) as (self1 & -> & Hwf1 & _).
  cbn [mbind result_bind].
  assert (Hopen : ∀ self2 : t, well_formed self2 →
    handled (Ok (with_uncloseBrackets (_uncloseBrackets self2 + 1) self2))).
  { intros self2 [Hstack Hn]. eexists. split; [reflexivity|].
    split; [exact Hstack|]. cbn. lia. }
  case_bool_decide; cbn [mbind result_bind]; [apply Hopen, Hwf1|].
  set (self2 := with_model _ self1).
  assert (Hwf2 : well_formed self2) by exact Hwf1.
  destruct (_peekState_well_formed self2 Hwf2) as (top2 & -> & _).
  cbn [mbind result_bind].
  case_bool_decide; cbn [mbind result_bind]; [|apply Hopen, Hwf2].
  destruct (_popState_well_formed self2 Hwf2) as (top3 & self3 & -> & Hwf3 & _).
  cbn [mbind result_bind]. apply Hopen, Hwf3.
Qed.

Lemma _rightBracketHandle_handled (self : t) :
  well_formed self → handled (_rightBracketHandle self).
Proof.
  intros Hwf. unfold _rightBracketHandle.
  destruct (0 <? _uncloseBrackets self) eqn:Hn; [|apply handled_Ok, Hwf].
  apply handled_setState. destruct Hwf as [Hstack _]. split; [exact Hstack|].
  apply Z.ltb_lt in Hn. cbn. lia.
Qed.

Hypothesis HL : libm_returns L.
Hypothesis Hcontext : context_returns context.
Hypothesis HformatNumber : ∀ output, formatNumber output 16 12 ≠ OutOfFuel.

Lemma evaluate_handled (self : t) :
  well_formed self → handled (evaluate U L context formatNumber self).
Proof using HL Hcontext HformatNumber.
  intros Hwf. unfold evaluate. peek Hwf.
  assert (Hclose : ∀ r : result t, handled r →
    handled (self ← r; Ok (with_uncloseBrackets 0 self))).
  { intros r (self' & -> & [Hstack _]). eexists. split; [reflexivity|].
    split; [exact Hstack|exact (Z.le_refl 0)]. }
  match goal with |- handled (?c ≫= _) =>
    assert (Hcan : ∃ can : bool, c = Ok can)
      by (repeat match goal with |- context [if ?c then _ else _] => destruct c end; eauto);
    destruct Hcan as [can ->] end.
  cbn [mbind result_bind]. destruct can; [|apply handled_Ok, Hwf].
  match goal with |- handled (match ?a with _ => _ end ≫= _) =>
    destruct a as [self1|err|] eqn:Hattempt end.
  - apply Hclose. apply bind_Ok in Hattempt as (output & _ & Hattempt).
    apply bind_Ok in Hattempt as (line & _ & Hattempt).
    rewrite <- Hattempt. apply handled_setState, Hwf.
  - apply Hclose. apply handled_setState, Hwf.
  - exfalso. revert Hattempt.
    match goal with |- ?e ≫= _ = OutOfFuel → False =>
      pose proof (evaluate_returns L context HL Hcontext U _ : e ≠ OutOfFuel) as Hret;
      destruct e as [output|e'|]; cbn [mbind result_bind]; [|discriminate|congruence] end.
    pose proof (HformatNumber output) as Hfmt.
    destruct (formatNumber output 16 12) as [line|e'|]; cbn [mbind result_bind];
      [|discriminate|congruence].
    match goal with |- context [_setState EVAL ?s] =>
      destruct (handled_setState EVAL s Hwf) as (self1 & -> & _) end.
    discriminate.
Qed.
End Handlers.

(** The keys return, and keep the object well formed: the stack of states
    has [ANY] at its bottom, so that [_peekState] finds a state, and the
    count of the open brackets is not negative.  Every key but +/- returns:
    the key = when the functions of the C library and of the context, and
    [formatNumber], return.  The key +/- returns, or raises the [IndexError]
    of [model.input[0]], which it does on an empty input only, or does not
    return: the loop of [_popTopMostState] does not end. *)
Theorem keys_keep_the_runtime_well_formed
    (U : Unicode) (L : Libm) (context : EvaluatorContext)
    (formatNumber : value → Z → Z → result str) (k : key) (self : t) :
  well_formed self →
  match k with
  | KeyNeget =>
    (∃ self', well_formed self' ∧ (∃ top, _peekState self' = Ok top)
              ∧ ∀ fuel, press U L context formatNumber (S fuel) k self = Ok self')
    ∨ (input self = []
       ∧ ∀ fuel, press U L context formatNumber fuel k self
                 = Raise (Builtin IndexError None))
    ∨ (∀ fuel, press U L context formatNumber fuel k self = OutOfFuel)
  | KeyEvaluate =>
    libm_returns L → context_returns context →
    (∀ output, formatNumber output 16 12 ≠ OutOfFuel) →
    ∃ self', well_formed self' ∧ (∃ top, _peekState self' = Ok top)
             ∧ ∀ fuel, press U L context formatNumber fuel k self = Ok self'
  | _ =>
    ∃ self', well_formed self' ∧ (∃ top, _peekState self' = Ok top)
             ∧ ∀ fuel, press U L context formatNumber fuel k self = Ok self'
  end.
Proof.
  intros Hwf.
  assert (Hreturns : ∀ r : result t, handled r →
    ∃ self', well_formed self' ∧ (∃ top, _peekState self' = Ok top)
             ∧ ∀ fuel : nat, r = Ok self').
  { intros r (self' & -> & Hwf'). exists self'. split; [exact Hwf'|].
    destruct (_peekState_well_formed self' Hwf') as (top & Hpeek & _). eauto. }
  destruct k; cbn [press].
  - apply Hreturns, _clearHandle_handled.
  - apply Hreturns, _inputClearHandle_handled, Hwf.
  - apply Hreturns, _eraseHandle_handled, Hwf.
  - apply Hreturns, _numberHandle_handled, Hwf.
  - apply Hreturns, _dotHandle_handled, Hwf.
  - apply Hreturns, _constantHandle_handled, Hwf.
  - apply Hreturns, _binaryOpHandle_handled, Hwf.
  - destruct (_negetHandle_outcomes self Hwf) as [(self' & Hwf' & Hok)|[Hraise|Hloop]].
    + left. exists self'. split; [exact Hwf'|]. split; [|exact Hok].
      destruct (_peekState_well_formed self' Hwf') as (top & Hpeek & _). eauto.
    + right. left. exact Hraise.
    + right. right. exact Hloop.
  - apply Hreturns, _factorialHandle_handled, Hwf.
  - apply Hreturns, _unaryFuncHandle_handled, Hwf.
  - apply Hreturns, _leftBracketHandle_handled, Hwf.
  - apply Hreturns, _rightBracketHandle_handled, Hwf.
  - intros HL Hcontext HformatNumber. apply Hreturns, evaluate_handled; assumption.
Qed.

(** The key 7 on the new object, and the key = on 1 + 2. *)
Lemma keys_keep_the_runtime_well_formed_witness :
  (∃ self', well_formed self' ∧ (∃ top, _peekState self' = Ok top)
            ∧ ∀ fuel : nat,
                press latin_greek libm_examples (new_EvaluatorContext None None)
                  (λ _ _ _, Ok (py "3")) fuel (KeyNumber (py "7")) new
                = Ok self')
  ∧ (∃ self', well_formed self' ∧ (∃ top, _peekState self' = Ok top)
              ∧ ∀ fuel : nat,
                  press latin_greek libm_examples (new_EvaluatorContext None None)
                    (λ _ _ _, Ok (py "3")) fuel KeyEvaluate
                    {| model := {| CalculatorRuntimeModel.hint := py "1 +";
                                   CalculatorRuntimeModel.input := py "2";
                                   CalculatorRuntimeModel.modelChange := 3 |};
                       _stateStack := [ANY; BINOP; ANY];
                       _uncloseBrackets := 0 |}
                  = Ok self').
Proof.
  split.
  - apply (keys_keep_the_runtime_well_formed latin_greek libm_examples
             (new_EvaluatorContext None None) (λ _ _ _, Ok (py "3")) (KeyNumber (py "7")) new).
    split; [exists []; reflexivity|cbn; lia].
  - apply (keys_keep_the_runtime_well_formed latin_greek libm_examples
             (new_EvaluatorContext None None) (λ _ _ _, Ok (py "3")) KeyEvaluate).
    + split; [exists [BINOP; ANY]; reflexivity|cbn; lia].
    + exact libm_examples_returns.
    + apply new_EvaluatorContext_returns.
    + discriminate.
Defined.

(** ** [_popTopMostState] *)

(** [_popTopMostState] looks at the top of the stack only.  With one or two
    states it finds nothing.  With more it removes the top, when the top is
    the code; when it is not, the loop does not end: no number of passes is
    enough. *)
Theorem popTopMostState_looks_at_the_top_only
    (fuel : nat) (code : StdRTStates) (self : t) :
  _popTopMostState fuel code self
  = if (length (_stateStack self) <=? 2)%nat then Ok (false, self)
    else if bool_decide (last (_stateStack self) = Some code) then
      match fuel with
      | O => OutOfFuel
      | S _ => Ok (true, with_stateStack (removelast (_stateStack self)) self)
      end
    else OutOfFuel.
Proof.
  unfold _popTopMostState. destruct self as [m stack n]. cbn [_stateStack].
  destruct (length stack <=? 2)%nat eqn:Hlen.
  - apply Nat.leb_le in Hlen. destruct stack as [|s0 [|s1 [|s2 stack]]];
      [reflexivity|reflexivity| |cbn [length] in Hlen; lia].
    destruct fuel; reflexivity.
  - apply Nat.leb_gt in Hlen.
    replace (1 <? length stack)%nat with true by (symmetry; apply Nat.ltb_lt; lia).
    rewrite _popTopMostState_loop_top by exact Hlen.
    case_bool_decide; [destruct fuel|]; reflexivity.
Qed.

(** The key +/- on an input that starts with the minus sign does not return,
    when more than two states are on the stack and the top one is not
    [PREOP]: the loop of [_popTopMostState] does not end. *)
Theorem negetHandle_does_not_return
    (fuel : nat) (self : t) (top : StdRTStates) (rest : str) :
  last (_stateStack self) = Some top →
  top ≠ ERROR → top ≠ EVAL → top ≠ PREOP →
  (2 < length (_stateStack self))%nat →
  input self = 45%N :: rest →
  _negetHandle fuel self = OutOfFuel.
Proof.
  intros Htop Herror Heval Hpreop Hlen Hinput. unfold _negetHandle.
  unfold isError, _clearEval, justEvaluated, _peekState.
  rewrite (py_index_last _ _ Htop). cbn [mbind result_bind].
  rewrite !bool_decide_eq_false_2 by assumption. cbn [mbind result_bind].
  rewrite Hinput. rewrite bool_decide_eq_true_2 by discriminate.
  change (py_index (45%N :: rest) 0) with (Ok 45%N). cbn [mbind result_bind].
  rewrite bool_decide_eq_true_2 by reflexivity.
  unfold _popTopMostState. cbn [_stateStack with_model].
  replace (1 <? length (_stateStack self))%nat with true by (symmetry; apply Nat.ltb_lt; lia).
  rewrite _popTopMostState_loop_top by exact Hlen. rewrite Htop.
  rewrite bool_decide_eq_false_2 by congruence. reflexivity.
Qed.

(** The object after the keys 7, +/- and n!. *)
Lemma negetHandle_does_not_return_witness :
  _negetHandle 1000
    {| model := {| CalculatorRuntimeModel.hint := [];
                   CalculatorRuntimeModel.input := py "-7!";
                   CalculatorRuntimeModel.modelChange := 3 |};
       _stateStack := [ANY; PREOP; POSTOP];
       _uncloseBrackets := 0 |}
  = OutOfFuel.
Proof.
  apply (negetHandle_does_not_return 1000 _ POSTOP (py "7!"));
    [reflexivity|discriminate|discriminate|discriminate|cbn; lia|reflexivity].
Defined.

(** ** The state on the top *)

Lemma _peekState_push (stack : list StdRTStates) (code : StdRTStates) (self : t) :
  _peekState (with_stateStack (stack ++ [code]) self) = Ok code.
Proof. apply py_index_last. cbn [_stateStack with_stateStack]. apply last_snoc. Qed.

(** [_setState] leaves its code on the top. *)
Lemma _setState_top (code : StdRTStates) (self self' : t) :
  _setState code self = Ok self' →
  _peekState self' = Ok code ∧ model self' = model self
  ∧ _uncloseBrackets self' = _uncloseBrackets self.
Proof.
  unfold _setState.
  set (self0 := if bool_decide (code ∈ [EVAL; ERROR; BINOP]) then _resetState self else self).
  assert (Hself0 : model self0 = model self ∧ _uncloseBrackets self0 = _uncloseBrackets self)
    by (unfold self0; case_bool_decide; auto).
  destruct Hself0 as [Hmodel Hn]. intros H.
  apply bind_Ok in H as (differs & Hdiffers & H). destruct differs.
  - destruct (bool_decide (code = BINOP)).
    + injection H as <-. split; [apply _peekState_push|auto].
    + apply bind_Ok in H as (top & _ & H). injection H as <-.
      split; [apply _peekState_push|].
      destruct (bool_decide (top = BINOP)); split; assumption.
  - injection H as <-. split; [|auto].
    destruct (bool_decide (code ≠ ANY)); [discriminate|].
    apply bind_Ok in Hdiffers as (top & Htop & Hdiffers). injection Hdiffers as Hdiffers.
    apply bool_decide_eq_false_1, dec_stable in Hdiffers. congruence.
Qed.

(** ** The key = *)

(** The key = a second time changes nothing: what [evaluate] returns, it
    returns as it is. *)
Theorem evaluate_twice_is_evaluate_once
    (U : Unicode) (L : Libm) (context : EvaluatorContext)
    (formatNumber : value → Z → Z → result str) (self self' : t) :
  evaluate U L context formatNumber self = Ok self' →
  evaluate U L context formatNumber self' = Ok self'.
Proof.
  intros H. pose proof H as Hself. unfold evaluate in H.
  apply bind_Ok in H as (can & _ & H). destruct can; [|congruence].
  apply bind_Ok in H as (self1 & Hself1 & H). injection H as <-.
  assert (Htop : ∃ code, code ∈ [EVAL; ERROR] ∧ _peekState self1 = Ok code).
  { revert Hself1.
    match goal with |- match ?a with _ => _ end = _ → _ =>
      destruct a as [self2|err|] eqn:Hattempt end; [| |discriminate].
    - intros [= ->]. apply bind_Ok in Hattempt as (output & _ & Hattempt).
      apply bind_Ok in Hattempt as (line & _ & Hattempt).
      apply _setState_top in Hattempt as [Hpeek _]. exists EVAL.
      split; [set_solver|exact Hpeek].
    - intros Herror. apply _setState_top in Herror as [Hpeek _]. exists ERROR.
      split; [set_solver|exact Hpeek]. }
  destruct Htop as (code & Hcode & Hpeek).
  unfold evaluate, _canEvaluate, _matchState.
  change (_peekState (with_uncloseBrackets 0 self1)) with (_peekState self1).
  rewrite Hpeek. cbn [mbind result_bind].
  rewrite (bool_decide_eq_true_2 _ Hcode). reflexivity.
Qed.

(** The key = on 1 + 2, and on what it returns. *)
Lemma evaluate_twice_is_evaluate_once_witness :
  evaluate latin_greek libm_examples (new_EvaluatorContext None None) (λ _ _ _, Ok (py "3"))
    {| model := {| CalculatorRuntimeModel.hint := py "1 + 2 =";
                   CalculatorRuntimeModel.input := py "3";
                   CalculatorRuntimeModel.modelChange := 4 |};
       _stateStack := [ANY; EVAL];
       _uncloseBrackets := 0 |}
  = Ok {| model := {| CalculatorRuntimeModel.hint := py "1 + 2 =";
                      CalculatorRuntimeModel.input := py "3";
                      CalculatorRuntimeModel.modelChange := 4 |};
          _stateStack := [ANY; EVAL];
          _uncloseBrackets := 0 |}.
Proof.
  apply (evaluate_twice_is_evaluate_once latin_greek libm_examples
           (new_EvaluatorContext None None) (λ _ _ _, Ok (py "3"))
           {| model := {| CalculatorRuntimeModel.hint := py "1 +";
                          CalculatorRuntimeModel.input := py "2";
                          CalculatorRuntimeModel.modelChange := 3 |};
              _stateStack := [ANY; BINOP; ANY];
              _uncloseBrackets := 0 |}).
  vm_compute. reflexivity.
Defined.

(** ** The keys after an error *)

Ltac decide_closed :=
  repeat match goal with
         | |- context [@bool_decide ?P ?d] =>
           let b := eval vm_compute in (@bool_decide P d) in
           match b with true => idtac | false => idtac end;
           change (@bool_decide P d) with b
         end.

Lemma reset_display (self : t) : input (reset self) = ZERO ∧ hint (reset self) = [].
Proof.
  unfold reset, input, hint. cbn [model with_uncloseBrackets _resetState with_stateStack with_model].
  unfold CalculatorRuntimeModel.reset. split; model_cases.
Qed.

(** In the state of an error the keys of the operators, of the functions,
    of the dot and of the open bracket, and the key =, change nothing, and
    the close bracket changes nothing when no bracket is open.  AC and DEL
    reset the object, C clears the input, and a digit or a constant is the
    new input under an empty hint. *)
Theorem keys_after_an_error
    (U : Unicode) (L : Libm) (context : EvaluatorContext)
    (formatNumber : value → Z → Z → result str) (fuel : nat) (k : key) (self : t) :
  _peekState self = Ok ERROR →
  match k with
  | KeyClear | KeyErase => press U L context formatNumber fuel k self = Ok (reset self)
  | KeyInputClear => press U L context formatNumber fuel k self = Ok (_clearInput self)
  | KeyNumber number =>
    ∃ self', press U L context formatNumber fuel k self = Ok self'
             ∧ input self' = number ∧ hint self' = [] ∧ _peekState self' = Ok ANY
  | KeyConstant name =>
    ∃ self', press U L context formatNumber fuel k self = Ok self'
             ∧ input self' = name ∧ hint self' = [] ∧ _peekState self' = Ok CONST
  | KeyRightBracket =>
    _uncloseBrackets self ≤ 0 → press U L context formatNumber fuel k self = Ok self
  | _ => press U L context formatNumber fuel k self = Ok self
  end.
Proof.
  intros Hpeek.
  destruct k; cbn [press];
    unfold _clearHandle, _inputClearHandle, _eraseHandle, _numberHandle, _dotHandle,
      _constantHandle, _binaryOpHandle, _negetHandle, _factorialHandle, _unaryFuncHandle,
      _leftBracketHandle, _rightBracketHandle, evaluate,
      _canChangeNumber, _canEvaluate, _matchState, justEvaluated, isError;
    rewrite ?Hpeek; try reflexivity.
  - (* a digit *)
    set (self1 := with_model (CalculatorRuntimeModel.update number []) self).
    assert (Hset : _setState ANY self1 = Ok (with_stateStack (_stateStack self1 ++ [ANY]) self1)).
    { unfold _setState. decide_closed. cbv beta iota zeta.
      change (_peekState self1) with (_peekState self). rewrite Hpeek.
      cbn [mbind result_bind]. decide_closed. reflexivity. }
    eexists. split.
    { decide_closed. cbn [mbind result_bind fmap result_fmap negb]. exact Hset. }
    unfold input, hint. cbn [model with_model with_stateStack self1].
    rewrite update_input, update_hint. split; [reflexivity|]. split; [reflexivity|].
    apply _peekState_push.
  - (* a constant *)
    eexists. split.
    { decide_closed. cbn [mbind result_bind]. unfold _setState. decide_closed.
      cbv beta iota zeta. cbn [mbind result_bind]. 
      change (_peekState (with_model (CalculatorRuntimeModel.set_input name) (reset self)))
        with (@Ok StdRTStates ANY).
      cbn [mbind result_bind]. decide_closed. reflexivity. }
    unfold input, hint. cbn [model with_model with_stateStack].
    rewrite set_input_input, set_input_hint.
    split; [reflexivity|]. split; [apply reset_display|apply _peekState_push].
  - (* the close bracket *)
    intros Hn. replace (0 <? _uncloseBrackets self) with false; [reflexivity|].
    symmetry. apply Z.ltb_ge. exact Hn.
Qed.

(** The key + after a division by zero. *)
Lemma keys_after_an_error_witness :
  _binaryOpHandle (py "+")
    {| model := {| CalculatorRuntimeModel.hint := [];
                   CalculatorRuntimeModel.input := py "ERROR: Zero Division";
                   CalculatorRuntimeModel.modelChange := 4 |};
       _stateStack := [ANY; ERROR];
       _uncloseBrackets := 0 |}
  = Ok {| model := {| CalculatorRuntimeModel.hint := [];
                      CalculatorRuntimeModel.input := py "ERROR: Zero Division";
                      CalculatorRuntimeModel.modelChange := 4 |};
          _stateStack := [ANY; ERROR];
          _uncloseBrackets := 0 |}.
Proof.
  apply (keys_after_an_error latin_greek libm_examples (new_EvaluatorContext None None)
           (λ _ _ _, Ok []) 0 (KeyBinaryOp (py "+"))
           {| model := {| CalculatorRuntimeModel.hint := [];
                          CalculatorRuntimeModel.input := py "ERROR: Zero Division";
                          CalculatorRuntimeModel.modelChange := 4 |};
              _stateStack := [ANY; ERROR];
              _uncloseBrackets := 0 |}).
  reflexivity.
Defined.

(** ** Two operators in a row *)

Lemma _setState_BINOP (self : t) :
  _setState BINOP self = Ok (with_stateStack [ANY; BINOP] self).
Proof. reflexivity. Qed.

(** The key of a binary operator after the key of another one replaces it:
    the display and the states are those of the second key alone.  (The
    operators of the keys are one character long.) *)
Theorem second_operator_replaces_the_first (op1 op2 : str) (self self1 : t) :
  length op1 = 1%nat →
  _binaryOpHandle op1 self = Ok self1 →
  ∃ self2 self2',
    _binaryOpHandle op2 self1 = Ok self2
    ∧ _binaryOpHandle op2 self = Ok self2'
    ∧ same_display self2 self2'.
Proof.
  intros Hop1 H. destruct op1 as [|c [|? ?]]; try discriminate. clear Hop1.
  unfold _binaryOpHandle in H |- *. unfold isError, justEvaluated in H |- *.
  destruct (_peekState self) as [top| |] eqn:Hpeek; try discriminate.
  cbn [mbind result_bind] in H |- *.
  destruct (bool_decide (top = ERROR)) eqn:Herror.
  { injection H as <-. rewrite Hpeek. cbn [mbind result_bind]. rewrite Herror.
    eexists _, _. repeat split; reflexivity. }
  destruct (bool_decide (top = BINOP)) eqn:Hbinop.
  - injection H as <-.
    change (_peekState (with_model ?f self)) with (_peekState self).
    rewrite Hpeek. cbn [mbind result_bind]. rewrite Herror, Hbinop.
    eexists _, _. split; [reflexivity|]. split; [reflexivity|].
    unfold same_display, hint, input. cbn [model with_model _stateStack _uncloseBrackets].
    rewrite !set_hint_hint, !set_hint_input.
    rewrite (py_slice_to _ [c]) by discriminate. auto.
  - rewrite _setState_BINOP in H. injection H as <-.
    rewrite _setState_BINOP.
    change (_peekState (with_stateStack [ANY; BINOP] ?s)) with (@Ok StdRTStates BINOP).
    cbn [mbind result_bind]. decide_closed. cbv beta iota.
    eexists _, _. split; [reflexivity|]. split; [reflexivity|].
    unfold same_display, hint, input.
    cbn [model with_model with_stateStack _stateStack _uncloseBrackets].
    rewrite !set_hint_hint, !set_hint_input.
    destruct (bool_decide (top = EVAL)); cbn [model with_model];
      rewrite !update_hint, !update_input;
      (split; [|auto]).
    + rewrite (app_assoc _ (py " ") [c]). rewrite (py_slice_to _ [c]) by discriminate.
      rewrite <- app_assoc. reflexivity.
    + rewrite (app_assoc _ (py " ") [c]), (app_assoc _ _ [c]).
      rewrite (py_slice_to _ [c]) by discriminate.
      rewrite <- !app_assoc. reflexivity.
Qed.

(** The keys + and - on the new object. *)
Lemma second_operator_replaces_the_first_witness :
  ∃ self2 self2',
    _binaryOpHandle (py "-")
      (with_stateStack [ANY; BINOP]
         (with_model (CalculatorRuntimeModel.update ZERO (py " 0 +")) new)) = Ok self2
    ∧ _binaryOpHandle (py "-") new = Ok self2'
    ∧ same_display self2 self2'.
Proof.
  apply (second_operator_replaces_the_first (py "+") (py "-") new); reflexivity.
Defined.

(** ** DEL after the key of a function *)

Lemma re_dots_bracket_argument (arg : str) (n : nat) :
  10%N ∉ arg → (0 < n + length arg)%nat → re_dots_bracket (arg ++ [41%N]) n = true.
Proof.
  revert n. induction arg as [|ch arg IH]; intros n Hline Hlen.
  - cbn [app re_dots_bracket]. cbn [length] in Hlen.
    replace (0 <? n)%nat with true by (symmetry; apply Nat.ltb_lt; lia). reflexivity.
  - cbn [app re_dots_bracket]. apply not_elem_of_cons in Hline as [Hch Hline].
    rewrite IH by (cbn [length] in Hlen |- *; first [exact Hline|lia]).
    replace (ch =? 10)%N with false by (symmetry; apply N.eqb_neq; congruence).
    reflexivity.
Qed.

Lemma re_word_bracket_call (U : Unicode) (func arg : str) (n : nat) :
  Forall (λ ch, re_word U ch = true) func →
  re_word U 40 = false →
  arg ≠ [] → 10%N ∉ arg → (0 < n + length func)%nat →
  re_word_bracket U (func ++ [40%N] ++ arg ++ [41%N]) n = Some (n + length func)%nat.
Proof.
  intros Hfunc Hopen Harg Hline. revert n.
  induction Hfunc as [|ch func Hch Hfunc IH]; intros n Hlen.
  - cbn [app re_word_bracket]. rewrite Hopen. cbn [length] in Hlen |- *.
    replace (0 <? n)%nat with true by (symmetry; apply Nat.ltb_lt; lia).
    rewrite re_dots_bracket_argument;
      [|exact Hline|destruct arg; [congruence|cbn [length]; lia]].
    cbn. f_equal. lia.
  - cbn [app re_word_bracket]. rewrite Hch.
    change (func ++ 40%N :: arg ++ [41%N]) with (func ++ [40%N] ++ arg ++ [41%N]).
    rewrite IH by lia. cbn [length]. f_equal. lia.
Qed.

Lemma checkFunc_call (U : Unicode) (func arg : str) :
  Forall (λ ch, re_word U ch = true) func →
  re_word U 40 = false →
  func ≠ [] → arg ≠ [] → 10%N ∉ arg →
  checkFunc U (func ++ [40%N] ++ arg ++ [41%N]) = func.
Proof.
  intros Hfunc Hopen Hname Harg Hline. unfold checkFunc.
  rewrite re_word_bracket_call; try assumption;
    [|destruct func; [congruence|cbn [length]; lia]].
  cbn [Nat.add]. apply take_app_length.
Qed.

(** DEL after the key of a function takes the call away again: the input is
    the argument, as it was before the key.  The name is made of word
    characters, which the open bracket is not, and the input is not empty
    and has no line feed; the state is neither that of an error nor that of
    a close bracket, in which the key does nothing. *)
Theorem erase_undoes_a_function_key
    (U : Unicode) (func : str) (self : t) (top : StdRTStates) :
  well_formed self →
  _peekState self = Ok top → top ≠ ERROR → top ≠ R_BRACKET →
  func ≠ [] → Forall (λ ch, re_word U ch = true) func → re_word U 40 = false →
  input self ≠ [] → 10%N ∉ input self →
  ∃ self1 self2,
    _unaryFuncHandle func self = Ok self1
    ∧ input self1 = func ++ py "(" ++ input self ++ py ")"
    ∧ _eraseHandle U self1 = Ok self2
    ∧ input self2 = input self.
Proof.
  intros Hwf Hpeek Herror Hbracket Hname Hfunc Hopen Harg Hline.
  destruct (_clearEval_well_formed self Hwf) as (self0 & Hclear & Hwf0 & Hinput & _).
  set (call := func ++ py "(" ++ input self0 ++ py ")").
  set (self0' := with_model (CalculatorRuntimeModel.set_input call) self0).
  assert (Hwf0' : well_formed self0') by exact Hwf0.
  destruct (_setState_well_formed FUNC self0' Hwf0') as (self1 & Hset & Hwf1 & _).
  pose proof Hset as Htop. apply _setState_top in Htop as (Htop & Hmodel & _).
  assert (Hkey : _unaryFuncHandle func self = Ok self1).
  { unfold _unaryFuncHandle, isError. rewrite Hpeek. cbn [mbind result_bind].
    rewrite (bool_decide_eq_false_2 _ Herror). cbn [mbind result_bind].
    rewrite (bool_decide_eq_true_2 _ Hbracket). rewrite Hclear. exact Hset. }
  assert (Hinput1 : input self1 = func ++ [40%N] ++ input self ++ [41%N]).
  { unfold input at 1. rewrite Hmodel. cbn [model with_model self0'].
    rewrite set_input_input. unfold call. rewrite Hinput. reflexivity. }
  set (self1' :=
         with_model (CalculatorRuntimeModel.set_input
                       (py_slice (input self1)
                          (Some (Z.of_nat (length (checkFunc U (input self1))) + 1))
                          (Some (-1)))) self1).
  assert (Hwf1' : well_formed self1') by exact Hwf1.
  destruct (_popState_well_formed self1' Hwf1') as (top2 & self2 & Hpop & _ & Hmodel2 & _).
  exists self1, self2. split; [exact Hkey|]. split; [exact Hinput1|]. split.
  { unfold _eraseHandle, isError. rewrite Htop. cbn [mbind result_bind]. decide_closed.
    cbv beta iota zeta. fold self1'. rewrite Hpop. reflexivity. }
  unfold input at 1. rewrite Hmodel2. cbn [model with_model self1'].
  rewrite set_input_input, Hinput1.
  rewrite checkFunc_call by assumption.
  rewrite (app_assoc func [40%N]).
  replace (Z.of_nat (length func) + 1) with (Z.of_nat (length (func ++ [40%N])))
    by (rewrite length_app; cbn [length]; lia).
  apply (py_slice_between (func ++ [40%N]) (input self) [41%N]). discriminate.
Qed.

(** The key sin on the new object. *)
Lemma erase_undoes_a_function_key_witness :
  ∃ self1 self2,
    _unaryFuncHandle (py "sin") new = Ok self1
    ∧ input self1 = py "sin(0)"
    ∧ _eraseHandle latin_greek self1 = Ok self2
    ∧ input self2 = py "0".
Proof.
  apply (erase_undoes_a_function_key latin_greek (py "sin") new ANY);
    try reflexivity; try discriminate.
  - split; [exists []; reflexivity|cbn; lia].
  - repeat constructor.
  - intros H. apply list_elem_of_singleton in H. discriminate.
Defined.

(** ** DEL after +/- and n! *)

(** DEL after the key n!, and after the key +/- on an input that has no
    sign and is not ['0'], takes the operator away again: the input is as it
    was before the key. *)
Theorem erase_undoes_a_unary_operator
    (U : Unicode) (L : Libm) (context : EvaluatorContext)
    (formatNumber : value → Z → Z → result str) (fuel : nat)
    (k : key) (self : t) (top : StdRTStates) :
  well_formed self →
  _peekState self = Ok top → top ≠ ERROR →
  k = KeyFactorial ∧ top ≠ POSTOP
  ∨ k = KeyNeget ∧ input self ≠ ZERO ∧ (∃ ch, head (input self) = Some ch ∧ ch ≠ 45%N) →
  ∃ self1 self2,
    press U L context formatNumber fuel k self = Ok self1
    ∧ press U L context formatNumber fuel KeyErase self1 = Ok self2
    ∧ input self2 = input self.
Proof.
  intros Hwf Hpeek Herror Hkey.
  destruct (_clearEval_well_formed self Hwf) as (self0 & Hclear & Hwf0 & Hinput & _).
  destruct Hkey as [[-> Hpostop]|(-> & Hzero & ch & Hhead & Hsign)]; cbn [press].
  - set (self0' := with_model (CalculatorRuntimeModel.set_input (input self0 ++ py "!")) self0).
    assert (Hwf0' : well_formed self0') by exact Hwf0.
    destruct (_setState_well_formed POSTOP self0' Hwf0') as (self1 & Hset & Hwf1 & _).
    pose proof Hset as Htop. apply _setState_top in Htop as (Htop & Hmodel & _).
    set (self1' :=
           with_model (CalculatorRuntimeModel.set_input
                         (py_slice (input self1) None (Some (-1)))) self1).
    assert (Hwf1' : well_formed self1') by exact Hwf1.
    destruct (_popState_well_formed self1' Hwf1') as (top2 & self2 & Hpop & _ & Hmodel2 & _).
    exists self1, self2. split; [|split].
    + unfold _factorialHandle, isError. rewrite Hpeek. cbn [mbind result_bind].
      rewrite (bool_decide_eq_false_2 _ Herror). cbn [mbind result_bind].
      rewrite (bool_decide_eq_true_2 _ Hpostop). rewrite Hclear. exact Hset.
    + unfold _eraseHandle, isError. rewrite Htop. cbn [mbind result_bind]. decide_closed.
      cbv beta iota zeta. fold self1'. rewrite Hpop. reflexivity.
    + unfold input at 1. rewrite Hmodel2. cbn [model with_model self1'].
      rewrite set_input_input. unfold input at 1. rewrite Hmodel.
      cbn [model with_model self0']. rewrite set_input_input.
      fold (input self0). rewrite Hinput.
      apply (py_slice_to (input self) (py "!")). discriminate.
  - set (self0' := with_model (CalculatorRuntimeModel.set_input (py "-" ++ input self0)) self0).
    assert (Hwf0' : well_formed self0') by exact Hwf0.
    destruct (_setState_well_formed PREOP self0' Hwf0') as (self1 & Hset & Hwf1 & _).
    pose proof Hset as Htop. apply _setState_top in Htop as (Htop & Hmodel & _).
    set (self1' :=
           with_model (CalculatorRuntimeModel.set_input
                         (py_slice (input self1) (Some 1) None)) self1).
    assert (Hwf1' : well_formed self1') by exact Hwf1.
    destruct (_popState_well_formed self1' Hwf1') as (top2 & self2 & Hpop & _ & Hmodel2 & _).
    exists self1, self2. split; [|split].
    + unfold _negetHandle, isError. rewrite Hpeek. cbn [mbind result_bind].
      rewrite (bool_decide_eq_false_2 _ Herror). rewrite Hclear. cbn [mbind result_bind].
      rewrite <- Hinput in Hzero, Hhead.
      rewrite (bool_decide_eq_true_2 _ Hzero).
      assert (Hfirst : py_index (input self0) 0 = Ok ch).
      { destruct (input self0) as [|ch' rest]; [discriminate|].
        injection Hhead as ->. reflexivity. }
      rewrite Hfirst. cbn [mbind result_bind].
      rewrite (bool_decide_eq_false_2 _ Hsign). exact Hset.
    + unfold _eraseHandle, isError. rewrite Htop. cbn [mbind result_bind]. decide_closed.
      cbv beta iota zeta. fold self1'. rewrite Hpop. reflexivity.
    + unfold input at 1. rewrite Hmodel2. cbn [model with_model self1'].
      rewrite set_input_input. unfold input at 1. rewrite Hmodel.
      cbn [model with_model self0']. rewrite set_input_input.
      fold (input self0). rewrite Hinput.
      apply (py_slice_from (py "-") (input self)).
Qed.

(** The key n! after the key 7. *)
Lemma erase_undoes_a_unary_operator_witness :
  ∃ self1 self2,
    _factorialHandle (with_model (CalculatorRuntimeModel.set_input (py "7")) new) = Ok self1
    ∧ _eraseHandle latin_greek self1 = Ok self2
    ∧ input self2 = py "7".
Proof.
  apply (erase_undoes_a_unary_operator latin_greek libm_examples
           (new_EvaluatorContext None None) (λ _ _ _, Ok []) 0 KeyFactorial
           (with_model (CalculatorRuntimeModel.set_input (py "7")) new) ANY).
  - split; [exists []; reflexivity|cbn; lia].
  - reflexivity.
  - discriminate.
  - left. split; [reflexivity|discriminate].
Defined.

(** ** The keys of the digits *)

(** The keys of the digits write no zero before a number: an input that has
    no leading zero has none after the key of a digit. *)
Theorem digits_write_no_leading_zero (number : str) (self self' : t) :
  length number = 1%nat →
  no_leading_zero (input self) →
  _numberHandle number self = Ok self' →
  no_leading_zero (input self').
Proof.
  intros Hnumber Hself H. unfold _numberHandle in H.
  apply bind_Ok in H as (can & _ & H). destruct can; [|congruence].
  apply bind_Ok in H as (evaluated & _ & H). apply bind_Ok in H as (fresh & _ & H).
  apply _setState_top in H as (_ & Hmodel & _). unfold input at 1. rewrite Hmodel.
  destruct number as [|d [|? ?]]; try discriminate.
  assert (Hdigit : no_leading_zero [d]).
  { destruct (decide (d = 48%N)) as [->|Hd]; [left; reflexivity|right].
    cbn [head]. congruence. }
  destruct fresh; cbn [model with_model].
  { rewrite update_input. exact Hdigit. }
  case_bool_decide as Hzero.
  - case_bool_decide as Hinput; cbn [model with_model]; [|exact Hself].
    rewrite set_input_input. destruct Hself as [Hself|Hself]; [contradiction|].
    destruct (input self) as [|ch rest]; [left; reflexivity|right; exact Hself].
  - case_bool_decide as Hinput; cbn [model with_model]; rewrite set_input_input;
      [exact Hdigit|].
    destruct Hself as [Hself|Hself]; [contradiction|].
    destruct (input self) as [|ch rest]; [exact Hdigit|right; exact Hself].
Qed.

(** The key 0 after the key 7. *)
Lemma digits_write_no_leading_zero_witness : no_leading_zero (py "70").
Proof.
  apply (digits_write_no_leading_zero (py "0")
           (with_model (CalculatorRuntimeModel.set_input (py "7")) new)
           (with_model (CalculatorRuntimeModel.set_input (py "70"))
              (with_model (CalculatorRuntimeModel.set_input (py "7")) new))).
  - reflexivity.
  - right. discriminate.
  - reflexivity.
Defined.

End RuntimeProperties.
